(** * devkill: scan streamer, delete pipeline and reactive controller

    A shallow embedding of the scan-and-delete engine of devkill
    (model.go and the scan streamer) together with the properties its
    specification states about it.

    Conventions of the embedding.
    - Go [int] and [int64] are [Z], increments and sums written with
      their two's-complement wrap-around ([wrapInt]).
    - Go [error] values are the inductive [error]: the two sentinels the
      code tests with [errors.Is] (permission, cancellation) and any other
      error, carried by its text.
    - The directory tree behind the confined root is an inductive tree of
      entries as [fs.DirEntry] shows them; [fs.WalkDir] is written out
      over it.  A slash-separated relative path is kept as the list of
      its elements, [pathString] gives the string.
    - The context of a scan is an oracle over the count of the
      consultations of [ctx.Err()], which is threaded through the walk;
      the wall clock of the progress throttle is an oracle as well.
    - The message channel of a scan is the list of the messages sent on
      it, in order.  The commands [Update] hands back are values of
      [Cmd]; [RemoveAll] acts on an abstract filesystem state and every
      call of it is logged.
    - Library functions are modelled by what they compute:
      [filepath.Clean] lexically (Unix build), [sort.SliceStable] as
      stable insertion, [strings.ToLower] and the key handling of the
      table widget as parameters. *)

From Stdlib Require Import ZArith Lia Bool List String Ascii.
From Stdlib Require Import Sorting.Sorted Permutation DecimalString.
From Stdlib Require Import OrdersEx.
From stdpp Require Import base option list strings gmap.

Import ListNotations.
Set Warnings "-register-all".
Local Open Scope Z_scope.
Local Open Scope string_scope.

(** ** Errors *)

Inductive error : Type :=
| ErrPermission              (* errors.Is(err, fs.ErrPermission) *)
| ErrCanceled                (* context.Canceled *)
| ErrOther (text : string).  (* any other error, e.g. errors.New(text) *)

Definition isPermission (e : error) : bool :=
  match e with ErrPermission => true | _ => false end.

Definition isCanceled (e : error) : bool :=
  match e with ErrCanceled => true | _ => false end.

(** ** Machine integers *)

Definition wrapInt (z : Z) : Z := (z + 2 ^ 63) mod 2 ^ 64 - 2 ^ 63.

Definition inInt (z : Z) : Prop := - 2 ^ 63 <= z < 2 ^ 63.

(** [x++] on a Go int. *)
Definition incr (z : Z) : Z := wrapInt (z + 1).

(** [len(xs)] *)
Definition len {A} (xs : list A) : Z := Z.of_nat (length xs).

(** ** Paths (package path/filepath, Unix build: the separator is "/") *)

Module Filepath.

Definition Separator : string := "/".

Definition isSep (c : ascii) : bool := Ascii.eqb c "/"%char.

(** The elements of a path between separators. *)
Fixpoint splitSlash (s : string) : list string :=
  match s with
  | EmptyString => [EmptyString]
  | String c s' =>
      if isSep c then EmptyString :: splitSlash s'
      else match splitSlash s' with
           | h :: t => String c h :: t
           | [] => [String c EmptyString]
           end
  end.

Fixpoint joinSlash (elems : list string) : string :=
  match elems with
  | [] => EmptyString
  | [e] => e
  | e :: rest => e ++ "/" ++ joinSlash rest
  end.

(** One round of the loop of [filepath.Clean]: [out] is the output buffer
    as the stack of the elements written so far, last written first.  An
    element ".." stays on the stack only where the buffer cannot backtrack
    (the [dotdot] mark of the library code). *)
Definition cleanElem (rooted : bool) (out : list string) (e : string)
  : list string :=
  if String.eqb e "" then out
  else if String.eqb e "." then out
  else if String.eqb e ".." then
    match out with
    | top :: rest =>
        if String.eqb top ".." then ".." :: out else rest
    | [] => if rooted then [] else [".."]
    end
  else e :: out.

Definition IsAbs (path : string) : bool :=
  match path with
  | String c _ => isSep c
  | EmptyString => false
  end.

(** [filepath.Clean]: the shortest path equivalent to [path] by purely
    lexical processing. *)
Definition Clean (path : string) : string :=
  if String.eqb path "" then "."
  else
    let rooted := IsAbs path in
    let out := fold_left (cleanElem rooted) (splitSlash path) [] in
    let body := joinSlash (rev out) in
    if rooted then "/" ++ body
    else if String.eqb body "" then "." else body.

End Filepath.

(** ** PathGuard: [validateDeletePath] *)

Definition validateDeletePath (relPath : string) : string + error :=
  if String.eqb relPath "" then
    inr (ErrOther "delete: empty path")
  else
    let cleaned := Filepath.Clean relPath in
    if String.eqb cleaned "." || String.eqb cleaned Filepath.Separator then
      inr (ErrOther "delete: refusing to delete root")
    else if Filepath.IsAbs cleaned then
      inr (ErrOther "delete: absolute paths are not allowed")
    else inl cleaned.

(** ** The delete command

    The filesystem behind the confined root is an abstract state [FS];
    [RemoveAll] is the one destructive call.  A [World] keeps the state
    and the log of the [RemoveAll] calls issued so far. *)

Record deleteResult : Type := mkDeleteResult {
  drPath : string;
  drErr : option error
}.

Section DeleteCmd.

Variable FS : Type.
Variable RemoveAll : FS -> string -> FS * option error.

Record World : Type := mkWorld {
  wFS : FS;
  wCalls : list string
}.

(** [root.RemoveAll(cleaned)] *)
Definition callRemoveAll (w : World) (p : string) : option error * World :=
  let '(fs', e) := RemoveAll (wFS w) p in
  (e, mkWorld fs' (wCalls w ++ [p])).

(** The closure returned by [deleteCmd(root, relPath)], run in world [w].
    [rootOk] is [root != nil]. *)
Definition deleteCmd (rootOk : bool) (relPath : string) (w : World)
  : deleteResult * World :=
  match validateDeletePath relPath with
  | inr err => (mkDeleteResult relPath (Some err), w)
  | inl cleaned =>
      if negb rootOk then
        (mkDeleteResult cleaned
           (Some (ErrOther "delete: root handle is nil")), w)
      else
        let '(removeErr, w') := callRemoveAll w cleaned in
        (mkDeleteResult cleaned removeErr, w')
  end.

End DeleteCmd.

Arguments mkWorld {FS}.
Arguments wFS {FS}.
Arguments wCalls {FS}.
Arguments callRemoveAll {FS}.
Arguments deleteCmd {FS}.

(** ** Rows and messages *)

Record rowData : Type := mkRow {
  RelPath : string;
  Target : string;
  Category : string;
  SizeBytes : Z;
  Marked : bool;
  Deleted : bool;
  DeleteErr : string
}.

Record TargetDef : Type := mkTargetDef {
  tdName : string;
  tdCategory : string
}.

(** [tea.Msg] as the controller's [Update] switches on it.  A channel is
    named by a number; a duration is a number of nanoseconds. *)
Inductive Msg : Type :=
| WindowSizeMsg (width height : Z)
| SpinnerTickMsg
| ProgressFrameMsg
| ScanStreamMsg (id : Z) (ch : nat)
| ScanRowMsg (id : Z) (row : rowData)
| ScanProgressMsg (id visited found : Z)
| ScanFinishedMsg (id : Z) (warnings : list string) (err : option error)
                  (elapsed visited found : Z)
| ScanPulseMsg
| DeleteResultMsg (result : deleteResult)
| RecalcSizeMsg (path : string) (size : Z) (err : option error)
| KeyMsg (key : string).

(** ** The directory tree behind the confined root

    An entry is what the walk sees of it through [fs.DirEntry]: its name,
    [IsDir()], the symlink bit of [Type()], the outcome of [Info()] (the
    size, or an error), and for a directory the outcome of [ReadDir]: the
    children in the order [ReadDir] lists them, and its error if any. *)

Inductive node : Type :=
| Node (name : string) (isDir : bool) (symlink : bool)
       (info : Z + error) (readErr : option error) (children : list node).

Definition nName (d : node) : string :=
  match d with Node n _ _ _ _ _ => n end.
Definition nIsDir (d : node) : bool :=
  match d with Node _ b _ _ _ _ => b end.
Definition nSymlink (d : node) : bool :=
  match d with Node _ _ b _ _ _ => b end.
Definition nInfo (d : node) : Z + error :=
  match d with Node _ _ _ i _ _ => i end.
Definition nReadErr (d : node) : option error :=
  match d with Node _ _ _ _ e _ => e end.
Definition nChildren (d : node) : list node :=
  match d with Node _ _ _ _ _ c => c end.

(** A slash-separated relative path is kept as the list of its elements;
    "." is the empty list.  [pathString] is the string the code sees. *)
Definition pathString (p : list string) : string :=
  match p with
  | [] => "."
  | _ => Filepath.joinSlash p
  end.

Definition ErrNotExist : error := ErrOther "file does not exist".
Definition ErrNotDir : error := ErrOther "not a directory".

Definition findChild (c : string) (ds : list node) : option node :=
  find (fun n => String.eqb (nName n) c) ds.

(** [fs.Stat(rootFS, path)] *)
Fixpoint Stat (d : node) (p : list string) : node + error :=
  match p with
  | [] => inl d
  | c :: rest =>
      if negb (nIsDir d) then inr ErrNotDir
      else match findChild c (nChildren d) with
           | Some n => Stat n rest
           | None => inr ErrNotExist
           end
  end.

(** ** [fs.WalkDir] *)

Inductive walkErr : Type :=
| SkipDir
| Fail (e : error).

(** The three ways [fs.WalkDir] calls its function: on an entry, on the
    root when [Stat] failed (the entry is nil), and a second time on a
    directory whose [ReadDir] failed. *)
Inductive visit : Type :=
| VEntry (d : node)
| VStatErr (e : error)
| VReadDirErr (d : node) (e : error).

Section WalkDir.

Context {St : Type}.
Variable fn : list string -> visit -> St -> option walkErr * St.

(** [err == SkipDir && d.IsDir()] turns into a successful skip. *)
Definition skipped (d : node) (e : walkErr) : option walkErr :=
  match e with
  | SkipDir => if nIsDir d then None else Some SkipDir
  | Fail _ => Some e
  end.

Fixpoint walkDir (name : list string) (d : node) (s : St)
  : option walkErr * St :=
  let walkChildren :=
    fix walkChildren (dirs : list node) (s : St) : option walkErr * St :=
      match dirs with
      | [] => (None, s)
      | d1 :: rest =>
          match walkDir (name ++ [nName d1]) d1 s with
          | (Some SkipDir, s') => (None, s')
          | (Some (Fail e), s') => (Some (Fail e), s')
          | (None, s') => walkChildren rest s'
          end
      end in
  match d with
  | Node _ isDir _ _ readErr children =>
      match fn name (VEntry d) s with
      | (Some e, s1) => (skipped d e, s1)
      | (None, s1) =>
          if negb isDir then (None, s1)
          else
            match readErr with
            | Some err =>
                match fn name (VReadDirErr d err) s1 with
                | (Some e, s2) => (skipped d e, s2)
                | (None, s2) => walkChildren children s2
                end
            | None => walkChildren children s1
            end
      end
  end.

Fixpoint walkChildren (name : list string) (dirs : list node) (s : St)
  : option walkErr * St :=
  match dirs with
  | [] => (None, s)
  | d1 :: rest =>
      match walkDir (name ++ [nName d1]) d1 s with
      | (Some SkipDir, s') => (None, s')
      | (Some (Fail e), s') => (Some (Fail e), s')
      | (None, s') => walkChildren name rest s'
      end
  end.

Definition WalkDir (fsys : node) (root : list string) (s : St)
  : option error * St :=
  let '(err, s') :=
    match Stat fsys root with
    | inr e => fn root (VStatErr e) s
    | inl d => walkDir root d s
    end in
  (match err with
   | Some SkipDir => None
   | Some (Fail e) => Some e
   | None => None
   end, s').

End WalkDir.

(** ** SizeAccumulator: [dirSize]

    [ctx k] tells whether the context is found cancelled at the [k]-th
    time [ctx.Err()] is consulted; the count of consultations is threaded
    through the walk. *)

Definition wrap64 (z : Z) : Z := wrapInt z.

Definition dirSizeFn (ctx : nat -> bool)
  (path : list string) (v : visit) (st : Z * nat) : option walkErr * (Z * nat) :=
  let '(size, t) := st in
  if ctx t then (Some (Fail ErrCanceled), (size, S t))
  else
    match v with
    | VStatErr e | VReadDirErr _ e => (Some (Fail e), (size, S t))
    | VEntry entry =>
        if nIsDir entry then
          if nSymlink entry then (Some SkipDir, (size, S t))
          else (None, (size, S t))
        else
          match nInfo entry with
          | inr infoErr => (Some (Fail infoErr), (size, S t))
          | inl sz => (None, (wrap64 (size + sz), S t))
          end
    end.

Definition dirSize (ctx : nat -> bool) (root : option node)
  (relPath : list string) (t : nat) : (Z + error) * nat :=
  match root with
  | None => (inr (ErrOther "dirSize: root handle is nil"), t)
  | Some r =>
      let '(err, (size, t')) := WalkDir (dirSizeFn ctx) r relPath (0, t) in
      match err with
      | Some e => (inr e, t')
      | None => (inl size, t')
      end
  end.

(** ** ScanStreamer: [runScanStream] *)

Record ScanOptions : Type := mkScanOptions {
  Root : string;
  RootHandle : option node;
  Targets : gmap string TargetDef;
  MaxDepth : Z;
  SkipDirs : gset string
}.

Definition trimDotSlash (s : string) : string :=
  match s with
  | String "."%char (String "/"%char rest) => rest
  | _ => s
  end.

Fixpoint countSlash (s : string) : Z :=
  match s with
  | EmptyString => 0
  | String c rest => (if Filepath.isSep c then 1 else 0) + countSlash rest
  end.

Definition relativeDepth (relPath : string) : Z :=
  let trimmed := trimDotSlash relPath in
  if String.eqb trimmed "." || String.eqb trimmed "" then 0
  else countSlash trimmed.

Record scanState : Type := mkScanState {
  ssWarnings : list string;
  ssVisited : Z;
  ssFound : Z;
  ssOut : list Msg;
  ssTick : nat
}.

Definition permissionWarning (path : list string) : string :=
  "permission denied: " ++ pathString path.

Section Scan.

Variable ctx : nat -> bool.
(** [due k]: more than 200ms have passed since the last progress
    message, asked at consultation [k]. *)
Variable due : nat -> bool.
Variable opts : ScanOptions.
Variable id : Z.

Definition sendProgress (force : bool) (s : scanState) : scanState :=
  if force || due (ssTick s) then
    mkScanState (ssWarnings s) (ssVisited s) (ssFound s)
      (ssOut s ++ [ScanProgressMsg id (ssVisited s) (ssFound s)]) (ssTick s)
  else s.

Definition addWarning (w : string) (s : scanState) : scanState :=
  mkScanState (ssWarnings s ++ [w]) (ssVisited s) (ssFound s) (ssOut s)
    (ssTick s).

Definition setTick (t : nat) (s : scanState) : scanState :=
  mkScanState (ssWarnings s) (ssVisited s) (ssFound s) (ssOut s) t.

Definition scanFn (path : list string) (v : visit) (s : scanState)
  : option walkErr * scanState :=
  if ctx (ssTick s) then (Some (Fail ErrCanceled), setTick (S (ssTick s)) s)
  else
    let s := setTick (S (ssTick s)) s in
    match v with
    | VStatErr err | VReadDirErr _ err =>
        if isPermission err then
          (Some SkipDir, addWarning (permissionWarning path) s)
        else (Some (Fail err), s)
    | VEntry entry =>
        if nIsDir entry then
          let s := mkScanState (ssWarnings s) (incr (ssVisited s))
                     (ssFound s) (ssOut s) (ssTick s) in
          let s := sendProgress false s in
          let name := nName entry in
          if decide (name ∈ SkipDirs opts) then (Some SkipDir, s)
          else if nSymlink entry then (Some SkipDir, s)
          else if Z.ltb 0 (MaxDepth opts)
                  && Z.ltb (MaxDepth opts) (relativeDepth (pathString path))
               then (Some SkipDir, s)
          else
            match Targets opts !! name with
            | Some def =>
                let '(res, t') :=
                  dirSize ctx (RootHandle opts) path (ssTick s) in
                let s := setTick t' s in
                match res with
                | inr sizeErr =>
                    if isPermission sizeErr then
                      (Some SkipDir, addWarning (permissionWarning path) s)
                    else (Some (Fail sizeErr), s)
                | inl size =>
                    let s := mkScanState (ssWarnings s) (ssVisited s)
                               (incr (ssFound s))
                               (ssOut s ++
                                  [ScanRowMsg id
                                     (mkRow (pathString path) (tdName def)
                                        (tdCategory def) size false false "")])
                               (ssTick s) in
                    (Some SkipDir, sendProgress true s)
                end
            | None => (None, s)
            end
        else (None, s)
    end.

(** The messages [runScanStream] sends on [out] before closing it.
    [elapsed] is [time.Since(start)] at the end. *)
Definition runScanStream (elapsed : Z) : list Msg :=
  match RootHandle opts with
  | None =>
      [ScanFinishedMsg id [] (Some (ErrOther "scan: root handle is nil"))
         0 0 0]
  | Some r =>
      let '(err, s) := WalkDir scanFn r [] (mkScanState [] 0 0 [] 0) in
      let err :=
        match err with
        | Some e => if isCanceled e then None else Some e
        | None => None
        end in
      let s := sendProgress true s in
      ssOut s ++
        [ScanFinishedMsg id (ssWarnings s) err elapsed (ssVisited s)
           (ssFound s)]
  end.

End Scan.

(** ** ReactiveController: the model and its [Update] *)

Inductive sortMode : Type :=
| sortBySizeDesc
| sortBySizeAsc
| sortByNameAsc.

Definition sortModeString (m : sortMode) : string :=
  match m with
  | sortBySizeAsc => "size ↑"
  | sortByNameAsc => "name"
  | sortBySizeDesc => "size ↓"
  end.

Inductive confirmAction : Type :=
| confirmNone
| confirmDeleteOne
| confirmDeleteMarked.

Record confirmState : Type := mkConfirm {
  active : bool;
  action : confirmAction;
  paths : list string
}.

(** The zero value [confirmState{}]. *)
Definition noConfirm : confirmState := mkConfirm false confirmNone [].

(** The commands [Update] hands back to the runtime. *)
Inductive Cmd : Type :=
| CmdSpinner
| CmdProgress
| CmdWaitScan (ch : nat)
| CmdScanStart (scanCtx : nat) (id : Z)
| CmdScanPulse
| CmdDelete (rootOk : bool) (relPath : string)
| CmdRecalc (relPath : string)
| CmdTable
| CmdQuit.

(** The fields of [model] that carry state of the engine.  The table
    widget is kept by its cursor, the help widget by [ShowAll]; a scan
    context is named by a number, the contexts cancelled so far are
    listed.  The spinner, the progress bars and the pulse animation are
    display only and are left out. *)
Record model : Type := mkModel {
  rows : list rowData;
  loading : bool;
  err : option error;
  warnings : list string;
  lastScan : Z;
  lastEvent : string;
  sort_mode : sortMode;
  confirm : confirmState;
  confirmDeletes : bool;
  width : Z;
  height : Z;
  helpShowAll : bool;
  scanOpts : ScanOptions;
  scanID : Z;
  scanCtx : nat;
  cancelledCtx : list nat;
  baseCancelled : bool;
  scanStream : option nat;
  scanVisited : Z;
  scanFound : Z;
  deleting : bool;
  deleteQueue : list string;
  deleteTotal : Z;
  deleteDone : Z;
  deleteErrors : Z;
  cursor : Z
}.

Definition set_rows (v : list rowData) (m : model) : model :=
    mkModel v (loading m) (err m) (warnings m) (lastScan m) (lastEvent m)
    (sort_mode m) (confirm m) (confirmDeletes m) (width m) (height m)
    (helpShowAll m) (scanOpts m) (scanID m) (scanCtx m) (cancelledCtx m)
    (baseCancelled m) (scanStream m) (scanVisited m) (scanFound m) (deleting
    m) (deleteQueue m) (deleteTotal m) (deleteDone m) (deleteErrors m)
    (cursor m).
Definition set_loading (v : bool) (m : model) : model :=
    mkModel (rows m) v (err m) (warnings m) (lastScan m) (lastEvent m)
    (sort_mode m) (confirm m) (confirmDeletes m) (width m) (height m)
    (helpShowAll m) (scanOpts m) (scanID m) (scanCtx m) (cancelledCtx m)
    (baseCancelled m) (scanStream m) (scanVisited m) (scanFound m) (deleting
    m) (deleteQueue m) (deleteTotal m) (deleteDone m) (deleteErrors m)
    (cursor m).
Definition set_err (v : option error) (m : model) : model :=
    mkModel (rows m) (loading m) v (warnings m) (lastScan m) (lastEvent m)
    (sort_mode m) (confirm m) (confirmDeletes m) (width m) (height m)
    (helpShowAll m) (scanOpts m) (scanID m) (scanCtx m) (cancelledCtx m)
    (baseCancelled m) (scanStream m) (scanVisited m) (scanFound m) (deleting
    m) (deleteQueue m) (deleteTotal m) (deleteDone m) (deleteErrors m)
    (cursor m).
Definition set_warnings (v : list string) (m : model) : model :=
    mkModel (rows m) (loading m) (err m) v (lastScan m) (lastEvent m)
    (sort_mode m) (confirm m) (confirmDeletes m) (width m) (height m)
    (helpShowAll m) (scanOpts m) (scanID m) (scanCtx m) (cancelledCtx m)
    (baseCancelled m) (scanStream m) (scanVisited m) (scanFound m) (deleting
    m) (deleteQueue m) (deleteTotal m) (deleteDone m) (deleteErrors m)
    (cursor m).
Definition set_lastScan (v : Z) (m : model) : model :=
    mkModel (rows m) (loading m) (err m) (warnings m) v (lastEvent m)
    (sort_mode m) (confirm m) (confirmDeletes m) (width m) (height m)
    (helpShowAll m) (scanOpts m) (scanID m) (scanCtx m) (cancelledCtx m)
    (baseCancelled m) (scanStream m) (scanVisited m) (scanFound m) (deleting
    m) (deleteQueue m) (deleteTotal m) (deleteDone m) (deleteErrors m)
    (cursor m).
Definition set_lastEvent (v : string) (m : model) : model :=
    mkModel (rows m) (loading m) (err m) (warnings m) (lastScan m) v
    (sort_mode m) (confirm m) (confirmDeletes m) (width m) (height m)
    (helpShowAll m) (scanOpts m) (scanID m) (scanCtx m) (cancelledCtx m)
    (baseCancelled m) (scanStream m) (scanVisited m) (scanFound m) (deleting
    m) (deleteQueue m) (deleteTotal m) (deleteDone m) (deleteErrors m)
    (cursor m).
Definition set_sort_mode (v : sortMode) (m : model) : model :=
    mkModel (rows m) (loading m) (err m) (warnings m) (lastScan m)
    (lastEvent m) v (confirm m) (confirmDeletes m) (width m) (height m)
    (helpShowAll m) (scanOpts m) (scanID m) (scanCtx m) (cancelledCtx m)
    (baseCancelled m) (scanStream m) (scanVisited m) (scanFound m) (deleting
    m) (deleteQueue m) (deleteTotal m) (deleteDone m) (deleteErrors m)
    (cursor m).
Definition set_confirm (v : confirmState) (m : model) : model :=
    mkModel (rows m) (loading m) (err m) (warnings m) (lastScan m)
    (lastEvent m) (sort_mode m) v (confirmDeletes m) (width m) (height m)
    (helpShowAll m) (scanOpts m) (scanID m) (scanCtx m) (cancelledCtx m)
    (baseCancelled m) (scanStream m) (scanVisited m) (scanFound m) (deleting
    m) (deleteQueue m) (deleteTotal m) (deleteDone m) (deleteErrors m)
    (cursor m).
Definition set_confirmDeletes (v : bool) (m : model) : model :=
    mkModel (rows m) (loading m) (err m) (warnings m) (lastScan m)
    (lastEvent m) (sort_mode m) (confirm m) v (width m) (height m)
    (helpShowAll m) (scanOpts m) (scanID m) (scanCtx m) (cancelledCtx m)
    (baseCancelled m) (scanStream m) (scanVisited m) (scanFound m) (deleting
    m) (deleteQueue m) (deleteTotal m) (deleteDone m) (deleteErrors m)
    (cursor m).
Definition set_width (v : Z) (m : model) : model :=
    mkModel (rows m) (loading m) (err m) (warnings m) (lastScan m)
    (lastEvent m) (sort_mode m) (confirm m) (confirmDeletes m) v (height m)
    (helpShowAll m) (scanOpts m) (scanID m) (scanCtx m) (cancelledCtx m)
    (baseCancelled m) (scanStream m) (scanVisited m) (scanFound m) (deleting
    m) (deleteQueue m) (deleteTotal m) (deleteDone m) (deleteErrors m)
    (cursor m).
Definition set_height (v : Z) (m : model) : model :=
    mkModel (rows m) (loading m) (err m) (warnings m) (lastScan m)
    (lastEvent m) (sort_mode m) (confirm m) (confirmDeletes m) (width m) v
    (helpShowAll m) (scanOpts m) (scanID m) (scanCtx m) (cancelledCtx m)
    (baseCancelled m) (scanStream m) (scanVisited m) (scanFound m) (deleting
    m) (deleteQueue m) (deleteTotal m) (deleteDone m) (deleteErrors m)
    (cursor m).
Definition set_helpShowAll (v : bool) (m : model) : model :=
    mkModel (rows m) (loading m) (err m) (warnings m) (lastScan m)
    (lastEvent m) (sort_mode m) (confirm m) (confirmDeletes m) (width m)
    (height m) v (scanOpts m) (scanID m) (scanCtx m) (cancelledCtx m)
    (baseCancelled m) (scanStream m) (scanVisited m) (scanFound m) (deleting
    m) (deleteQueue m) (deleteTotal m) (deleteDone m) (deleteErrors m)
    (cursor m).
Definition set_scanOpts (v : ScanOptions) (m : model) : model :=
    mkModel (rows m) (loading m) (err m) (warnings m) (lastScan m)
    (lastEvent m) (sort_mode m) (confirm m) (confirmDeletes m) (width m)
    (height m) (helpShowAll m) v (scanID m) (scanCtx m) (cancelledCtx m)
    (baseCancelled m) (scanStream m) (scanVisited m) (scanFound m) (deleting
    m) (deleteQueue m) (deleteTotal m) (deleteDone m) (deleteErrors m)
    (cursor m).
Definition set_scanID (v : Z) (m : model) : model :=
    mkModel (rows m) (loading m) (err m) (warnings m) (lastScan m)
    (lastEvent m) (sort_mode m) (confirm m) (confirmDeletes m) (width m)
    (height m) (helpShowAll m) (scanOpts m) v (scanCtx m) (cancelledCtx m)
    (baseCancelled m) (scanStream m) (scanVisited m) (scanFound m) (deleting
    m) (deleteQueue m) (deleteTotal m) (deleteDone m) (deleteErrors m)
    (cursor m).
Definition set_scanCtx (v : nat) (m : model) : model :=
    mkModel (rows m) (loading m) (err m) (warnings m) (lastScan m)
    (lastEvent m) (sort_mode m) (confirm m) (confirmDeletes m) (width m)
    (height m) (helpShowAll m) (scanOpts m) (scanID m) v (cancelledCtx m)
    (baseCancelled m) (scanStream m) (scanVisited m) (scanFound m) (deleting
    m) (deleteQueue m) (deleteTotal m) (deleteDone m) (deleteErrors m)
    (cursor m).
Definition set_cancelledCtx (v : list nat) (m : model) : model :=
    mkModel (rows m) (loading m) (err m) (warnings m) (lastScan m)
    (lastEvent m) (sort_mode m) (confirm m) (confirmDeletes m) (width m)
    (height m) (helpShowAll m) (scanOpts m) (scanID m) (scanCtx m) v
    (baseCancelled m) (scanStream m) (scanVisited m) (scanFound m) (deleting
    m) (deleteQueue m) (deleteTotal m) (deleteDone m) (deleteErrors m)
    (cursor m).
Definition set_baseCancelled (v : bool) (m : model) : model :=
    mkModel (rows m) (loading m) (err m) (warnings m) (lastScan m)
    (lastEvent m) (sort_mode m) (confirm m) (confirmDeletes m) (width m)
    (height m) (helpShowAll m) (scanOpts m) (scanID m) (scanCtx m)
    (cancelledCtx m) v (scanStream m) (scanVisited m) (scanFound m)
    (deleting m) (deleteQueue m) (deleteTotal m) (deleteDone m)
    (deleteErrors m) (cursor m).
Definition set_scanStream (v : option nat) (m : model) : model :=
    mkModel (rows m) (loading m) (err m) (warnings m) (lastScan m)
    (lastEvent m) (sort_mode m) (confirm m) (confirmDeletes m) (width m)
    (height m) (helpShowAll m) (scanOpts m) (scanID m) (scanCtx m)
    (cancelledCtx m) (baseCancelled m) v (scanVisited m) (scanFound m)
    (deleting m) (deleteQueue m) (deleteTotal m) (deleteDone m)
    (deleteErrors m) (cursor m).
Definition set_scanVisited (v : Z) (m : model) : model :=
    mkModel (rows m) (loading m) (err m) (warnings m) (lastScan m)
    (lastEvent m) (sort_mode m) (confirm m) (confirmDeletes m) (width m)
    (height m) (helpShowAll m) (scanOpts m) (scanID m) (scanCtx m)
    (cancelledCtx m) (baseCancelled m) (scanStream m) v (scanFound m)
    (deleting m) (deleteQueue m) (deleteTotal m) (deleteDone m)
    (deleteErrors m) (cursor m).
Definition set_scanFound (v : Z) (m : model) : model :=
    mkModel (rows m) (loading m) (err m) (warnings m) (lastScan m)
    (lastEvent m) (sort_mode m) (confirm m) (confirmDeletes m) (width m)
    (height m) (helpShowAll m) (scanOpts m) (scanID m) (scanCtx m)
    (cancelledCtx m) (baseCancelled m) (scanStream m) (scanVisited m) v
    (deleting m) (deleteQueue m) (deleteTotal m) (deleteDone m)
    (deleteErrors m) (cursor m).
Definition set_deleting (v : bool) (m : model) : model :=
    mkModel (rows m) (loading m) (err m) (warnings m) (lastScan m)
    (lastEvent m) (sort_mode m) (confirm m) (confirmDeletes m) (width m)
    (height m) (helpShowAll m) (scanOpts m) (scanID m) (scanCtx m)
    (cancelledCtx m) (baseCancelled m) (scanStream m) (scanVisited m)
    (scanFound m) v (deleteQueue m) (deleteTotal m) (deleteDone m)
    (deleteErrors m) (cursor m).
Definition set_deleteQueue (v : list string) (m : model) : model :=
    mkModel (rows m) (loading m) (err m) (warnings m) (lastScan m)
    (lastEvent m) (sort_mode m) (confirm m) (confirmDeletes m) (width m)
    (height m) (helpShowAll m) (scanOpts m) (scanID m) (scanCtx m)
    (cancelledCtx m) (baseCancelled m) (scanStream m) (scanVisited m)
    (scanFound m) (deleting m) v (deleteTotal m) (deleteDone m)
    (deleteErrors m) (cursor m).
Definition set_deleteTotal (v : Z) (m : model) : model :=
    mkModel (rows m) (loading m) (err m) (warnings m) (lastScan m)
    (lastEvent m) (sort_mode m) (confirm m) (confirmDeletes m) (width m)
    (height m) (helpShowAll m) (scanOpts m) (scanID m) (scanCtx m)
    (cancelledCtx m) (baseCancelled m) (scanStream m) (scanVisited m)
    (scanFound m) (deleting m) (deleteQueue m) v (deleteDone m)
    (deleteErrors m) (cursor m).
Definition set_deleteDone (v : Z) (m : model) : model :=
    mkModel (rows m) (loading m) (err m) (warnings m) (lastScan m)
    (lastEvent m) (sort_mode m) (confirm m) (confirmDeletes m) (width m)
    (height m) (helpShowAll m) (scanOpts m) (scanID m) (scanCtx m)
    (cancelledCtx m) (baseCancelled m) (scanStream m) (scanVisited m)
    (scanFound m) (deleting m) (deleteQueue m) (deleteTotal m) v
    (deleteErrors m) (cursor m).
Definition set_deleteErrors (v : Z) (m : model) : model :=
    mkModel (rows m) (loading m) (err m) (warnings m) (lastScan m)
    (lastEvent m) (sort_mode m) (confirm m) (confirmDeletes m) (width m)
    (height m) (helpShowAll m) (scanOpts m) (scanID m) (scanCtx m)
    (cancelledCtx m) (baseCancelled m) (scanStream m) (scanVisited m)
    (scanFound m) (deleting m) (deleteQueue m) (deleteTotal m) (deleteDone
    m) v (cursor m).
Definition set_cursor (v : Z) (m : model) : model :=
    mkModel (rows m) (loading m) (err m) (warnings m) (lastScan m)
    (lastEvent m) (sort_mode m) (confirm m) (confirmDeletes m) (width m)
    (height m) (helpShowAll m) (scanOpts m) (scanID m) (scanCtx m)
    (cancelledCtx m) (baseCancelled m) (scanStream m) (scanVisited m)
    (scanFound m) (deleting m) (deleteQueue m) (deleteTotal m) (deleteDone
    m) (deleteErrors m) v.

Definition itoa (z : Z) : string :=
  DecimalString.NilZero.string_of_int (Z.to_int z).

Arguments itoa : simpl never.

Definition errorText (e : error) : string :=
  match e with
  | ErrPermission => "permission denied"
  | ErrCanceled => "context canceled"
  | ErrOther text => text
  end.

Definition rootOkOf (o : ScanOptions) : bool :=
  match RootHandle o with Some _ => true | None => false end.

Definition NewModel (opts : ScanOptions) (confirmDeletes : bool) : model :=
  mkModel [] true None [] 0 "" sortBySizeDesc noConfirm confirmDeletes 0 0
    false opts 1 0 [] false None 0 0 false [] 0 0 0 0.

(** [sort.SliceStable]: insertion of each element in front of the sorted
    rest, behind every element that is less than it. *)
Section SliceStable.

Context {A : Type}.
Variable less : A -> A -> bool.

Fixpoint insertStable (x : A) (l : list A) : list A :=
  match l with
  | [] => [x]
  | y :: l' => if less y x then y :: insertStable x l' else x :: l
  end.

Fixpoint sliceStable (l : list A) : list A :=
  match l with
  | [] => []
  | x :: l' => insertStable x (sliceStable l')
  end.

End SliceStable.

Definition nextSortMode (current : sortMode) : sortMode :=
  match current with
  | sortBySizeDesc => sortBySizeAsc
  | sortBySizeAsc => sortByNameAsc
  | sortByNameAsc => sortBySizeDesc
  end.

Definition setMarked (b : bool) (r : rowData) : rowData :=
  mkRow (RelPath r) (Target r) (Category r) (SizeBytes r) b (Deleted r)
    (DeleteErr r).

Definition setDeleteErr (e : string) (r : rowData) : rowData :=
  mkRow (RelPath r) (Target r) (Category r) (SizeBytes r) (Marked r)
    (Deleted r) e.

Definition setSizeBytes (z : Z) (r : rowData) : rowData :=
  mkRow (RelPath r) (Target r) (Category r) z (Marked r) (Deleted r)
    (DeleteErr r).

(** [Deleted = true; Marked = false; DeleteErr = ""] *)
Definition setDeletedRow (r : rowData) : rowData :=
  mkRow (RelPath r) (Target r) (Category r) (SizeBytes r) false true "".

Section Controller.

(** [strings.ToLower] *)
Variable ToLower : string -> string.

(** How the table widget moves its cursor on a key: the key, the cursor
    and the number of rows give the new cursor. *)
Variable tableKey : string -> Z -> Z -> Z.

(** The [less] function of [sortRows]. *)
Definition rowLess (mode : sortMode) (left right : rowData) : bool :=
  if negb (Bool.eqb (Deleted left) (Deleted right)) then negb (Deleted left)
  else
    match mode with
    | sortBySizeAsc =>
        if Z.eqb (SizeBytes left) (SizeBytes right) then
          String.ltb (ToLower (RelPath left)) (ToLower (RelPath right))
        else Z.ltb (SizeBytes left) (SizeBytes right)
    | sortByNameAsc =>
        String.ltb (ToLower (RelPath left)) (ToLower (RelPath right))
    | sortBySizeDesc =>
        if Z.eqb (SizeBytes left) (SizeBytes right) then
          String.ltb (ToLower (RelPath left)) (ToLower (RelPath right))
        else Z.gtb (SizeBytes left) (SizeBytes right)
    end.

Definition sortRows (m : model) : model :=
  set_rows (sliceStable (rowLess (sort_mode m)) (rows m)) m.

(** [m.table.SetRows(rows)]: the widget pulls its cursor back onto the
    last row. *)
Definition setTableRows (m : model) : model :=
  if Z.ltb (len (rows m) - 1) (cursor m)
  then set_cursor (len (rows m) - 1) m
  else m.

(** [m.table.Update(msg)] *)
Definition tableUpdate (msg : Msg) (m : model) : model :=
  match msg with
  | KeyMsg k => set_cursor (tableKey k (cursor m) (len (rows m))) m
  | _ => m
  end.

(** [idx := m.table.Cursor()] with its range check
    [idx < 0 || idx >= len(m.rows)], which also covers the guard
    [len(m.rows) == 0] in front of it. *)
Definition cursorIndex (m : model) : option nat :=
  if Z.ltb (cursor m) 0 || Z.leb (len (rows m)) (cursor m) then None
  else Some (Z.to_nat (cursor m)).

Definition toggleMark (m : model) : model :=
  match cursorIndex m with
  | None => m
  | Some idx =>
      match rows m !! idx with
      | None => m
      | Some r =>
          if Deleted r then m
          else
            let r' := setMarked (negb (Marked r)) r in
            let m := set_rows (<[idx := r']> (rows m)) m in
            let m :=
              set_lastEvent
                (if Marked r' then "Added to queue" else "Removed from queue")
                m in
            setTableRows m
      end
  end.

Definition markRow (r : rowData) : rowData :=
  if Deleted r then r
  else if negb (Marked r) then setMarked true r else r.

Definition markAll (m : model) : model :=
  match rows m with
  | [] => m
  | _ =>
      let count :=
        len (List.filter (fun r => negb (Deleted r) && negb (Marked r)) (rows m)) in
      let m := set_rows (map markRow (rows m)) m in
      let m :=
        set_lastEvent
          (if Z.gtb count 0 then "Queued " ++ itoa count ++ " item(s)"
           else "Queue already full") m in
      setTableRows m
  end.

Definition unmarkRow (r : rowData) : rowData :=
  if Marked r then setMarked false r else r.

Definition clearMarks (m : model) : model :=
  match rows m with
  | [] => m
  | _ =>
      let count := len (List.filter (fun r => Marked r) (rows m)) in
      let m := set_rows (map unmarkRow (rows m)) m in
      let m :=
        set_lastEvent
          (if Z.gtb count 0 then "Cleared queue" else "Queue already empty")
          m in
      setTableRows m
  end.

Definition startDelete (ps : list string) (m : model) : model * list Cmd :=
  match ps with
  | [] => (m, [])
  | p0 :: _ =>
      if deleting m then (m, [])
      else
        let m := set_deleting true m in
        let m := set_deleteQueue ps m in
        let m := set_deleteTotal (len ps) m in
        let m := set_deleteDone 0 m in
        let m := set_deleteErrors 0 m in
        let m :=
          set_lastEvent ("Deleting " ++ itoa (len ps) ++ " item(s)…") m in
        (m, [CmdProgress; CmdDelete (rootOkOf (scanOpts m)) p0])
  end.

Definition requestDeleteSelected (m : model) : model * list Cmd :=
  match cursorIndex m with
  | None => (m, [])
  | Some idx =>
      match rows m !! idx with
      | None => (m, [])
      | Some row =>
          if Deleted row then (m, [])
          else if confirmDeletes m then
            (set_confirm (mkConfirm true confirmDeleteOne [RelPath row]) m, [])
          else startDelete [RelPath row] m
      end
  end.

Definition markedPaths (rs : list rowData) : list string :=
  map RelPath (List.filter (fun row => Marked row && negb (Deleted row)) rs).

Definition requestDeleteMarked (m : model) : model * list Cmd :=
  let ps := markedPaths (rows m) in
  match ps with
  | [] => (set_lastEvent "Queue is empty" m, [])
  | _ =>
      if confirmDeletes m then
        (set_confirm (mkConfirm true confirmDeleteMarked ps) m, [])
      else startDelete ps m
  end.

Definition requestRecalcSelected (m : model) : model * list Cmd :=
  match cursorIndex m with
  | None => (m, [])
  | Some idx =>
      match rows m !! idx with
      | None => (m, [])
      | Some row =>
          if Deleted row then (m, [])
          else (set_lastEvent "Recalculating size…" m, [CmdRecalc (RelPath row)])
      end
  end.

(** [findRow]: the first row of that path; [None] is the code's -1. *)
Fixpoint findRowFrom (rs : list rowData) (path : string) (idx : nat)
  : option nat :=
  match rs with
  | [] => None
  | row :: rest =>
      if String.eqb (RelPath row) path then Some idx
      else findRowFrom rest path (S idx)
  end.

Definition findRow (m : model) (path : string) : option nat :=
  findRowFrom (rows m) path 0.

(** The first half of [applyDeleteResult]: the row of the result. *)
Definition recordDeleteResult (result : deleteResult) (m : model) : model :=
  match findRow m (drPath result) with
  | None => m
  | Some idx =>
      match drErr result with
      | Some e =>
          let m :=
            set_rows (alter (setDeleteErr (errorText e)) idx (rows m)) m in
          set_deleteErrors (incr (deleteErrors m)) m
      | None => set_rows (alter setDeletedRow idx (rows m)) m
      end
  end.

(** [applyDeleteResult]; [None] is the run-time panic of indexing
    [m.deleteQueue] out of range. *)
Definition applyDeleteResult (result : deleteResult) (m : model)
  : option (model * list Cmd) :=
  let m := recordDeleteResult result m in
  if deleting m then
    let m := set_deleteDone (incr (deleteDone m)) m in
    if Z.geb (deleteDone m) (deleteTotal m) then
      let m := set_deleting false m in
      let m := set_deleteQueue [] m in
      let m :=
        set_lastEvent
          (if Z.gtb (deleteErrors m) 0 then
             "Deleted " ++ itoa (wrapInt (deleteTotal m - deleteErrors m))
               ++ " item(s), " ++ itoa (deleteErrors m) ++ " failed"
           else "Deleted " ++ itoa (deleteTotal m) ++ " item(s)") m in
      Some (m, [CmdProgress])
    else if Z.ltb (deleteDone m) 0 then None
    else
      match deleteQueue m !! Z.to_nat (deleteDone m) with
      | None => None
      | Some nextPath =>
          Some (m, [CmdProgress; CmdDelete (rootOkOf (scanOpts m)) nextPath])
      end
  else Some (m, []).

Definition applyRecalcResult (path : string) (size : Z) (e : option error)
  (m : model) : model :=
  match findRow m path with
  | None => m
  | Some idx =>
      match e with
      | Some e' => set_lastEvent ("Recalc failed: " ++ errorText e') m
      | None =>
          let m := set_rows (alter (setSizeBytes size) idx (rows m)) m in
          let m := set_lastEvent "Size recalculated" m in
          setTableRows m
      end
  end.

Definition startScan (m : model) : model * list Cmd :=
  let m := set_cancelledCtx (scanCtx m :: cancelledCtx m) m in
  let m := set_scanCtx (S (scanCtx m)) m in
  let m := set_scanID (incr (scanID m)) m in
  let m := set_loading true m in
  let m := set_err None m in
  let m := set_warnings [] m in
  let m := set_rows [] m in
  let m := set_scanVisited 0 m in
  let m := set_scanFound 0 m in
  let m := set_lastScan 0 m in
  let m := set_lastEvent "Scanning…" m in
  let m := setTableRows m in
  (m, [CmdSpinner; CmdScanStart (scanCtx m) (scanID m); CmdScanPulse]).

Definition updateLayout (w h : Z) (m : model) : model :=
  if Z.eqb w 0 || Z.eqb h 0 then m
  else if Z.eqb (width m) w && Z.eqb (height m) h then m
  else
    let w := if Z.ltb w 60 then 60 else w in
    let h := if Z.ltb h 12 then 12 else h in
    if Z.eqb (width m) w && Z.eqb (height m) h then m
    else set_height h (set_width w m).

Definition keyIn (k : string) (keys : list string) : bool :=
  existsb (String.eqb k) keys.

(** The [tea.KeyMsg] case of [Update] while a confirmation is pending. *)
Definition confirmKey (k : string) (m : model) : model * list Cmd :=
  if keyIn k ["y"; "Y"] then
    let ps := paths (confirm m) in
    startDelete ps (set_confirm noConfirm m)
  else if keyIn k ["n"; "N"; "esc"] then
    (set_lastEvent "Deletion cancelled" (set_confirm noConfirm m), [])
  else (m, []).

(** The end of [Update], after the switch on the message: the table
    widget sees the message unless a confirmation is pending. *)
Definition afterSwitch (msg : Msg) (r : model * list Cmd)
  : option (model * list Cmd) :=
  let '(m, cmds) := r in
  if negb (active (confirm m)) then
    Some (tableUpdate msg m, (cmds ++ [CmdTable])%list)
  else Some (m, cmds).

(** [Update]: the new model and the batched commands.  [None] is a
    run-time panic.  The quit key returns before the table widget sees the
    message. *)
Definition Update (m : model) (msg : Msg) : option (model * list Cmd) :=
  let finish := afterSwitch msg in
  match msg with
  | WindowSizeMsg w h => finish (updateLayout w h m, [])
  | SpinnerTickMsg => finish (m, if loading m then [CmdSpinner] else [])
  | ProgressFrameMsg => finish (m, [CmdProgress])
  | ScanStreamMsg id ch =>
      if negb (Z.eqb id (scanID m)) then finish (m, [])
      else finish (set_scanStream (Some ch) m, [CmdWaitScan ch])
  | ScanRowMsg id row =>
      if negb (Z.eqb id (scanID m)) then finish (m, [])
      else
        let m := set_rows (rows m ++ [row]) m in
        let m := set_scanFound (incr (scanFound m)) m in
        let m := setTableRows m in
        let m := set_lastEvent ("Found: " ++ RelPath row) m in
        finish (m, match scanStream m with
                   | Some ch => [CmdWaitScan ch]
                   | None => []
                   end)
  | ScanProgressMsg id visited found =>
      if negb (Z.eqb id (scanID m)) then finish (m, [])
      else
        let m := set_scanVisited visited m in
        let m := set_scanFound found m in
        finish (m, match scanStream m with
                   | Some ch => [CmdWaitScan ch]
                   | None => []
                   end)
  | ScanFinishedMsg id ws e elapsed visited found =>
      if negb (Z.eqb id (scanID m)) then finish (m, [])
      else
        let m := set_loading false m in
        let m := set_err e m in
        let m := set_warnings ws m in
        let m := set_lastScan elapsed m in
        let m := set_scanVisited visited m in
        let m := set_scanFound found m in
        let m := sortRows m in
        let m := setTableRows m in
        let m :=
          set_lastEvent
            (match e with
             | None => "Scan complete: " ++ itoa (len (rows m)) ++ " items"
             | Some e' => "Scan failed: " ++ errorText e'
             end) m in
        finish (m, [])
  | ScanPulseMsg => finish (m, if loading m then [CmdScanPulse] else [])
  | DeleteResultMsg result =>
      match applyDeleteResult result m with
      | None => None
      | Some (m, cmds) => finish (setTableRows m, cmds)
      end
  | RecalcSizeMsg path size e => finish (applyRecalcResult path size e m, [])
  | KeyMsg k =>
      if active (confirm m) then finish (confirmKey k m)
      else if keyIn k ["q"; "ctrl+c"] then
        Some (set_baseCancelled true m, [CmdQuit])
      else if keyIn k ["?"; "h"] then
        finish (set_helpShowAll (negb (helpShowAll m)) m, [])
      else if keyIn k ["r"] then finish (startScan m)
      else if keyIn k ["s"] then
        let m := set_sort_mode (nextSortMode (sort_mode m)) m in
        let m := sortRows m in
        let m := setTableRows m in
        finish (set_lastEvent ("Sorted by " ++ sortModeString (sort_mode m)) m,
                [])
      else if keyIn k ["space"] then finish (toggleMark m, [])
      else if keyIn k ["a"] then finish (markAll m, [])
      else if keyIn k ["A"] then finish (clearMarks m, [])
      else if keyIn k ["D"] then finish (requestDeleteMarked m)
      else if keyIn k ["enter"; "d"] then finish (requestDeleteSelected m)
      else if keyIn k ["u"] then finish (requestRecalcSelected m)
      else if keyIn k ["c"] then
        let m := set_confirmDeletes (negb (confirmDeletes m)) m in
        finish (set_lastEvent
                  (if confirmDeletes m then "Confirm prompts enabled"
                   else "Confirm prompts disabled") m, [])
      else finish (m, [])
  end.

End Controller.

(** [strings.ToLower] on ASCII text, to run the controller on examples. *)
Definition lowerAscii (c : ascii) : ascii :=
  let n := nat_of_ascii c in
  if Nat.leb 65 n && Nat.leb n 90 then ascii_of_nat (n + 32) else c.

Fixpoint asciiToLower (s : string) : string :=
  match s with
  | EmptyString => EmptyString
  | String c rest => String (lowerAscii c) (asciiToLower rest)
  end.

(** The table widget's default keys that move the cursor by one row, to
    run the controller on examples. *)
Definition lineKeys (k : string) (cursor n : Z) : Z :=
  if keyIn k ["up"; "k"] then Z.max 0 (cursor - 1)
  else if keyIn k ["down"; "j"] then Z.min (n - 1) (cursor + 1)
  else cursor.

(** ** The runtime around the controller

    The Bubble Tea runtime delivers messages to [Update] one at a time
    and runs the commands it hands back; the message a delete command
    produces comes back as a [DeleteResultMsg]. *)

Definition deleteCmds (cmds : list Cmd) : list (bool * string) :=
  flat_map (fun c => match c with
                     | CmdDelete rootOk p => [(rootOk, p)]
                     | _ => []
                     end) cmds.

Definition isDeleteResult (msg : Msg) : bool :=
  match msg with DeleteResultMsg _ => true | _ => false end.

Section Runtime.

Variable ToLower : string -> string.
Variable tableKey : string -> Z -> Z -> Z.
Variable FS : Type.
Variable RemoveAll : FS -> string -> FS * option error.

(** Deliver the messages in order, dropping the commands. *)
Fixpoint run (m : model) (msgs : list Msg) : option model :=
  match msgs with
  | [] => Some m
  | msg :: rest =>
      match Update ToLower tableKey m msg with
      | None => None
      | Some (m', _) => run m' rest
      end
  end.

(** [Update] handed back [tea.Quit]: the runtime ends the program. *)
Definition quits (cmds : list Cmd) : bool :=
  existsb (fun c => match c with CmdQuit => true | _ => false end) cmds.

(** The quit keys of [newKeyMap]. *)
Definition isQuitKey (msg : Msg) : bool :=
  match msg with
  | KeyMsg k => keyIn k ["q"; "ctrl+c"]
  | _ => false
  end.

(** How a delivery of messages ends: all of them were delivered, or
    [Update] handed back [tea.Quit] on one of them, after which the
    program ends and nothing more is delivered. *)
Inductive delivered : Type :=
| Running (m : model)
| QuitAt (m : model).

(** Deliver messages that arrive while a deletion is in flight, up to
    the end of the program.  [None] when one of them makes [Update] hand
    back a delete command, which would be a second deletion in flight. *)
Fixpoint deliver (m : model) (msgs : list Msg) : option delivered :=
  match msgs with
  | [] => Some (Running m)
  | msg :: rest =>
      match Update ToLower tableKey m msg with
      | None => None
      | Some (m', cmds) =>
          match deleteCmds cmds with
          | [] => if quits cmds then Some (QuitAt m') else deliver m' rest
          | _ => None
          end
      end
  end.

(** How a delete queue ends: drained, with the filesystem and the
    results delivered to the controller; or stopped because the program
    was quit, with the results delivered until then.  The deletion in
    flight at that moment runs on its own and its result reaches nobody,
    so a stopped queue says nothing of the filesystem. *)
Inductive queueEnd : Type :=
| Drained (m : model) (w : World FS) (results : list deleteResult)
| Stopped (m : model) (results : list deleteResult).

(** One delete queue from its first command to its last result.  Before
    the deletion in flight completes, the controller receives the next
    burst of other messages; then the delete command runs, its result is
    delivered, and the delete command [Update] hands back, if any, is the
    next one in flight.  The results are collected in order.  When a
    message of a burst quits the program the queue stops there.  [None]
    when [Update] panics, when two deletions would be in flight, or when
    the bursts run out before the queue does. *)
Fixpoint runQueue (bursts : list (list Msg)) (m : model)
  (inflight : bool * string) (w : World FS) : option queueEnd :=
  match bursts with
  | [] => None
  | burst :: rest =>
      match deliver m burst with
      | None => None
      | Some (QuitAt m1) => Some (Stopped m1 [])
      | Some (Running m1) =>
          let '(res, w') :=
            deleteCmd RemoveAll (fst inflight) (snd inflight) w in
          match Update ToLower tableKey m1 (DeleteResultMsg res) with
          | None => None
          | Some (m2, cmds) =>
              match deleteCmds cmds with
              | [] => Some (Drained m2 w' [res])
              | [next] =>
                  match runQueue rest m2 next w' with
                  | None => None
                  | Some (Drained m3 w'' results) =>
                      Some (Drained m3 w'' (res :: results))
                  | Some (Stopped m3 results) =>
                      Some (Stopped m3 (res :: results))
                  end
              | _ => None
              end
          end
      end
  end.

(** The paths deleted one after the other, each by its own command. *)
Fixpoint deleteAll (rootOk : bool) (ps : list string) (w : World FS)
  : list deleteResult * World FS :=
  match ps with
  | [] => ([], w)
  | p :: rest =>
      let '(res, w') := deleteCmd RemoveAll rootOk p w in
      let '(results, w'') := deleteAll rootOk rest w' in
      (res :: results, w'')
  end.

End Runtime.

Arguments Drained {FS}.
Arguments Stopped {FS}.

(** The path a delete result carries for a queued path: the cleaned path,
    or the path as queued when validation refuses it. *)
Definition resultPath (p : string) : string :=
  match validateDeletePath p with
  | inl cleaned => cleaned
  | inr _ => p
  end.

(** The scan generation a message belongs to. *)
Definition msgScanID (msg : Msg) : option Z :=
  match msg with
  | ScanStreamMsg id _ | ScanRowMsg id _ | ScanProgressMsg id _ _
  | ScanFinishedMsg id _ _ _ _ _ => Some id
  | _ => None
  end.

(** What the controller does to one row, and to the row list, in one
    [Update]. *)
Inductive rowEdit : rowData -> rowData -> Prop :=
| edit_none r : rowEdit r r
| edit_mark r b : Deleted r = false -> rowEdit r (setMarked b r)
| edit_unmark r : rowEdit r (setMarked false r)
| edit_deleted r : rowEdit r (setDeletedRow r)
| edit_err r e : rowEdit r (setDeleteErr e r)
| edit_size r z : rowEdit r (setSizeBytes z r).

Inductive rowsChange (fresh : option rowData)
  : list rowData -> list rowData -> Prop :=
| rows_edited l l' : Forall2 rowEdit l l' -> rowsChange fresh l l'
| rows_permuted l l' : Permutation l l' -> rowsChange fresh l l'
| rows_appended l row : fresh = Some row -> rowsChange fresh l (l ++ [row])
| rows_cleared l : rowsChange fresh l [].

(** The row a message adds to the model: the row of a discovery message
    of the current scan generation. *)
Definition freshRow (m : model) (msg : Msg) : option rowData :=
  match msg with
  | ScanRowMsg id row => if Z.eqb id (scanID m) then Some row else None
  | _ => None
  end.

(** What one [Update] leaves in place: the row list up to [rowsChange],
    the scan options, the scan generation unless the rows are cleared,
    and, while a delete queue is active, the queue and its counters, with
    no delete command handed back. *)
Definition keepsQueue (m m' : model) (cmds : list Cmd) : Prop :=
  deleting m = true ->
  deleting m' = true /\ deleteQueue m' = deleteQueue m
  /\ deleteTotal m' = deleteTotal m /\ deleteDone m' = deleteDone m
  /\ deleteErrors m' = deleteErrors m /\ deleteCmds cmds = [].

Definition frameOK (fresh : option rowData) (m m' : model)
  (cmds : list Cmd) : Prop :=
  rowsChange fresh (rows m) (rows m')
  /\ scanOpts m' = scanOpts m
  /\ (scanID m' = scanID m \/ rows m' = [])
  /\ keepsQueue m m' cmds.

(** A discovery message as the streamer builds it: the row is neither
    marked nor deleted. *)
Definition asStreamed (msg : Msg) : Prop :=
  match msg with
  | ScanRowMsg _ row => Marked row = false /\ Deleted row = false
  | _ => True
  end.

(** The states of the controller: the initial model, and what [Update]
    makes of a state on any message. *)
Inductive reachable (ToLower : string -> string)
  (tableKey : string -> Z -> Z -> Z) : model -> Prop :=
| reach_new opts confirmDeletes :
    reachable ToLower tableKey (NewModel opts confirmDeletes)
| reach_update m msg m' cmds :
    reachable ToLower tableKey m ->
    asStreamed msg ->
    Update ToLower tableKey m msg = Some (m', cmds) ->
    reachable ToLower tableKey m'.

(** ** Measures of a directory tree *)

Definition sumZ (zs : list Z) : Z := fold_right Z.add 0 zs.

(** The bytes of all entries that are not directories under an entry,
    each at the size its [Info()] reports; a directory with the symlink
    bit counts for nothing and is not entered. *)
Fixpoint entryTotal (d : node) : Z :=
  match d with
  | Node _ isDir symlink info _ children =>
      if isDir then
        if symlink then 0 else sumZ (map entryTotal children)
      else match info with
           | inl sz => sz
           | inr _ => 0
           end
  end.

(** The same, of the regular files only: an entry that is not a
    directory and carries the symlink bit is left out. *)
Fixpoint regularTotal (d : node) : Z :=
  match d with
  | Node _ isDir symlink info _ children =>
      if isDir then
        if symlink then 0 else sumZ (map regularTotal children)
      else if symlink then 0
      else match info with
           | inl sz => sz
           | inr _ => 0
           end
  end.

(** No entry the size walk reaches fails: no [Info()] error on a file,
    no [ReadDir] error on a directory that is entered. *)
Fixpoint errorFree (d : node) : bool :=
  match d with
  | Node _ isDir symlink info readErr children =>
      if isDir then
        if symlink then true
        else match readErr with
             | Some _ => false
             | None => forallb errorFree children
             end
      else match info with
           | inl _ => true
           | inr _ => false
           end
  end.

(** The sizes are those of an int64, not negative. *)
Fixpoint sizesInRange (d : node) : bool :=
  match d with
  | Node _ _ _ info _ children =>
      match info with
      | inl sz => Z.leb 0 sz && Z.ltb sz (2 ^ 63)
      | inr _ => true
      end && forallb sizesInRange children
  end.

(** In every directory the names of the entries differ. *)
Fixpoint uniqueNames (d : node) : Prop :=
  match d with
  | Node _ _ _ _ _ children =>
      NoDup (map nName children)
      /\ fold_right (fun c acc => uniqueNames c /\ acc) True children
  end.

(** The paths of the discovery messages among [out]. *)
Definition rowPaths (out : list Msg) : list string :=
  flat_map (fun msg => match msg with
                       | ScanRowMsg _ row => [RelPath row]
                       | _ => []
                       end) out.

Definition isFinished (msg : Msg) : bool :=
  match msg with ScanFinishedMsg _ _ _ _ _ _ => true | _ => false end.

(** No path of the list is a prefix of another one. *)
Fixpoint antichain (ps : list (list string)) : Prop :=
  match ps with
  | [] => True
  | p :: rest =>
      Forall (fun q => ~ p `prefix_of` q /\ ~ q `prefix_of` p) rest
      /\ antichain rest
  end.

(** How many times a scan consults its context. *)
Definition scanTicks (ctx due : nat -> bool) (opts : ScanOptions) (id : Z)
  : nat :=
  match RootHandle opts with
  | None => 0%nat
  | Some r =>
      ssTick (snd (WalkDir (scanFn ctx due opts id) r []
                     (mkScanState [] 0 0 [] 0)))
  end.

(** No entry that is not a directory carries the symlink bit. *)
Fixpoint noSymlinkFiles (d : node) : bool :=
  match d with
  | Node _ isDir symlink _ _ children =>
      (isDir || negb symlink) && forallb noSymlinkFiles children
  end.

(** ** Example trees *)

Definition file (name : string) (size : Z) : node :=
  Node name false false (inl size) None [].

Definition dir (name : string) (children : list node) : node :=
  Node name true false (inl 4096) None children.

(** A symbolic link as [ReadDir] lists it: not a directory, the symlink
    bit set, [Info()] giving the length of the target path. *)
Definition link (name : string) (targetLength : Z) : node :=
  Node name false true (inl targetLength) None [].

(** The scenario of the specification: [proj/node_modules] with files of
    100 and 924 bytes, [proj/target] with one file of 2048 bytes. *)
Definition scenarioTree : node :=
  dir "."
    [dir "proj"
       [dir "node_modules" [file "a.js" 100; file "b.js" 924];
        dir "target" [file "app" 2048]]].

Definition scenarioOpts : ScanOptions :=
  mkScanOptions "/work" (Some scenarioTree)
    (<["node_modules" := mkTargetDef "node_modules" "node"]>
       (<["target" := mkTargetDef "target" "rust"]> ∅))
    0 {[ ".git"; ".hg"; ".svn" ]}.

(** A dependency directory with a link beside a file, as package
    managers lay them out. *)
Definition linkTree : node :=
  dir "."
    [dir "node_modules"
       [dir ".bin" [link "tool" 11]; file "index.js" 100]].

Definition neverCancelled : nat -> bool := fun _ => false.
Definition neverDue : nat -> bool := fun _ => false.

(** A tree with a directory that cannot be listed. *)
Definition lockedTree : node :=
  dir "."
    [Node "locked" true false (inl 4096) (Some ErrPermission) [];
     dir "proj" [dir "target" [file "app" 2048]]].

Definition lockedOpts : ScanOptions :=
  mkScanOptions "/work" (Some lockedTree)
    (<["target" := mkTargetDef "target" "rust"]> ∅) 0 {[ ".git" ]}.

(** The context found cancelled from its [n]-th consultation on. *)
Definition cancelledFrom (n : nat) : nat -> bool := fun k => Nat.leb n k.

(** A filesystem for the delete command: the paths that exist;
    [RemoveAll] takes the path away and does not fail. *)
Definition removePath (fs : list string) (p : string)
  : list string * option error :=
  (List.filter (fun q => negb (String.eqb q p)) fs, None).

Definition scenarioRows : list Msg :=
  [ScanRowMsg 1 (mkRow "proj/node_modules" "node_modules" "node" 1024
                   false false "");
   ScanRowMsg 1 (mkRow "proj/target" "target" "rust" 2048 false false "")].

(** The controller after the scenario's scan with confirmation on, both
    rows marked and the bulk delete requested. *)
Definition confirmingModel : model :=
  match run asciiToLower lineKeys (NewModel scenarioOpts true)
          (scenarioRows ++ [KeyMsg "a"; KeyMsg "D"]) with
  | Some m => m
  | None => NewModel scenarioOpts true
  end.

(** The controller after the scan, a mark on the first row and the
    successful deletion of that row. *)
Definition deletedModel : model :=
  match run asciiToLower lineKeys (NewModel scenarioOpts false)
          (scenarioRows ++
             [KeyMsg "space"; KeyMsg "d";
              DeleteResultMsg (mkDeleteResult "proj/node_modules" None)])
  with
  | Some m => m
  | None => NewModel scenarioOpts false
  end.

(** ** Predicates of the properties *)

(** An element of a cleaned relative path. *)
Definition plainElem (e : string) : Prop :=
  e <> "" /\ Filepath.IsAbs e = false.

(** No later element is less than an earlier one. *)
Definition ordered {A} (less : A -> A -> bool) (l : list A) : Prop :=
  StronglySorted (fun a b => less b a = false) l.

(** Neither is less than the other. *)
Definition equivalent {A} (less : A -> A -> bool) (k x : A) : bool :=
  negb (less k x) && negb (less x k).

(** Every row of the model was brought by a discovery message of the
    model's current generation. *)
Definition fromGeneration (m : model) (seen : list Msg) : Prop :=
  forall r, In r (rows m) ->
    exists row, In (ScanRowMsg (scanID m) row) seen
                /\ RelPath row = RelPath r.

Definition unmarkedIfDeleted (r : rowData) : Prop :=
  Deleted r = true -> Marked r = false.

(** Induction on a directory tree, with the property of all children at
    hand. *)
Section NodeInd.

Variable P : node -> Prop.
Hypothesis step :
  forall name isDir symlink info readErr children,
    Forall P children -> P (Node name isDir symlink info readErr children).

Fixpoint node_tree_ind (d : node) : P d :=
  match d with
  | Node name isDir symlink info readErr children =>
      step name isDir symlink info readErr children
        ((fix all (l : list node) : Forall P l :=
            match l with
            | [] => List.Forall_nil P
            | c :: l' =>
                List.Forall_cons P c l' (node_tree_ind c) (all l')
            end) children)
  end.

End NodeInd.

(** Where a call of the function happens in the tree. *)
Definition visitAt (root : node) (name : list string) (v : visit) : Prop :=
  match v with
  | VEntry d | VReadDirErr d _ => Stat root name = inl d
  | VStatErr _ => True
  end.

(** What a step tells about the context: it moves the count of
    consultations forward, and unless it ends with the cancellation
    error, the context was live at every consultation it made. *)
Definition observes {St} (tick : St -> nat) (ctx : nat -> bool)
  (s : St) (r : option walkErr) (s' : St) : Prop :=
  (tick s <= tick s')%nat
  /\ (r = Some (Fail ErrCanceled)
      \/ forall k, (tick s <= k < tick s')%nat -> ctx k = false).

(** The discovery messages a walk sends: their paths are those of
    directories of the tree under the entry walked, none of them within
    another one. *)
Definition sendsRows (root : node) (name : list string)
  (s s' : scanState) : Prop :=
  exists ps,
    rowPaths (ssOut s') = (rowPaths (ssOut s) ++ map pathString ps)%list
    /\ Forall (fun p => name `prefix_of` p
                        /\ exists d, Stat root p = inl d
                                     /\ nIsDir d = true) ps
    /\ antichain ps.


(** The state once a directory is counted as visited. *)
Definition counted (due : nat -> bool) (id : Z) (s : scanState)
  : scanState :=
  sendProgress due id false
    (mkScanState (ssWarnings s) (incr (ssVisited s)) (ssFound s) (ssOut s)
       (S (ssTick s))).


Definition isProgress (id : Z) (msg : Msg) : Prop :=
  exists v f, msg = ScanProgressMsg id v f.

(** What the walk sends: progress messages, and discovery messages
    whose rows are neither marked nor deleted. *)
Definition sentMsg (msg : Msg) : Prop :=
  asStreamed msg /\ isFinished msg = false.

(** A message of the walk is a progress message, or the discovery of a
    directory of the tree whose name is in the catalog, with the total
    of its entries as size, neither marked nor deleted. *)
Definition walkMsg (opts : ScanOptions) (id : Z) (root : node) (msg : Msg)
  : Prop :=
  match msg with
  | ScanProgressMsg i _ _ => i = id
  | ScanRowMsg i row =>
      i = id /\ Marked row = false /\ Deleted row = false
      /\ DeleteErr row = ""
      /\ exists p d def,
           RelPath row = pathString p /\ Stat root p = inl d
           /\ nIsDir d = true /\ nSymlink d = false
           /\ Targets opts !! nName d = Some def
           /\ Target row = tdName def /\ Category row = tdCategory def
           /\ SizeBytes row = wrapInt (entryTotal d)
  | _ => False
  end.

(** ** The target catalog (targets.go) *)

Definition defaultTargets : list TargetDef :=
  [
   mkTargetDef "node_modules" "node";
   mkTargetDef ".pnpm" "node";
   mkTargetDef ".pnpm-store" "node";
   mkTargetDef "pnpm-store" "node";
   mkTargetDef ".yarn" "node";
   mkTargetDef "bower_components" "node";
   mkTargetDef ".turbo" "node";
   mkTargetDef ".next" "node";
   mkTargetDef ".nuxt" "node";
   mkTargetDef ".expo" "node";
   mkTargetDef ".react-native" "node";
   mkTargetDef ".angular" "node";
   mkTargetDef ".vue" "node";
   mkTargetDef ".svelte" "node";
   mkTargetDef ".ember" "node";
   mkTargetDef ".meteor" "node";
   mkTargetDef ".express" "node";
   mkTargetDef "express" "node";
   mkTargetDef ".koa" "node";
   mkTargetDef "koa" "node";
   mkTargetDef ".hapi" "node";
   mkTargetDef "hapi" "node";
   mkTargetDef ".sails.js" "node";
   mkTargetDef "sails.js" "node";
   mkTargetDef ".loopback" "node";
   mkTargetDef "loopback" "node";
   mkTargetDef ".adonisjs" "node";
   mkTargetDef "adonisjs" "node";
   mkTargetDef ".nestjs" "node";
   mkTargetDef "nestjs" "node";
   mkTargetDef ".feathersjs" "node";
   mkTargetDef "feathersjs" "node";
   mkTargetDef "target" "rust";
   mkTargetDef ".cargo" "rust";
   mkTargetDef ".venv" "python";
   mkTargetDef "venv" "python";
   mkTargetDef "env" "python";
   mkTargetDef ".virtualenvs" "python";
   mkTargetDef "__pycache__" "python";
   mkTargetDef ".pytest_cache" "python";
   mkTargetDef ".mypy_cache" "python";
   mkTargetDef ".ruff_cache" "python";
   mkTargetDef ".tox" "python";
   mkTargetDef ".pip" "python";
   mkTargetDef ".pipenv" "python";
   mkTargetDef ".poetry" "python";
   mkTargetDef ".django" "python";
   mkTargetDef ".flask" "python";
   mkTargetDef ".gradle" "java";
   mkTargetDef ".m2" "java";
   mkTargetDef ".ivy2" "java";
   mkTargetDef ".nuget" "dotnet";
   mkTargetDef ".pub-cache" "dart";
   mkTargetDef ".dart_tool" "dart";
   mkTargetDef ".gem" "ruby";
   mkTargetDef ".rails" "ruby";
   mkTargetDef ".laravel" "php";
   mkTargetDef ".symfony" "php";
   mkTargetDef ".yii" "php";
   mkTargetDef ".codeigniter" "php";
   mkTargetDef ".cakephp" "php";
   mkTargetDef ".zend" "php";
   mkTargetDef ".phalcon" "php";
   mkTargetDef ".slim" "php";
   mkTargetDef ".fuelphp" "php";
   mkTargetDef ".lumen" "php";
   mkTargetDef ".silex" "php";
   mkTargetDef "vendor" "go";
   mkTargetDef ".cache" "build";
   mkTargetDef "dist" "build";
   mkTargetDef "build" "build";
   mkTargetDef "out" "build";
   mkTargetDef "coverage" "build"
  ].

(** [buildTargetMapWithList]: the defaults, then the included names as
    custom targets, then the excluded names deleted. *)
Definition addDefault (targets : gmap string TargetDef) (def : TargetDef)
  : gmap string TargetDef :=
  <[tdName def := def]> targets.

Definition addInclude (targets : gmap string TargetDef) (name : string)
  : gmap string TargetDef :=
  if String.eqb name "" then targets
  else <[name := mkTargetDef name "custom"]> targets.

Definition dropExclude (targets : gmap string TargetDef) (name : string)
  : gmap string TargetDef :=
  delete name targets.

Definition buildTargetMapWithList (includes excludes : list string)
  : gmap string TargetDef :=
  let targets := fold_left addDefault defaultTargets ∅ in
  let targets := fold_left addInclude includes targets in
  fold_left dropExclude excludes targets.

(** [strings.Split(raw, ",")] *)
Fixpoint splitComma (s : string) : list string :=
  match s with
  | EmptyString => [EmptyString]
  | String c s' =>
      if Ascii.eqb c ","%char then EmptyString :: splitComma s'
      else match splitComma s' with
           | h :: t => String c h :: t
           | [] => [String c EmptyString]
           end
  end.

(** [strings.Join(items, ",")] *)
Fixpoint joinComma (items : list string) : string :=
  match items with
  | [] => EmptyString
  | [e] => e
  | e :: rest => e ++ "," ++ joinComma rest
  end.

(** No comma in the string. *)
Fixpoint noComma (s : string) : bool :=
  match s with
  | EmptyString => true
  | String c rest => negb (Ascii.eqb c ","%char) && noComma rest
  end.

Section ParseTargets.

(** [strings.TrimSpace] *)
Variable TrimSpace : string -> string.

Definition parseTargetList (raw : string) : list string :=
  if String.eqb raw "" then []
  else
    List.filter (fun item => negb (String.eqb item ""))
      (map TrimSpace (splitComma raw)).

Definition buildTargetMap (includeRaw excludeRaw : string)
  : gmap string TargetDef :=
  buildTargetMapWithList (parseTargetList includeRaw)
    (parseTargetList excludeRaw).

End ParseTargets.

(** [sort.Strings]: the strings in ascending order. *)
Definition sortStrings (names : list string) : list string :=
  sliceStable String.ltb names.

(** [sortedTargetNames]: the keys, in the order the map hands them out,
    then sorted. *)
Definition sortedTargetNames (targets : gmap string TargetDef)
  : list string :=
  sortStrings (map fst (map_to_list targets)).

(** ** Configuration (config.go) *)

Record Config : Type := mkConfig {
  cfgInclude : list string;
  cfgExclude : list string;
  cfgDepth : Z;
  cfgSkip : list string;
  cfgConfirm : option bool
}.

(** [mergeSkipDirs]; [None] is the nil map. *)
Definition addSkip (base : gset string) (item : string) : gset string :=
  if String.eqb item "" then base else {[ item ]} ∪ base.

Definition mergeSkipDirs (base : option (gset string)) (extra : list string)
  : option (gset string) :=
  match extra with
  | [] => base
  | _ =>
      Some (fold_left addSkip extra
              (match base with Some b => b | None => ∅ end))
  end.

(** Reading a map that may be nil. *)
Definition skipSet (skip : option (gset string)) : gset string :=
  match skip with Some b => b | None => ∅ end.

Definition defaultSkipDirs : option (gset string) :=
  Some {[ ".git"; ".hg"; ".svn" ]}.

Definition normalizeConfig (cfg : Config) : Config + error :=
  if Z.ltb (cfgDepth cfg) 0 then
    inr (ErrOther "config: depth must be >= 0")
  else inl cfg.

(** ** The remaining methods of the model (model.go) *)

(** [stats]: the bytes of the rows not deleted, the number of marked
    rows, the number of deleted rows. *)
Definition statsStep (acc : Z * Z * Z) (row : rowData) : Z * Z * Z :=
  let '(total, queued, deleted) := acc in
  (if negb (Deleted row) then wrapInt (total + SizeBytes row) else total,
   if Marked row then incr queued else queued,
   if Deleted row then incr deleted else deleted).

Definition stats (m : model) : Z * Z * Z :=
  fold_left statsStep (rows m) (0, 0, 0).

(** ** The runtime reading a scan's channel

    [waitScanMsg(ch)] reads the next message of the channel; the runtime
    runs it when [Update] has handed it back.  [pending] counts the wait
    commands not yet served; a message is read only when one is pending,
    otherwise the rest of the channel stays unread. *)
Definition waitCmds (cmds : list Cmd) : list nat :=
  flat_map (fun c => match c with
                     | CmdWaitScan ch => [ch]
                     | _ => []
                     end) cmds.

Section Pump.

Variable ToLower : string -> string.
Variable tableKey : string -> Z -> Z -> Z.

Fixpoint pump (m : model) (pending : nat) (chan : list Msg)
  : option (model * nat * list Msg) :=
  match chan with
  | [] => Some (m, pending, [])
  | msg :: rest =>
      match pending with
      | O => Some (m, O, chan)
      | S p =>
          match Update ToLower tableKey m msg with
          | None => None
          | Some (m', cmds) =>
              pump m' (p + length (waitCmds cmds)) rest
          end
      end
  end.

End Pump.

(** The rows of the discovery messages among [out]. *)
Definition rowsOf (out : list Msg) : list rowData :=
  flat_map (fun msg => match msg with
                       | ScanRowMsg _ row => [row]
                       | _ => []
                       end) out.

(** A message of a scan's channel before the completion message. *)
Definition streamMsg (id : Z) (msg : Msg) : Prop :=
  match msg with
  | ScanRowMsg i _ | ScanProgressMsg i _ _ => i = id
  | _ => False
  end.

(** A name as a directory listing has it: not empty, not "." or "..",
    without a separator. *)
Fixpoint noSlash (s : string) : bool :=
  match s with
  | EmptyString => true
  | String c rest => negb (Filepath.isSep c) && noSlash rest
  end.

Definition plainName (n : string) : bool :=
  negb (String.eqb n "") && negb (String.eqb n ".")
  && negb (String.eqb n "..") && noSlash n.

(** [strings.TrimSpace] on ASCII text, to run the parser on examples. *)
Definition isAsciiSpace (c : ascii) : bool :=
  let n := nat_of_ascii c in
  Nat.eqb n 32 || (Nat.leb 9 n && Nat.leb n 13).

Fixpoint trimLeft (s : string) : string :=
  match s with
  | String c rest => if isAsciiSpace c then trimLeft rest else s
  | EmptyString => EmptyString
  end.

Fixpoint trimRight (s : string) : string :=
  match s with
  | EmptyString => EmptyString
  | String c rest =>
      match trimRight rest with
      | EmptyString => if isAsciiSpace c then EmptyString
                       else String c EmptyString
      | r => String c r
      end
  end.

Definition asciiTrimSpace (s : string) : string := trimRight (trimLeft s).

(** The scan does not go into the directory: its name is in the skip
    set, it carries the symlink bit, or a maximum depth is set and the
    directory lies deeper. *)
Definition pruned (opts : ScanOptions) (path : list string) (d : node)
  : Prop :=
  nName d ∈ SkipDirs opts \/ nSymlink d = true
  \/ Z.ltb 0 (MaxDepth opts)
     && Z.ltb (MaxDepth opts) (relativeDepth (pathString path)) = true.

(** Every entry below the root has a name as a directory listing gives
    it. *)
Fixpoint plainTree (d : node) : bool :=
  match d with
  | Node _ _ _ _ _ children =>
      forallb (fun c => plainName (nName c) && plainTree c) children
  end.

(** The count of found directories is the number of discovery messages
    sent, as a Go int. *)
Definition foundCount (s : scanState) : Prop :=
  ssFound s = wrapInt (len (rowsOf (ssOut s))).

(** A repository directory with a dependency directory inside, and the
    controller once the stream of its first scan has arrived. *)
Definition gitDir : node :=
  dir ".git" [dir "node_modules" [file "pack" 5]].

Definition streamingModel : model :=
  set_scanStream (Some 0%nat) (NewModel scenarioOpts false).

(** ** The size recalculation (model.go)

    The elements of a slash-separated path of the root's file system;
    "." is the root itself. *)
Definition pathElems (relPath : string) : list string :=
  if String.eqb relPath "." then [] else Filepath.splitSlash relPath.

(** The closure returned by [recalcSizeCmd(ctx, root, relPath)], run at
    consultation count [t] of the context. *)
Definition recalcSizeCmd (ctx : nat -> bool) (root : option node)
  (relPath : string) (t : nat) : Msg * nat :=
  let '(res, t') := dirSize ctx root (pathElems relPath) t in
  match res with
  | inl size => (RecalcSizeMsg relPath size None, t')
  | inr e => (RecalcSizeMsg relPath 0 (Some e), t')
  end.

(** A discovery message carries the path of a directory of the tree
    whose size walk meets no error, and the total of its entries. *)
Definition sizedMsg (root : node) (msg : Msg) : Prop :=
  match msg with
  | ScanRowMsg _ row =>
      exists p d,
        RelPath row = pathString p /\ Stat root p = inl d
        /\ errorFree d = true /\ SizeBytes row = wrapInt (entryTotal d)
  | _ => True
  end.

(** ** The options [main] assembles (package main)

    A string or int flag of the command line is [None] when it was not
    set. *)
Record Flags : Type := mkFlags {
  flInclude : option string;
  flExclude : option string;
  flDepth : option Z;
  flNoConfirm : bool
}.

(** The scan options and the confirmation setting that [main] hands to
    [NewModel], from the configuration (the zero [Config] when no file
    was found) and the flags. *)
Definition mainOptions (TrimSpace : string -> string) (config : Config)
  (flags : Flags) (absRoot : string) (rootHandle : option node)
  : ScanOptions * bool :=
  let includes := cfgInclude config in
  let excludes := cfgExclude config in
  let depth := cfgDepth config in
  let confirmDeletes :=
    match cfgConfirm config with Some b => b | None => true end in
  let confirmDeletes := if flNoConfirm flags then false else confirmDeletes in
  let includes :=
    match flInclude flags with
    | Some raw => parseTargetList TrimSpace raw
    | None => includes
    end in
  let excludes :=
    match flExclude flags with
    | Some raw => parseTargetList TrimSpace raw
    | None => excludes
    end in
  let depth := match flDepth flags with Some d => d | None => depth end in
  let skip := mergeSkipDirs defaultSkipDirs (cfgSkip config) in
  let targets := buildTargetMapWithList includes excludes in
  (mkScanOptions absRoot rootHandle targets depth (skipSet skip),
   confirmDeletes).

(** The controller after the scenario's scan with confirmation on and
    both rows marked. *)
Definition markedModel : model :=
  match run asciiToLower lineKeys (NewModel scenarioOpts true)
          (scenarioRows ++ [KeyMsg "a"]) with
  | Some m => m
  | None => NewModel scenarioOpts true
  end.

(** * Properties *)

(** ** PathGuard *)

Module PathGuard.
Import Filepath.

Lemma splitSlash_not_abs (s : string) :
  Forall (fun e => IsAbs e = false) (splitSlash s).
Proof.
  induction s as [|c s IH]; simpl.
  - repeat constructor.
  - destruct (isSep c) eqn:Hc.
    + constructor; [reflexivity | exact IH].
    + destruct (splitSlash s) as [|h t]; inversion IH; subst;
        constructor; simpl; auto.
Qed.

Lemma cleanElem_plain (rooted : bool) (out : list string) (e : string) :
  IsAbs e = false -> Forall plainElem out ->
  Forall plainElem (cleanElem rooted out e).
Proof.
  intros He Hout. unfold cleanElem.
  destruct (String.eqb e "") eqn:E0; [exact Hout|].
  destruct (String.eqb e ".") eqn:E1; [exact Hout|].
  destruct (String.eqb e "..") eqn:E2.
  - destruct out as [|top rest].
    + destruct rooted; repeat constructor; discriminate.
    + destruct (String.eqb top "..").
      * constructor; [split; [discriminate | reflexivity] | exact Hout].
      * inversion Hout; assumption.
  - constructor; [|exact Hout]. split; [|exact He].
    intros ->. discriminate.
Qed.

Lemma fold_cleanElem_plain (rooted : bool) (elems out : list string) :
  Forall (fun e => IsAbs e = false) elems -> Forall plainElem out ->
  Forall plainElem (fold_left (cleanElem rooted) elems out).
Proof.
  revert out. induction elems as [|e elems IH]; intros out He Hout; simpl.
  - exact Hout.
  - inversion He; subst. apply IH; [assumption|].
    apply cleanElem_plain; assumption.
Qed.

Lemma joinSlash_not_abs (l : list string) :
  Forall plainElem l -> IsAbs (joinSlash l) = false.
Proof.
  intros H. destruct l as [|e l]; [reflexivity|].
  inversion H as [|? ? [Hne Habs] _]; subst.
  destruct e as [|c e]; [congruence|].
  destruct l; simpl in *; exact Habs.
Qed.

(** [Clean] keeps a rooted path rooted and a relative path relative. *)
Lemma Clean_IsAbs (path : string) :
  path <> "" -> IsAbs (Clean path) = IsAbs path.
Proof.
  intros Hne. unfold Clean.
  destruct (String.eqb_spec path ""); [congruence|].
  destruct (IsAbs path) eqn:Habs; [reflexivity|].
  match goal with |- context [joinSlash ?l] =>
    assert (Hj : IsAbs (joinSlash l) = false) end.
  { apply joinSlash_not_abs. apply Forall_rev.
    apply fold_cleanElem_plain; [apply splitSlash_not_abs | constructor]. }
  destruct (String.eqb _ ""); [reflexivity | exact Hj].
Qed.

Section Delete.

Variable FS : Type.
Variable RemoveAll : FS -> string -> FS * option error.

(** C1.  [validateDeletePath] returns the cleaned path, which is not
    absolute, or fails; it fails exactly when the path is empty, or
    cleaning it gives "." or the separator, or the path is absolute; and
    when it fails, [deleteCmd] answers with a failure result for the path
    as given and leaves the world as it was: no [RemoveAll] call is
    logged. *)
Theorem validateDeletePath_guard (relPath : string) :
  ((validateDeletePath relPath = inl (Clean relPath)
    /\ IsAbs (Clean relPath) = false)
   \/ exists e, validateDeletePath relPath = inr e)
  /\ ((exists e, validateDeletePath relPath = inr e) <->
      (relPath = "" \/ Clean relPath = "." \/ Clean relPath = Separator
       \/ IsAbs relPath = true))
  /\ (forall e rootOk (w : World FS),
        validateDeletePath relPath = inr e ->
        deleteCmd RemoveAll rootOk relPath w
          = (mkDeleteResult relPath (Some e), w)
        /\ wCalls (snd (deleteCmd RemoveAll rootOk relPath w)) = wCalls w).
Proof.
  assert (Hiff : (exists e, validateDeletePath relPath = inr e) <->
      (relPath = "" \/ Clean relPath = "." \/ Clean relPath = Separator
       \/ IsAbs relPath = true)).
  { unfold validateDeletePath.
    destruct (String.eqb_spec relPath "") as [->|Hne].
    { split; eauto. }
    rewrite <- (Clean_IsAbs relPath Hne).
    destruct (String.eqb_spec (Clean relPath) ".") as [H1|H1]; simpl.
    { split; eauto. }
    destruct (String.eqb_spec (Clean relPath) Separator) as [H2|H2]; simpl.
    { split; eauto. }
    destruct (IsAbs (Clean relPath)) eqn:H3.
    { split; eauto. }
    split.
    - intros [e He]. discriminate.
    - intros [?|[?|[?|?]]]; congruence. }
  split; [|split; [exact Hiff|]].
  - unfold validateDeletePath.
    destruct (String.eqb relPath ""); [right; eauto|].
    destruct (String.eqb (Clean relPath) "." || String.eqb (Clean relPath) Separator);
      [right; eauto|].
    destruct (IsAbs (Clean relPath)) eqn:H3; [right; eauto|].
    left. split; reflexivity.
  - intros e rootOk w He. unfold deleteCmd. rewrite He. split; reflexivity.
Qed.

End Delete.

Example clean_examples :
  map Clean ["a//b"; "a/./b/.."; "../x"; "/etc"; "//"; "a/.."; "/../a";
             "x/../../y"]
  = ["a/b"; "a"; "../x"; "/etc"; "/"; "."; "/a"; "../y"].
Proof. reflexivity. Qed.

Example validate_examples :
  map validateDeletePath [""; "."; "/etc"; "a/.."; "proj/node_modules"]
  = [inr (ErrOther "delete: empty path");
     inr (ErrOther "delete: refusing to delete root");
     inr (ErrOther "delete: absolute paths are not allowed");
     inr (ErrOther "delete: refusing to delete root");
     inl "proj/node_modules"].
Proof. reflexivity. Qed.

End PathGuard.

(** ** Sorting *)

Module Sorting.

Lemma compare_OT (a b : string) :
  String.compare a b = String_as_OT.compare a b.
Proof. revert b; induction a; destruct b; simpl; auto. Qed.

Lemma ltb_lt (a b : string) :
  String.ltb a b = true <-> String_as_OT.lt a b.
Proof.
  unfold String.ltb, String_as_OT.lt. rewrite compare_OT.
  destruct (String_as_OT.compare a b); split; congruence.
Qed.

Lemma ltb_irrefl (a : string) : String.ltb a a = false.
Proof.
  destruct (String.ltb a a) eqn:E; [|reflexivity].
  apply ltb_lt in E. exfalso.
  exact (StrictOrder_Irreflexive (R := String_as_OT.lt) a E).
Qed.

Lemma ltb_trans (a b c : string) :
  String.ltb a b = true -> String.ltb b c = true -> String.ltb a c = true.
Proof.
  rewrite !ltb_lt. apply (StrictOrder_Transitive (R := String_as_OT.lt)).
Qed.

Lemma ltb_negtrans (a b c : string) :
  String.ltb a c = true -> String.ltb a b = true \/ String.ltb b c = true.
Proof.
  intros Hac.
  destruct (String_as_OT.compare_spec a b) as [Heq|Hlt|Hgt].
  - right. unfold String_as_OT.eq in Heq. subst; exact Hac.
  - left. apply ltb_lt; exact Hlt.
  - right. apply ltb_lt in Hac. apply ltb_lt.
    exact (StrictOrder_Transitive (R := String_as_OT.lt) _ _ _ Hgt Hac).
Qed.

(** *** Stable insertion sort over a strict weak order *)

Section Stable.

Context {A : Type}.
Variable less : A -> A -> bool.
Hypothesis less_irrefl : forall x, less x x = false.
Hypothesis less_trans :
  forall x y z, less x y = true -> less y z = true -> less x z = true.
Hypothesis less_negtrans :
  forall x y z, less x z = true -> less x y = true \/ less y z = true.

Lemma less_asym (x y : A) : less x y = true -> less y x = false.
Proof.
  intros H. destruct (less y x) eqn:E; [|reflexivity].
  rewrite <- (less_irrefl x). symmetry. eapply less_trans; eassumption.
Qed.

Lemma insertStable_perm (x : A) (l : list A) :
  Permutation (insertStable less x l) (x :: l).
Proof.
  induction l as [|y l IH]; simpl; [reflexivity|].
  destruct (less y x); [|reflexivity].
  rewrite IH. apply perm_swap.
Qed.

Lemma sliceStable_perm (l : list A) : Permutation (sliceStable less l) l.
Proof.
  induction l as [|x l IH]; simpl; [reflexivity|].
  rewrite insertStable_perm. constructor. exact IH.
Qed.

Lemma insertStable_Forall (P : A -> Prop) (x : A) (l : list A) :
  P x -> Forall P l -> Forall P (insertStable less x l).
Proof.
  intros Hx Hl. induction Hl as [|y l Hy Hl IH]; simpl.
  - constructor; [exact Hx | constructor].
  - destruct (less y x); constructor; auto.
Qed.

Lemma insertStable_ordered (x : A) (l : list A) :
  ordered less l -> ordered less (insertStable less x l).
Proof.
  unfold ordered. induction 1 as [|y l Hl IH Hy]; simpl.
  - repeat constructor.
  - destruct (less y x) eqn:E.
    + constructor; [exact IH|].
      apply insertStable_Forall; [apply less_asym; exact E | exact Hy].
    + constructor; [constructor; assumption|].
      constructor; [exact E|].
      eapply Forall_impl; [exact Hy|]. intros z Hz. simpl in Hz.
      destruct (less z x) eqn:Ezx; [|reflexivity].
      destruct (less_negtrans z y x Ezx); congruence.
Qed.

Lemma sliceStable_ordered (l : list A) : ordered less (sliceStable less l).
Proof.
  induction l as [|x l IH]; simpl; [constructor|].
  apply insertStable_ordered; exact IH.
Qed.

Lemma sliceStable_of_ordered (l : list A) :
  ordered less l -> sliceStable less l = l.
Proof.
  unfold ordered. induction 1 as [|x l Hl IH Hx]; simpl; [reflexivity|].
  rewrite IH. destruct l as [|y l']; [reflexivity|]. simpl.
  inversion Hx as [|? ? Hy _]; subst. rewrite Hy. reflexivity.
Qed.

Lemma sliceStable_idem (l : list A) :
  sliceStable less (sliceStable less l) = sliceStable less l.
Proof. apply sliceStable_of_ordered, sliceStable_ordered. Qed.

Lemma insertStable_filter (k x : A) (l : list A) :
  List.filter (equivalent less k) (insertStable less x l)
  = List.filter (equivalent less k) (x :: l).
Proof.
  induction l as [|y l IH]; [reflexivity|].
  cbn [insertStable]. destruct (less y x) eqn:E; [|reflexivity].
  cbn [List.filter] in *. rewrite IH.
  destruct (equivalent less k x) eqn:Ex; [|reflexivity].
  assert (Ey : equivalent less k y = false).
  { unfold equivalent in *. apply andb_true_iff in Ex as [Ekx _].
    apply negb_true_iff in Ekx.
    destruct (less_negtrans y k x E) as [H|H]; [|congruence].
    rewrite H. apply andb_false_r. }
  rewrite Ey. reflexivity.
Qed.

(** Stability: the elements of one equivalence class keep the order they
    had in the input. *)
Lemma sliceStable_stable (k : A) (l : list A) :
  List.filter (equivalent less k) (sliceStable less l)
  = List.filter (equivalent less k) l.
Proof.
  induction l as [|x l IH]; [reflexivity|].
  cbn [sliceStable]. rewrite insertStable_filter.
  cbn [List.filter]. rewrite IH. reflexivity.
Qed.

End Stable.

(** *** The order of [sortRows] *)

Section Rows.

Variable ToLower : string -> string.

Ltac split_sizes :=
  rewrite ?Z.gtb_ltb in *;
  repeat match goal with
    | H : context [Z.eqb ?a ?b] |- _ => destruct (Z.eqb_spec a b)
    | |- context [Z.eqb ?a ?b] => destruct (Z.eqb_spec a b)
    end;
  repeat match goal with
    | H : Z.ltb _ _ = true |- _ => apply Z.ltb_lt in H
    | H : Z.ltb _ _ = false |- _ => apply Z.ltb_ge in H
    end;
  rewrite ?Z.ltb_lt, ?Z.ltb_ge.

Lemma rowLess_irrefl (mode : sortMode) (x : rowData) :
  rowLess ToLower mode x x = false.
Proof.
  unfold rowLess. rewrite Bool.eqb_reflx. simpl.
  destruct mode; rewrite Z.eqb_refl || idtac; apply ltb_irrefl.
Qed.

Lemma rowLess_trans (mode : sortMode) (x y z : rowData) :
  rowLess ToLower mode x y = true -> rowLess ToLower mode y z = true ->
  rowLess ToLower mode x z = true.
Proof.
  unfold rowLess.
  destruct (Deleted x), (Deleted y), (Deleted z); simpl;
    try congruence; destruct mode; intros Hxy Hyz;
    try (eapply ltb_trans; eassumption);
    split_sizes; try lia; try congruence;
    eapply ltb_trans; eassumption.
Qed.

Lemma rowLess_negtrans (mode : sortMode) (x y z : rowData) :
  rowLess ToLower mode x z = true ->
  rowLess ToLower mode x y = true \/ rowLess ToLower mode y z = true.
Proof.
  unfold rowLess.
  destruct (Deleted x), (Deleted y), (Deleted z); simpl;
    try congruence; auto; destruct mode; intros Hxz;
    try (apply ltb_negtrans; exact Hxz);
    split_sizes; try lia; try congruence; auto;
    try (apply ltb_negtrans; exact Hxz).
Qed.

End Rows.

Lemma StronglySorted_weaken {A} (R R' : A -> A -> Prop) (l : list A) :
  (forall a b, R a b -> R' a b) -> StronglySorted R l -> StronglySorted R' l.
Proof.
  intros HR. induction 1 as [|x l Hl IH Hx]; constructor; [exact IH|].
  eapply Forall_impl; [exact Hx|]. intros b Hb. apply HR, Hb.
Qed.

Section SortRows.

Variable ToLower : string -> string.

(** C8.  [sortRows] rearranges the rows into the order of the current
    mode; it is stable (rows the mode does not tell apart keep their
    order) and idempotent; no deleted row comes before a row that is not
    deleted, whatever the mode; under the two size modes rows of equal
    size and equal deleted flag come in the order of their lower-cased
    paths; and [nextSortMode] cycles size-descending, size-ascending,
    name-ascending. *)
Theorem sortRows_stable_idempotent (m : model) :
  let less := rowLess ToLower (sort_mode m) in
  let sorted := rows (sortRows ToLower m) in
  Permutation sorted (rows m)
  /\ ordered less sorted
  /\ (forall k, List.filter (equivalent less k) sorted
                = List.filter (equivalent less k) (rows m))
  /\ sortRows ToLower (sortRows ToLower m) = sortRows ToLower m
  /\ StronglySorted (fun a b => Deleted a = true -> Deleted b = true) sorted
  /\ match sort_mode m with
     | sortByNameAsc =>
         StronglySorted
           (fun a b => Deleted a = Deleted b ->
              String.ltb (ToLower (RelPath b)) (ToLower (RelPath a)) = false)
           sorted
     | _ =>
         StronglySorted
           (fun a b => Deleted a = Deleted b -> SizeBytes a = SizeBytes b ->
              String.ltb (ToLower (RelPath b)) (ToLower (RelPath a)) = false)
           sorted
     end
  /\ nextSortMode sortBySizeDesc = sortBySizeAsc
  /\ nextSortMode sortBySizeAsc = sortByNameAsc
  /\ nextSortMode sortByNameAsc = sortBySizeDesc.
Proof.
  intros less sorted.
  assert (Hord : ordered less sorted).
  { apply sliceStable_ordered.
    - apply rowLess_irrefl.
    - apply rowLess_trans.
    - apply rowLess_negtrans. }
  split; [apply sliceStable_perm|].
  split; [exact Hord|].
  split; [intros k; apply sliceStable_stable, rowLess_negtrans|].
  split.
  { unfold sortRows at 1. unfold set_rows at 1.
    replace (sliceStable _ (rows (sortRows ToLower m))) with sorted;
      [reflexivity|].
    symmetry. apply sliceStable_of_ordered. exact Hord. }
  split.
  { eapply StronglySorted_weaken; [|exact Hord].
    intros a b Hba Ha. subst less. unfold rowLess in Hba.
    rewrite Ha in Hba. destruct (Deleted b); [reflexivity|discriminate]. }
  split; [|repeat split].
  subst less.
  destruct (sort_mode m);
    (eapply StronglySorted_weaken; [|exact Hord]);
    unfold rowLess; intros a b Hba; intros;
    repeat match goal with
      | H : Deleted _ = Deleted _ |- _ =>
          rewrite H, Bool.eqb_reflx in Hba; clear H
      | H : SizeBytes _ = SizeBytes _ |- _ =>
          rewrite H, Z.eqb_refl in Hba; clear H
      end; exact Hba.
Qed.

End SortRows.

(** The scenario of the specification: two rows of 1024 and 2048 bytes;
    size-descending puts the larger first. *)
Example sort_scenario :
  map RelPath
    (sliceStable (rowLess asciiToLower sortBySizeDesc)
       [mkRow "proj/node_modules" "node_modules" "node" 1024 false false "";
        mkRow "proj/target" "target" "rust" 2048 false false ""])
  = ["proj/target"; "proj/node_modules"].
Proof. reflexivity. Qed.

Example sort_deleted_last :
  map RelPath
    (sliceStable (rowLess asciiToLower sortBySizeAsc)
       [mkRow "b" "t" "c" 7 false true ""; mkRow "B" "t" "c" 9 false false "";
        mkRow "a" "t" "c" 9 false false ""; mkRow "c" "t" "c" 1 false true ""])
  = ["a"; "B"; "c"; "b"].
Proof. reflexivity. Qed.

End Sorting.

(** ** ReactiveController *)

Module Controller.

Lemma rowEdit_all (l : list rowData) : Forall2 rowEdit l l.
Proof. induction l; constructor; [apply edit_none | assumption]. Qed.

Lemma rowEdit_map (f : rowData -> rowData) (l : list rowData) :
  (forall r, rowEdit r (f r)) -> Forall2 rowEdit l (map f l).
Proof. intros Hf. induction l; simpl; constructor; auto. Qed.

Lemma rowEdit_alter (f : rowData -> rowData) (i : nat) (l : list rowData) :
  (forall r, rowEdit r (f r)) -> Forall2 rowEdit l (alter f i l).
Proof.
  intros Hf. revert i. induction l as [|r l IH]; intros [|i]; simpl;
    constructor; auto using rowEdit_all, edit_none. apply IH.
Qed.

Lemma rowEdit_insert (i : nat) (r r' : rowData) (l : list rowData) :
  l !! i = Some r -> rowEdit r r' -> Forall2 rowEdit l (<[i := r']> l).
Proof.
  revert i. induction l as [|x l IH]; intros [|i] Hl He; simpl in *;
    try discriminate.
  - injection Hl as ->. constructor; [exact He | apply rowEdit_all].
  - constructor; [apply edit_none | eapply IH; eassumption].
Qed.

Lemma rows_same (fresh : option rowData) (l : list rowData) :
  rowsChange fresh l l.
Proof. apply rows_edited, rowEdit_all. Qed.

Lemma deleteCmds_app (a b : list Cmd) :
  deleteCmds (a ++ b) = (deleteCmds a ++ deleteCmds b)%list.
Proof. apply flat_map_app. Qed.

Section Handlers.

Variable ToLower : string -> string.
Variable tableKey : string -> Z -> Z -> Z.

Local Abbreviation Upd := (Update ToLower tableKey).
Local Abbreviation tabUpd := (tableUpdate tableKey).
Local Abbreviation after := (afterSwitch tableKey).

Lemma rows_setTableRows (m : model) : rows (setTableRows m) = rows m.
Proof. unfold setTableRows. destruct (Z.ltb _ _); reflexivity. Qed.

Lemma frame_refl (fresh : option rowData) (m : model) :
  frameOK fresh m m [].
Proof.
  split; [apply rows_same|]. split; [reflexivity|]. split; [auto|].
  intros H. repeat split; auto.
Qed.

(** A handler that edits the rows and hands back commands without a
    delete command stays within the frame when the remaining fields of
    the frame are untouched. *)
Lemma frame_intro (fresh : option rowData) (m m' : model) (cmds : list Cmd) :
  rowsChange fresh (rows m) (rows m') ->
  scanOpts m' = scanOpts m ->
  scanID m' = scanID m ->
  deleting m' = deleting m -> deleteQueue m' = deleteQueue m ->
  deleteTotal m' = deleteTotal m -> deleteDone m' = deleteDone m ->
  deleteErrors m' = deleteErrors m ->
  deleteCmds cmds = [] ->
  frameOK fresh m m' cmds.
Proof.
  intros Hr Ho Hs Hd Hq Ht Hn He Hc. split; [exact Hr|]. split; [exact Ho|].
  split; [left; exact Hs|]. intros H. rewrite Hd. repeat split; auto.
Qed.

Lemma frame_setTableRows (fresh : option rowData) (m m' : model)
  (cmds : list Cmd) :
  frameOK fresh m m' cmds -> frameOK fresh m (setTableRows m') cmds.
Proof.
  unfold setTableRows. destruct (Z.ltb _ _); [|auto].
  intros H. exact H.
Qed.

Lemma frame_set_lastEvent (fresh : option rowData) (v : string)
  (m m' : model) (cmds : list Cmd) :
  frameOK fresh m m' cmds -> frameOK fresh m (set_lastEvent v m') cmds.
Proof. intros H. exact H. Qed.

Lemma deleteCmds_wait (o : option nat) :
  deleteCmds match o with Some ch => [CmdWaitScan ch] | None => [] end = [].
Proof. destruct o; reflexivity. Qed.

Lemma frame_toggleMark (fresh : option rowData) (m : model) :
  frameOK fresh m (toggleMark m) [].
Proof.
  unfold toggleMark.
  destruct (cursorIndex m) as [idx|]; [|apply frame_refl].
  destruct (rows m !! idx) as [r|] eqn:Hr; [|apply frame_refl].
  destruct (Deleted r) eqn:Hd; [apply frame_refl|].
  apply frame_setTableRows, frame_intro; cbn; auto.
  apply rows_edited. eapply rowEdit_insert; [exact Hr|].
  apply edit_mark, Hd.
Qed.

Lemma rowEdit_markRow (r : rowData) : rowEdit r (markRow r).
Proof.
  unfold markRow. destruct (Deleted r) eqn:Hd; [apply edit_none|].
  destruct (negb (Marked r)); [apply edit_mark, Hd | apply edit_none].
Qed.

Lemma rowEdit_unmarkRow (r : rowData) : rowEdit r (unmarkRow r).
Proof.
  unfold unmarkRow. destruct (Marked r); [apply edit_unmark | apply edit_none].
Qed.

Lemma frame_markAll (fresh : option rowData) (m : model) :
  frameOK fresh m (markAll m) [].
Proof.
  unfold markAll. destruct (rows m) as [|r0 l] eqn:Hrows; [apply frame_refl|].
  apply frame_setTableRows, frame_intro; cbn; auto.
  rewrite Hrows. apply rows_edited, (rowEdit_map markRow (r0 :: l)),
    rowEdit_markRow.
Qed.

Lemma frame_clearMarks (fresh : option rowData) (m : model) :
  frameOK fresh m (clearMarks m) [].
Proof.
  unfold clearMarks. destruct (rows m) as [|r0 l] eqn:Hrows;
    [apply frame_refl|].
  apply frame_setTableRows, frame_intro; cbn; auto.
  rewrite Hrows. apply rows_edited, (rowEdit_map unmarkRow (r0 :: l)),
    rowEdit_unmarkRow.
Qed.

Lemma frame_startDelete (fresh : option rowData) (ps : list string)
  (m0 m : model) :
  rows m = rows m0 -> scanOpts m = scanOpts m0 ->
  scanID m = scanID m0 ->
  deleting m = deleting m0 -> deleteQueue m = deleteQueue m0 ->
  deleteTotal m = deleteTotal m0 -> deleteDone m = deleteDone m0 ->
  deleteErrors m = deleteErrors m0 ->
  frameOK fresh m0 (fst (startDelete ps m)) (snd (startDelete ps m)).
Proof.
  intros Hr Ho Hs Hd Hq Ht Hn He. unfold startDelete.
  destruct ps as [|p0 ps].
  { cbn. apply frame_intro; auto. rewrite Hr. apply rows_same. }
  destruct (deleting m) eqn:Hdel.
  { cbn. apply frame_intro; auto; try congruence.
    rewrite Hr. apply rows_same. }
  cbn [fst snd]. split; [cbn; rewrite Hr; apply rows_same|].
  split; [exact Ho|]. split; [left; exact Hs|]. intros H. congruence.
Qed.

Lemma frame_requestDeleteSelected (fresh : option rowData) (m : model) :
  frameOK fresh m (fst (requestDeleteSelected m))
    (snd (requestDeleteSelected m)).
Proof.
  unfold requestDeleteSelected.
  destruct (cursorIndex m) as [idx|]; [|apply frame_refl].
  destruct (rows m !! idx) as [r|]; [|apply frame_refl].
  destruct (Deleted r); [apply frame_refl|].
  destruct (confirmDeletes m).
  - cbn. apply frame_intro; cbn; auto. apply rows_same.
  - apply frame_startDelete; reflexivity.
Qed.

Lemma frame_requestDeleteMarked (fresh : option rowData) (m : model) :
  frameOK fresh m (fst (requestDeleteMarked m))
    (snd (requestDeleteMarked m)).
Proof.
  unfold requestDeleteMarked.
  destruct (markedPaths (rows m)) as [|p ps] eqn:Hps.
  { cbn. apply frame_intro; cbn; auto. apply rows_same. }
  destruct (confirmDeletes m).
  - cbn. apply frame_intro; cbn; auto. apply rows_same.
  - apply frame_startDelete; reflexivity.
Qed.

Lemma frame_requestRecalcSelected (fresh : option rowData) (m : model) :
  frameOK fresh m (fst (requestRecalcSelected m))
    (snd (requestRecalcSelected m)).
Proof.
  unfold requestRecalcSelected.
  destruct (cursorIndex m) as [idx|]; [|apply frame_refl].
  destruct (rows m !! idx) as [r|]; [|apply frame_refl].
  destruct (Deleted r); [apply frame_refl|].
  cbn. apply frame_intro; cbn; auto. apply rows_same.
Qed.

Lemma frame_confirmKey (fresh : option rowData) (k : string) (m : model) :
  frameOK fresh m (fst (confirmKey k m)) (snd (confirmKey k m)).
Proof.
  unfold confirmKey. destruct (keyIn k ["y"; "Y"]).
  - apply frame_startDelete; reflexivity.
  - destruct (keyIn k ["n"; "N"; "esc"]); [|apply frame_refl].
    cbn. apply frame_intro; cbn; auto. apply rows_same.
Qed.

Lemma frame_applyRecalcResult (fresh : option rowData) (path : string)
  (size : Z) (e : option error) (m : model) :
  frameOK fresh m (applyRecalcResult path size e m) [].
Proof.
  unfold applyRecalcResult.
  destruct (findRow m path) as [idx|]; [|apply frame_refl].
  destruct e.
  - apply frame_intro; cbn; auto. apply rows_same.
  - apply frame_setTableRows, frame_intro; cbn; auto.
    apply rows_edited, rowEdit_alter. intros r. apply edit_size.
Qed.

Lemma frame_startScan (fresh : option rowData) (m : model) :
  frameOK fresh m (fst (startScan m)) (snd (startScan m)).
Proof.
  unfold startScan. cbn [fst snd]. apply frame_setTableRows.
  split; [apply rows_cleared|]. split; [reflexivity|].
  split; [right; reflexivity|]. intros H. cbn. auto 10.
Qed.

Lemma frame_updateLayout (fresh : option rowData) (w h : Z) (m : model) :
  frameOK fresh m (updateLayout w h m) [].
Proof.
  unfold updateLayout.
  repeat match goal with
    | |- context [if ?c then _ else _] => destruct c
    end; try apply frame_refl.
  all: apply frame_intro; cbn; auto; apply rows_same.
Qed.

Lemma afterSwitch_some (msg : Msg) (r : model * list Cmd) :
  exists m' cmds, after msg r = Some (m', cmds).
Proof.
  destruct r as [m c]. unfold afterSwitch.
  destruct (negb (active (confirm m))); eauto.
Qed.

Lemma rows_tableUpdate (msg : Msg) (m : model) :
  rows (tabUpd msg m) = rows m.
Proof. destruct msg; reflexivity. Qed.

Lemma afterSwitch_frame (fresh : option rowData) (msg : Msg) (m : model)
  (r : model * list Cmd) (m' : model) (cmds : list Cmd) :
  frameOK fresh m (fst r) (snd r) ->
  after msg r = Some (m', cmds) ->
  frameOK fresh m m' cmds.
Proof.
  destruct r as [m1 c]. cbn [fst snd]. intros (Hr & Ho & Hs & Hk).
  unfold afterSwitch.
  destruct (negb (active (confirm m1))); intros [= <- <-].
  - split; [rewrite rows_tableUpdate; exact Hr|].
    split; [destruct msg; exact Ho|].
    split; [destruct msg; exact Hs|].
    intros H. destruct (Hk H) as (H1 & H2 & H3 & H4 & H5 & H6).
    rewrite deleteCmds_app, H6. destruct msg; cbn; auto 10.
  - split; [exact Hr|]. split; [exact Ho|]. split; [exact Hs | exact Hk].
Qed.

Lemma sortRows_frame (fresh : option rowData) (m0 m : model)
  (cmds : list Cmd) :
  frameOK fresh m0 m cmds -> rows m = rows m0 ->
  frameOK fresh m0 (sortRows ToLower m) cmds.
Proof.
  intros (Hr & Ho & Hs & Hk) Hrows. split.
  - apply rows_permuted. cbn. rewrite <- Hrows. symmetry.
    apply Sorting.sliceStable_perm.
  - split; [exact Ho|]. split; [|exact Hk].
    destruct Hs as [Hs|Hs]; [left; exact Hs|].
    right. cbn. rewrite Hs. reflexivity.
Qed.

(** Every message but a delete result goes through the switch of
    [Update] within the frame: either to the end of [Update], or out by
    the quit key. *)
Lemma Update_switch (m : model) (msg : Msg) :
  isDeleteResult msg = false ->
  (exists r, Upd m msg = after msg r
             /\ frameOK (freshRow m msg) m (fst r) (snd r))
  \/ Upd m msg = Some (set_baseCancelled true m, [CmdQuit]).
Proof.
  intros Hmsg. destruct msg; try discriminate; unfold Update;
    cbn [freshRow].
  - left. eexists. split; [reflexivity|]. apply frame_updateLayout.
  - left. eexists. split; [reflexivity|]. cbn [fst snd].
    apply frame_intro; auto using rows_same. destruct (loading m); reflexivity.
  - left. eexists. split; [reflexivity|]. cbn [fst snd].
    apply frame_intro; auto using rows_same.
  - left. destruct (Z.eqb id (scanID m)); cbn [negb];
      (eexists; split; [reflexivity|]); cbn [fst snd];
      apply frame_intro; auto using rows_same.
  - left. destruct (Z.eqb id (scanID m)); cbn [negb];
      (eexists; split; [reflexivity|]); cbn [fst snd].
    + apply frame_set_lastEvent, frame_setTableRows.
      apply frame_intro; try reflexivity; [|apply deleteCmds_wait].
      apply rows_appended. reflexivity.
    + apply frame_refl.
  - left. destruct (Z.eqb id (scanID m)); cbn [negb];
      (eexists; split; [reflexivity|]); cbn [fst snd].
    + apply frame_intro; auto using rows_same.
      cbn. destruct (scanStream m); reflexivity.
    + apply frame_refl.
  - left. destruct (Z.eqb id (scanID m)); cbn [negb];
      (eexists; split; [reflexivity|]); cbn [fst snd].
    + apply frame_set_lastEvent, frame_setTableRows, sortRows_frame;
        [|reflexivity].
      apply frame_intro; try reflexivity. apply rows_same.
    + apply frame_refl.
  - left. eexists. split; [reflexivity|]. cbn [fst snd].
    apply frame_intro; auto using rows_same. destruct (loading m); reflexivity.
  - left. eexists. split; [reflexivity|]. apply frame_applyRecalcResult.
  - destruct (active (confirm m)).
    { left. eexists. split; [reflexivity|]. apply frame_confirmKey. }
    destruct (keyIn key ["q"; "ctrl+c"]); [right; reflexivity|].
    left.
    repeat match goal with
      | |- context [if keyIn key ?ks then _ else _] => destruct (keyIn key ks)
      end;
      (eexists; split; [reflexivity|]); cbn [fst snd];
      first [ apply frame_startScan
            | apply frame_toggleMark
            | apply frame_markAll
            | apply frame_clearMarks
            | apply frame_requestDeleteMarked
            | apply frame_requestDeleteSelected
            | apply frame_requestRecalcSelected
            | apply frame_refl
            | idtac ].
    + apply frame_intro; try reflexivity. apply rows_same.
    + apply frame_set_lastEvent, frame_setTableRows, sortRows_frame;
        [|reflexivity].
      apply frame_intro; try reflexivity. apply rows_same.
    + apply frame_intro; try reflexivity. apply rows_same.
Qed.

Lemma Update_frame (m : model) (msg : Msg) :
  isDeleteResult msg = false ->
  exists m' cmds,
    Upd m msg = Some (m', cmds) /\ frameOK (freshRow m msg) m m' cmds.
Proof.
  intros Hmsg. destruct (Update_switch m msg Hmsg) as [(r & Hu & Hf)|Hq].
  - destruct (afterSwitch_some msg r) as (m' & cmds & Hs).
    exists m', cmds. split; [congruence|].
    eapply afterSwitch_frame; eassumption.
  - eexists _, _. split; [exact Hq|].
    apply frame_intro; auto using rows_same.
Qed.

(** *** Delete results *)

Lemma recordDeleteResult_frame (result : deleteResult) (m : model) :
  let m' := recordDeleteResult result m in
  Forall2 rowEdit (rows m) (rows m')
  /\ scanOpts m' = scanOpts m /\ scanID m' = scanID m
  /\ deleting m' = deleting m /\ deleteQueue m' = deleteQueue m
  /\ deleteTotal m' = deleteTotal m /\ deleteDone m' = deleteDone m
  /\ confirm m' = confirm m.
Proof.
  unfold recordDeleteResult.
  destruct (findRow m (drPath result)) as [idx|];
    [|cbn; auto 10 using rowEdit_all].
  destruct (drErr result) as [e|]; cbn; repeat split;
    apply rowEdit_alter; intros r; constructor.
Qed.

Lemma applyDeleteResult_rows (result : deleteResult) (m m' : model)
  (cmds : list Cmd) :
  applyDeleteResult result m = Some (m', cmds) ->
  Forall2 rowEdit (rows m) (rows m') /\ scanID m' = scanID m
  /\ scanOpts m' = scanOpts m.
Proof.
  unfold applyDeleteResult.
  destruct (recordDeleteResult_frame result m)
    as (Hr & Ho & Hs & _).
  set (m1 := recordDeleteResult result m) in *. clearbody m1.
  destruct (deleting m1); [|intros [= <- <-]; auto].
  destruct (Z.geb _ _); [intros [= <- <-]; auto|].
  destruct (Z.ltb _ _); [discriminate|].
  destruct (_ !! _); [|discriminate]. intros [= <- <-]; auto.
Qed.

(** What any [Update] does to the rows and to the scan generation. *)
Lemma Update_rows (m : model) (msg : Msg) (m' : model) (cmds : list Cmd) :
  Upd m msg = Some (m', cmds) ->
  rowsChange (freshRow m msg) (rows m) (rows m')
  /\ (scanID m' = scanID m \/ rows m' = []).
Proof.
  destruct (isDeleteResult msg) eqn:Hmsg.
  - destruct msg; try discriminate. unfold Update.
    destruct (applyDeleteResult result m) as [[m1 c]|] eqn:Ha;
      [|discriminate].
    apply applyDeleteResult_rows in Ha as (Hr & Hs & _).
    unfold afterSwitch.
    destruct (negb _); intros [= <- <-]; cbn [tableUpdate];
      rewrite rows_setTableRows; split;
      try (apply rows_edited; exact Hr); left;
      unfold setTableRows; destruct (Z.ltb _ _); exact Hs.
  - destruct (Update_frame m msg Hmsg) as (m1 & c & Hu & Hr & _ & Hs & _).
    intros H. rewrite Hu in H. injection H as <- <-. auto.
Qed.

(** *** Generations *)

Lemma incr_neq (z : Z) : incr z <> z.
Proof.
  unfold incr, wrapInt.
  pose proof (Z.mod_pos_bound (z + 1 + 2 ^ 63) (2 ^ 64) ltac:(lia)) as Hb.
  intros H.
  assert (Hm : (z + 1 + 2 ^ 63) mod 2 ^ 64 = z + 2 ^ 63) by lia.
  pose proof (Z.div_mod (z + 1 + 2 ^ 63) (2 ^ 64) ltac:(lia)) as Hd.
  rewrite Hm in Hd. lia.
Qed.

Lemma rowEdit_path (r r' : rowData) : rowEdit r r' -> RelPath r' = RelPath r.
Proof. destruct 1; reflexivity. Qed.

Lemma rowsChange_origin (fresh : option rowData) (l l' : list rowData)
  (r' : rowData) :
  rowsChange fresh l l' -> In r' l' ->
  (exists r, In r l /\ RelPath r = RelPath r') \/ fresh = Some r'.
Proof.
  intros Hc Hin. destruct Hc as [l l' H|l l' H|l row H|l].
  - left. induction H as [|r0 r0' l l' He _ IH]; [destruct Hin|].
    destruct Hin as [<-|Hin].
    + exists r0. split; [left; reflexivity|].
      symmetry. apply rowEdit_path, He.
    + destruct (IH Hin) as (r & Hr & Hp). exists r. split; [right|]; auto.
  - left. exists r'. split; [|reflexivity].
    eapply Permutation_in; [symmetry; exact H | exact Hin].
  - apply in_app_or in Hin as [Hin|[<-|[]]].
    + left. exists r'. auto.
    + right. exact H.
  - destruct Hin.
Qed.

Lemma run_fromGeneration (msgs seen : list Msg) (m m' : model) :
  fromGeneration m seen ->
  run ToLower tableKey m msgs = Some m' ->
  fromGeneration m' (seen ++ msgs).
Proof.
  revert seen m. induction msgs as [|msg msgs IH]; intros seen m Hj; simpl.
  - intros [= <-]. rewrite app_nil_r. exact Hj.
  - destruct (Upd m msg) as [[m1 c]|] eqn:Hu; [|discriminate].
    intros Hrun.
    replace (seen ++ msg :: msgs)%list with ((seen ++ [msg]) ++ msgs)%list
      by (rewrite <- app_assoc; reflexivity).
    apply (IH _ m1); [|exact Hrun].
    destruct (Update_rows _ _ _ _ Hu) as (Hc & Hs).
    intros r' Hin.
    destruct Hs as [Hs|Hs]; [|rewrite Hs in Hin; destruct Hin].
    rewrite Hs.
    destruct (rowsChange_origin _ _ _ _ Hc Hin) as [(r & Hr & Hp)|Hf].
    + destruct (Hj r Hr) as (row & Hrow & Hpath).
      exists row. split; [apply in_or_app; left; exact Hrow | congruence].
    + exists r'. split; [|reflexivity].
      apply in_or_app. right. left.
      destruct msg; try discriminate. cbn in Hf.
      destruct (Z.eqb_spec id (scanID m)); [|discriminate].
      congruence.
Qed.

(** C7.  A stream handle, discovery row, progress or completion message
    whose scan ID is not the controller's current one leaves the model as
    it is, and no wait or delete command is handed back.  After a rescan
    the generation differs from the superseded one and the rows are
    empty, and whatever messages follow, every row of the model was
    brought by a discovery message of the model's current generation. *)
Theorem stale_generation_discarded :
  (forall (m : model) (msg : Msg) (id : Z),
      msgScanID msg = Some id -> id <> scanID m ->
      exists cmds,
        Upd m msg = Some (m, cmds)
        /\ deleteCmds cmds = []
        /\ forall ch, ~ In (CmdWaitScan ch) cmds)
  /\ (forall (m0 : model) (msgs : list Msg) (m' : model),
        let m1 := fst (startScan m0) in
        run ToLower tableKey m1 msgs = Some m' ->
        scanID m1 <> scanID m0
        /\ rows m1 = []
        /\ forall r, In r (rows m') ->
             exists row, In (ScanRowMsg (scanID m') row) msgs
                         /\ RelPath row = RelPath r).
Proof.
  split.
  - intros m msg id Hid Hne.
    assert (Hb : Z.eqb id (scanID m) = false) by (apply Z.eqb_neq, Hne).
    destruct msg; try discriminate; injection Hid as ->;
      unfold Update, afterSwitch; rewrite Hb; cbn [negb tableUpdate];
      destruct (negb (active (confirm m))); eexists;
      (split; [reflexivity|]); (split; [reflexivity|]);
      intros ch' H; repeat (destruct H as [H|H]; [discriminate|]);
      destruct H.
  - intros m0 msgs m' m1 Hrun.
    assert (Hrows : rows m1 = []).
    { subst m1. unfold startScan. cbn [fst].
      rewrite rows_setTableRows. reflexivity. }
    split; [|split; [exact Hrows|]].
    + subst m1. unfold startScan. cbn [fst].
      unfold setTableRows. destruct (Z.ltb _ _); cbn; apply incr_neq.
    + apply (run_fromGeneration msgs [] m1 m'); [|exact Hrun].
      intros r Hin. rewrite Hrows in Hin. destruct Hin.
Qed.

(** *** Deleted rows *)

Lemma rowEdit_unmarkedIfDeleted (r r' : rowData) :
  rowEdit r r' -> unmarkedIfDeleted r -> unmarkedIfDeleted r'.
Proof.
  unfold unmarkedIfDeleted. destruct 1; cbn; auto; congruence.
Qed.

Lemma rowsChange_unmarkedIfDeleted (fresh : option rowData)
  (l l' : list rowData) :
  rowsChange fresh l l' ->
  (forall row, fresh = Some row -> unmarkedIfDeleted row) ->
  Forall unmarkedIfDeleted l -> Forall unmarkedIfDeleted l'.
Proof.
  intros Hc Hf Hl. destruct Hc as [l l' H|l l' H|l row H|l].
  - induction H as [|r r' l l' He _ IH]; [constructor|].
    inversion Hl; subst. constructor; [|auto].
    eapply rowEdit_unmarkedIfDeleted; eassumption.
  - eapply Permutation_Forall; eassumption.
  - apply Forall_app. split; [exact Hl|]. constructor; [auto|constructor].
  - constructor.
Qed.

Lemma reachable_unmarkedIfDeleted (m : model) :
  reachable ToLower tableKey m -> Forall unmarkedIfDeleted (rows m).
Proof.
  induction 1 as [opts c|m msg m' cmds _ IH Hmsg Hu]; [constructor|].
  destruct (Update_rows _ _ _ _ Hu) as (Hc & _).
  eapply rowsChange_unmarkedIfDeleted; [exact Hc| |exact IH].
  intros row Hf. destruct msg; try discriminate. cbn in Hf.
  destruct (Z.eqb id (scanID m)); [|discriminate].
  injection Hf as ->. destruct Hmsg as [Hm Hd].
  intros _. exact Hm.
Qed.

Lemma markedPaths_spec (rs : list rowData) (p : string) :
  In p (markedPaths rs) <->
  exists r, In r rs /\ RelPath r = p /\ Marked r = true /\ Deleted r = false.
Proof.
  unfold markedPaths. rewrite in_map_iff. split.
  - intros (r & Hp & Hin). apply filter_In in Hin as [Hin Hb].
    apply andb_true_iff in Hb as [Hm Hd]. apply negb_true_iff in Hd.
    exists r. auto.
  - intros (r & Hin & Hp & Hm & Hd). exists r. split; [exact Hp|].
    apply filter_In. split; [exact Hin|]. rewrite Hm, Hd. reflexivity.
Qed.

Lemma rows_markAll (m : model) : rows (markAll m) = map markRow (rows m).
Proof.
  unfold markAll. destruct (rows m) as [|r0 l] eqn:Hrows.
  - rewrite Hrows. reflexivity.
  - rewrite rows_setTableRows. reflexivity.
Qed.

(** The invariant of the rows: in every reachable state no row is both
    deleted and marked.  A successful delete result turns its row into a
    deleted, unmarked row; [toggleMark] and [markAll] leave every deleted
    row as it is; a delete request made on a deleted row does nothing,
    and the paths of a bulk delete request are those of rows that are
    marked and not deleted.  A request that was made before its row was
    deleted is another matter: see [deleted_row_deleted_again]. *)
Theorem deleted_rows_never_marked (m : model) :
  reachable ToLower tableKey m ->
  Forall (fun r => Deleted r = true -> Marked r = false) (rows m)
  /\ (forall result idx r,
        drErr result = None ->
        findRow m (drPath result) = Some idx ->
        rows m !! idx = Some r ->
        rows (recordDeleteResult result m) !! idx = Some (setDeletedRow r)
        /\ Deleted (setDeletedRow r) = true
        /\ Marked (setDeletedRow r) = false)
  /\ (forall idx r,
        rows m !! idx = Some r -> Deleted r = true ->
        rows (toggleMark m) !! idx = Some r
        /\ rows (markAll m) !! idx = Some r
        /\ (cursorIndex m = Some idx ->
            toggleMark m = m /\ requestDeleteSelected m = (m, [])))
  /\ (forall p, In p (markedPaths (rows m)) <->
        exists r, In r (rows m) /\ RelPath r = p
                  /\ Marked r = true /\ Deleted r = false).
Proof.
  intros Hreach. split; [apply reachable_unmarkedIfDeleted, Hreach|].
  split; [|split; [|apply markedPaths_spec]].
  - intros result idx r Herr Hfind Hr. unfold recordDeleteResult.
    rewrite Hfind, Herr. cbn. split; [|auto].
    rewrite list_lookup_alter_eq, Hr. reflexivity.
  - intros idx r Hr Hd. split; [|split].
    + unfold toggleMark. destruct (cursorIndex m) as [i|]; [|exact Hr].
      destruct (rows m !! i) as [r0|] eqn:Hr0; [|exact Hr].
      destruct (Deleted r0) eqn:Hd0; [exact Hr|].
      rewrite rows_setTableRows. cbn.
      rewrite list_lookup_insert_ne; [exact Hr|]. congruence.
    + rewrite rows_markAll.
      change (map markRow (rows m)) with (markRow <$> rows m).
      rewrite list_lookup_fmap, Hr. cbn. unfold markRow. rewrite Hd.
      reflexivity.
    + intros Hc. unfold toggleMark, requestDeleteSelected.
      rewrite Hc, Hr, Hd. auto.
Qed.

(** *** Confirmation *)

Lemma keyIn_negative (k : string) :
  keyIn k ["n"; "N"; "esc"] = true -> keyIn k ["y"; "Y"] = false.
Proof.
  unfold keyIn. cbn [existsb]. intros H.
  repeat (apply orb_true_iff in H as [H|H];
          [apply String.eqb_eq in H; subst; reflexivity|]).
  discriminate.
Qed.

(** C10.  While a confirmation is pending, the keys "n", "N" and "esc"
    make [Update] clear the confirmation, set the status text, pass the
    key to the table widget and do nothing else: the rows (so every mark
    and every deleted flag) and the delete queue with its counters are
    as before, and the only command handed back is the table's, so no
    delete command runs. *)
Theorem confirm_negative_answer (m : model) (k : string) :
  active (confirm m) = true ->
  keyIn k ["n"; "N"; "esc"] = true ->
  let m' :=
    tabUpd (KeyMsg k)
      (set_lastEvent "Deletion cancelled" (set_confirm noConfirm m)) in
  Upd m (KeyMsg k) = Some (m', [CmdTable])
  /\ confirm m' = noConfirm
  /\ rows m' = rows m
  /\ deleting m' = deleting m
  /\ deleteQueue m' = deleteQueue m
  /\ deleteTotal m' = deleteTotal m
  /\ deleteDone m' = deleteDone m
  /\ deleteErrors m' = deleteErrors m
  /\ deleteCmds [CmdTable] = [].
Proof.
  intros Hact Hk m'. split; [|repeat split].
  unfold Update. rewrite Hact. unfold confirmKey.
  rewrite (keyIn_negative k Hk), Hk. reflexivity.
Qed.

(** Whatever the pending request froze, of a single row or of the marked
    rows, the marked rows keep their marks through a negative answer. *)
Lemma confirm_negative_keeps_marks (m : model) (k : string) (m' : model)
  (cmds : list Cmd) :
  active (confirm m) = true ->
  keyIn k ["n"; "N"; "esc"] = true ->
  Upd m (KeyMsg k) = Some (m', cmds) ->
  markedPaths (rows m') = markedPaths (rows m) /\ cmds = [CmdTable].
Proof.
  intros Hact Hk Hu.
  unfold Update in Hu. rewrite Hact in Hu. unfold confirmKey in Hu.
  rewrite (keyIn_negative k Hk), Hk in Hu. injection Hu as <- <-.
  split; reflexivity.
Qed.

(** *** The delete queue *)

Lemma wrapInt_small (z : Z) : inInt z -> wrapInt z = z.
Proof.
  unfold inInt, wrapInt. intros H. rewrite Z.mod_small; lia.
Qed.

Lemma applyDeleteResult_step (result : deleteResult) (m : model) (k n : Z) :
  deleting m = true -> deleteTotal m = n -> deleteDone m = k ->
  0 <= k < n -> n < 2 ^ 63 ->
  (k + 1 = n ->
   exists m', applyDeleteResult result m = Some (m', [CmdProgress])
              /\ deleting m' = false /\ scanOpts m' = scanOpts m)
  /\ (forall p', k + 1 < n ->
        deleteQueue m !! Z.to_nat (k + 1) = Some p' ->
        exists m',
          applyDeleteResult result m
          = Some (m', [CmdProgress; CmdDelete (rootOkOf (scanOpts m)) p'])
          /\ deleting m' = true /\ deleteQueue m' = deleteQueue m
          /\ deleteTotal m' = n /\ deleteDone m' = k + 1
          /\ scanOpts m' = scanOpts m).
Proof.
  intros Hdel Htot Hdone Hk Hn. unfold applyDeleteResult.
  destruct (recordDeleteResult_frame result m)
    as (_ & Ho & _ & Hd1 & Hq1 & Ht1 & Hn1 & _).
  set (m1 := recordDeleteResult result m) in *. clearbody m1.
  rewrite Hd1, Hdel.
  assert (Hincr : incr (deleteDone m1) = k + 1).
  { rewrite Hn1, Hdone. apply wrapInt_small. unfold inInt. lia. }
  cbn [deleteDone deleteTotal set_deleteDone deleteQueue scanOpts].
  rewrite Hincr, Ht1, Htot, Hq1, Ho. split.
  - intros Hlast. destruct (Z.geb_spec (k + 1) n); [|lia].
    eexists. split; [reflexivity|]. split; [reflexivity | exact Ho].
  - intros p' Hmore Hp'. destruct (Z.geb_spec (k + 1) n); [lia|].
    destruct (Z.ltb_spec (k + 1) 0); [lia|]. rewrite Hp'.
    eexists. split; [reflexivity|]. cbn. repeat split; congruence.
Qed.

Lemma Update_deleteResult_step (result : deleteResult) (m : model)
  (k n : Z) :
  deleting m = true -> deleteTotal m = n -> deleteDone m = k ->
  0 <= k < n -> n < 2 ^ 63 ->
  (k + 1 = n ->
   exists m' cmds, Upd m (DeleteResultMsg result) = Some (m', cmds)
                   /\ deleteCmds cmds = []
                   /\ deleting m' = false /\ scanOpts m' = scanOpts m)
  /\ (forall p', k + 1 < n ->
        deleteQueue m !! Z.to_nat (k + 1) = Some p' ->
        exists m' cmds,
          Upd m (DeleteResultMsg result) = Some (m', cmds)
          /\ deleteCmds cmds = [(rootOkOf (scanOpts m), p')]
          /\ deleting m' = true /\ deleteQueue m' = deleteQueue m
          /\ deleteTotal m' = n /\ deleteDone m' = k + 1
          /\ scanOpts m' = scanOpts m).
Proof.
  intros Hdel Htot Hdone Hk Hn.
  destruct (applyDeleteResult_step result m k n Hdel Htot Hdone Hk Hn)
    as [Hlast Hnext].
  split.
  - intros Hkn. destruct (Hlast Hkn) as (m1 & Ha & Hd & Ho).
    unfold Update. rewrite Ha. unfold afterSwitch.
    destruct (negb _); eexists _, _; (split; [reflexivity|]);
      unfold setTableRows; destruct (Z.ltb _ _); cbn; auto.
  - intros p' Hkn Hp'.
    destruct (Hnext p' Hkn Hp') as (m1 & Ha & Hd & Hq & Ht & Hc & Ho).
    unfold Update. rewrite Ha. unfold afterSwitch.
    destruct (negb _); eexists _, _; (split; [reflexivity|]);
      unfold setTableRows; destruct (Z.ltb _ _); cbn; auto 10.
Qed.

(** *** Quitting *)

Lemma quits_table (cmds : list Cmd) :
  quits (cmds ++ [CmdTable]) = quits cmds.
Proof.
  unfold quits. rewrite existsb_app. cbn. apply orb_false_r.
Qed.

Lemma quits_afterSwitch (msg : Msg) (r : model * list Cmd) (m' : model)
  (cmds : list Cmd) :
  after msg r = Some (m', cmds) -> quits cmds = quits (snd r).
Proof.
  destruct r as [m1 c]. unfold afterSwitch.
  destruct (negb (active (confirm m1))); intros [= <- <-];
    [apply quits_table | reflexivity].
Qed.

Lemma quits_startDelete (ps : list string) (m : model) :
  quits (snd (startDelete ps m)) = false.
Proof.
  unfold startDelete. destruct ps; [reflexivity|].
  destruct (deleting m); reflexivity.
Qed.

Lemma quits_requestDeleteSelected (m : model) :
  quits (snd (requestDeleteSelected m)) = false.
Proof.
  unfold requestDeleteSelected.
  destruct (cursorIndex m) as [idx|]; [|reflexivity].
  destruct (rows m !! idx) as [r|]; [|reflexivity].
  destruct (Deleted r); [reflexivity|].
  destruct (confirmDeletes m); [reflexivity | apply quits_startDelete].
Qed.

Lemma quits_requestDeleteMarked (m : model) :
  quits (snd (requestDeleteMarked m)) = false.
Proof.
  unfold requestDeleteMarked.
  destruct (markedPaths (rows m)) as [|p ps]; [reflexivity|].
  destruct (confirmDeletes m); [reflexivity | apply quits_startDelete].
Qed.

Lemma quits_requestRecalcSelected (m : model) :
  quits (snd (requestRecalcSelected m)) = false.
Proof.
  unfold requestRecalcSelected.
  destruct (cursorIndex m) as [idx|]; [|reflexivity].
  destruct (rows m !! idx) as [r|]; [|reflexivity].
  destruct (Deleted r); reflexivity.
Qed.

Lemma quits_confirmKey (k : string) (m : model) :
  quits (snd (confirmKey k m)) = false.
Proof.
  unfold confirmKey. destruct (keyIn k ["y"; "Y"]);
    [apply quits_startDelete|].
  destruct (keyIn k ["n"; "N"; "esc"]); reflexivity.
Qed.

(** [Update] hands back [tea.Quit] on a quit key while no confirmation
    is pending, and on nothing else. *)
Lemma Update_quits (m : model) (msg : Msg) (m' : model) (cmds : list Cmd) :
  isDeleteResult msg = false ->
  Upd m msg = Some (m', cmds) ->
  quits cmds = isQuitKey msg && negb (active (confirm m)).
Proof.
  intros Hmsg. destruct msg; try discriminate; unfold Update;
    cbv zeta; cbn [isQuitKey andb]; intros H.
  10:{ destruct (active (confirm m)) eqn:Ha.
       { rewrite andb_false_r, (quits_afterSwitch _ _ _ _ H).
         apply quits_confirmKey. }
       destruct (keyIn key ["q"; "ctrl+c"]) eqn:Hq.
       { injection H as _ <-. reflexivity. }
       cbn [negb andb].
       repeat match type of H with
              | context [if keyIn key ?ks then _ else _] =>
                  destruct (keyIn key ks)
              end;
         rewrite (quits_afterSwitch _ _ _ _ H);
         first [ reflexivity
               | apply quits_requestDeleteMarked
               | apply quits_requestDeleteSelected
               | apply quits_requestRecalcSelected ]. }
  all: repeat match type of H with
              | context [if ?c then _ else _] => destruct c
              | context [match ?x with Some _ => _ | None => _ end] =>
                  destruct x
              end;
    rewrite (quits_afterSwitch _ _ _ _ H); reflexivity.
Qed.

Lemma deliver_frame (burst : list Msg) (m : model) :
  deleting m = true ->
  Forall (fun msg => isDeleteResult msg = false) burst ->
  exists out,
    deliver ToLower tableKey m burst = Some out
    /\ match out with
       | Running m1 =>
           deleting m1 = true /\ deleteQueue m1 = deleteQueue m
           /\ deleteTotal m1 = deleteTotal m /\ deleteDone m1 = deleteDone m
           /\ scanOpts m1 = scanOpts m
       | QuitAt _ => Exists (fun msg => isQuitKey msg = true) burst
       end.
Proof.
  intros Hdel Hb. revert m Hdel.
  induction Hb as [|msg burst Hmsg _ IH]; intros m Hdel; cbn [deliver].
  - exists (Running m). auto 10.
  - destruct (Update_frame m msg Hmsg) as (m1 & c & Hu & _ & Ho & _ & Hk).
    destruct (Hk Hdel) as (Hd1 & Hq1 & Ht1 & Hn1 & _ & Hc).
    rewrite Hu, Hc. pose proof (Update_quits m msg m1 c Hmsg Hu) as Hquit.
    destruct (quits c).
    + exists (QuitAt m1). split; [reflexivity|]. left.
      symmetry in Hquit. apply andb_true_iff in Hquit. tauto.
    + destruct (IH m1 Hd1) as (out & Hdl & Hout).
      exists out. split; [exact Hdl|]. destruct out as [m2|m2].
      * destruct Hout as (Hd2 & Hq2 & Ht2 & Hn2 & Ho2).
        repeat split; congruence.
      * right. exact Hout.
Qed.

End Handlers.

Section DeleteQueue.

Variable ToLower : string -> string.
Variable tableKey : string -> Z -> Z -> Z.
Variable FS : Type.
Variable RemoveAll : FS -> string -> FS * option error.

Local Abbreviation Upd := (Update ToLower tableKey).
Local Abbreviation runQ := (runQueue ToLower tableKey FS RemoveAll).
Local Abbreviation delAll := (deleteAll FS RemoveAll).

Lemma len_app {A} (a b : list A) : len (a ++ b) = len a + len b.
Proof. unfold len. rewrite length_app. lia. Qed.

Lemma len_cons {A} (x : A) (l : list A) : len (x :: l) = 1 + len l.
Proof. unfold len. cbn [length]. lia. Qed.

Lemma len_nonneg {A} (l : list A) : 0 <= len l.
Proof. unfold len. lia. Qed.

Lemma deleteAll_cons (rootOk : bool) (p : string) (rest : list string)
  (w : World FS) :
  let r := deleteCmd RemoveAll rootOk p w in
  delAll rootOk (p :: rest) w
  = (fst r :: fst (delAll rootOk rest (snd r)),
     snd (delAll rootOk rest (snd r))).
Proof.
  cbn [deleteAll]. destruct (deleteCmd RemoveAll rootOk p w) as [res w'].
  cbn [fst snd]. destruct (delAll rootOk rest w'). reflexivity.
Qed.

Lemma runQueue_drains (rest done : list string) (p : string)
  (bursts : list (list Msg)) (m : model) (w : World FS) :
  deleting m = true ->
  deleteQueue m = (done ++ p :: rest)%list ->
  deleteTotal m = len (done ++ p :: rest) ->
  deleteDone m = len done ->
  len (done ++ p :: rest) < 2 ^ 63 ->
  length bursts = S (length rest) ->
  Forall (Forall (fun msg => isDeleteResult msg = false)) bursts ->
  let rootOk := rootOkOf (scanOpts m) in
  exists out,
    runQ bursts m (rootOk, p) w = Some out
    /\ match out with
       | Drained m' w' delivered =>
           w' = snd (delAll rootOk (p :: rest) w)
           /\ delivered = fst (delAll rootOk (p :: rest) w)
           /\ deleting m' = false
       | Stopped m' delivered =>
           exists k,
             (k <= length rest)%nat
             /\ delivered = firstn k (fst (delAll rootOk (p :: rest) w))
             /\ Exists (Exists (fun msg => isQuitKey msg = true)) bursts
       end.
Proof.
  revert done p bursts m w.
  induction rest as [|p' rest IH];
    intros done p bursts m w Hdel Hq Ht Hn Hlen Hbl Hb rootOk;
    destruct bursts as [|burst bursts]; try discriminate;
    inversion Hb as [|? ? Hb1 Hb2]; subst;
    destruct (deliver_frame ToLower tableKey burst m Hdel Hb1)
      as (out1 & Hdl & Hout1);
    cbn [runQueue fst snd]; rewrite Hdl;
    (destruct out1 as [m1|m1];
     [destruct Hout1 as (Hd1 & Hq1 & Ht1 & Hn1 & Ho1)
     |exists (Stopped m1 []); split; [reflexivity|];
      exists 0%nat; split; [lia|];
      split; [reflexivity | left; exact Hout1]]);
    rewrite deleteAll_cons;
    destruct (deleteCmd RemoveAll rootOk p w) as [res w'] eqn:Hcmd;
    cbn [fst snd];
    rewrite len_app, len_cons in Hlen, Ht;
    pose proof (len_nonneg done) as Hdone0;
    rewrite <- Ht1 in Ht; rewrite <- Hn1 in Hn.
  - change (len (@nil string)) with 0 in *.
    destruct (Update_deleteResult_step ToLower tableKey res m1 (len done)
                (len done + (1 + 0)) Hd1 Ht Hn ltac:(lia) Hlen)
      as [Hlast _].
    destruct (Hlast ltac:(lia)) as (m2 & cmds & Hu & Hc & Hd2 & _).
    rewrite Hu, Hc. exists (Drained m2 w' [res]).
    split; [reflexivity|]. split; [reflexivity|].
    split; [reflexivity | exact Hd2].
  - rewrite len_cons in Hlen, Ht. pose proof (len_nonneg rest) as Hrest0.
    destruct (Update_deleteResult_step ToLower tableKey res m1 (len done)
                (len done + (1 + (1 + len rest))) Hd1 Ht Hn ltac:(lia) Hlen)
      as [_ Hnext].
    destruct (Hnext p') as (m2 & cmds & Hu & Hc & Hd2 & Hq2 & Ht2 & Hn2 & Ho2).
    { lia. }
    { rewrite Hq1, Hq.
      replace (Z.to_nat (len done + 1)) with (length done + 1)%nat
        by (unfold len; lia).
      rewrite lookup_app_r by lia.
      replace (length done + 1 - length done)%nat with 1%nat by lia.
      reflexivity. }
    rewrite Hu, Hc.
    pose proof (IH (done ++ [p])%list p' bursts m2 w') as H3.
    cbv zeta in H3. rewrite Ho2, Ho1 in H3. fold rootOk in H3.
    rewrite Ho1. fold rootOk.
    destruct H3 as (out3 & Hrun & Hout3).
    + exact Hd2.
    + rewrite Hq2, Hq1, Hq, <- app_assoc. reflexivity.
    + rewrite Ht2, <- app_assoc. cbn [app].
      rewrite len_app, !len_cons. reflexivity.
    + rewrite Hn2, len_app, len_cons. change (len (@nil string)) with 0. lia.
    + rewrite <- app_assoc. cbn [app]. rewrite len_app, !len_cons. lia.
    + cbn [length] in Hbl. lia.
    + exact Hb2.
    + rewrite Hrun. destruct out3 as [m3 w3 rs|m3 rs].
      * destruct Hout3 as (Hw3 & Hrs & Hd3).
        exists (Drained m3 w3 (res :: rs)). split; [reflexivity|].
        subst w3 rs. split; [reflexivity|]. split; [reflexivity | exact Hd3].
      * destruct Hout3 as (k & Hk & Hrs & Hex).
        exists (Stopped m3 (res :: rs)). split; [reflexivity|].
        exists (S k). split; [cbn [length]; lia|].
        split; [subst rs; reflexivity | right; exact Hex].
Qed.

Lemma deleteCmd_path (rootOk : bool) (p : string) (w : World FS) :
  drPath (fst (deleteCmd RemoveAll rootOk p w)) = resultPath p.
Proof.
  unfold deleteCmd, resultPath.
  destruct (validateDeletePath p) as [cleaned|e]; [|reflexivity].
  destruct (negb rootOk); [reflexivity|].
  unfold callRemoveAll. destruct (RemoveAll _ _). reflexivity.
Qed.

Lemma deleteAll_results (rootOk : bool) (ps : list string) (w : World FS) :
  Forall2 (fun p r => drPath r = resultPath p) ps
    (fst (delAll rootOk ps w)).
Proof.
  revert w. induction ps as [|p ps IH]; intros w.
  - constructor.
  - rewrite deleteAll_cons. cbn [fst]. constructor;
      [apply deleteCmd_path | apply IH].
Qed.

(** C6.  A non-empty list of [N] paths accepted by [startDelete] (no
    queue is active) is processed in order, one deletion in flight at a
    time, whatever other messages reach the controller in between:
    [startDelete] hands back the delete command of the first path only;
    each result the controller applies hands back the delete command of
    the next path only, and none after the last; the other messages hand
    back no delete command.  As long as the program is not quit, the
    results are those of the paths deleted one after the other in the
    submitted order, [N] of them, the i-th carrying the i-th path (as
    cleaned, or as queued when it is refused), whether or not earlier
    ones failed, and at the end no queue is active.  When a quit key
    ends the program before that, the results delivered until then are
    the first ones of that list, fewer than [N], in the same order. *)
Theorem delete_queue_in_order (m : model) (ps : list string)
  (bursts : list (list Msg)) (w : World FS) :
  ps <> [] ->
  deleting m = false ->
  len ps < 2 ^ 63 ->
  length bursts = length ps ->
  Forall (Forall (fun msg => isDeleteResult msg = false)) bursts ->
  let rootOk := rootOkOf (scanOpts m) in
  let results := fst (delAll rootOk ps w) in
  exists p0 m1 out,
    head ps = Some p0
    /\ startDelete ps m = (m1, [CmdProgress; CmdDelete rootOk p0])
    /\ runQ bursts m1 (rootOk, p0) w = Some out
    /\ length results = length ps
    /\ Forall2 (fun p r => drPath r = resultPath p) ps results
    /\ match out with
       | Drained m' w' delivered =>
           delivered = results /\ w' = snd (delAll rootOk ps w)
           /\ deleting m' = false
       | Stopped m' delivered =>
           exists k,
             (k < length ps)%nat /\ delivered = firstn k results
             /\ Exists (Exists (fun msg => isQuitKey msg = true)) bursts
       end
    /\ (Forall (Forall (fun msg => isQuitKey msg = false)) bursts ->
        exists m',
          out = Drained m' (snd (delAll rootOk ps w)) results
          /\ deleting m' = false).
Proof.
  intros Hne Hdel Hlen Hbl Hb rootOk results.
  destruct ps as [|p0 rest]; [congruence|].
  pose proof (deleteAll_results rootOk (p0 :: rest) w) as Hres.
  fold results in Hres.
  set (m1 := fst (startDelete (p0 :: rest) m)).
  assert (Ho : scanOpts m1 = scanOpts m)
    by (subst m1; unfold startDelete; rewrite Hdel; reflexivity).
  destruct (runQueue_drains rest [] p0 bursts m1 w) as (out & Hrun & Hout);
    try (subst m1; unfold startDelete; rewrite Hdel; reflexivity).
  - exact Hlen.
  - cbn [length] in Hbl. exact Hbl.
  - exact Hb.
  - rewrite Ho in Hrun, Hout. fold rootOk in Hrun, Hout.
    fold results in Hout.
    exists p0, m1, out. split; [reflexivity|].
    split; [subst m1; unfold startDelete; rewrite Hdel; reflexivity|].
    split; [exact Hrun|].
    split; [symmetry; eapply Forall2_length; exact Hres|].
    split; [exact Hres|]. split.
    + destruct out as [m' w' rs|m' rs].
      * destruct Hout as (Hw & Hrs & Hd). auto.
      * destruct Hout as (k & Hk & Hrs & Hex). exists k.
        split; [cbn [length]; lia|]. split; [exact Hrs | exact Hex].
    + intros Hnoquit. destruct out as [m' w' rs|m' rs].
      * destruct Hout as (Hw & Hrs & Hd). exists m'. subst w' rs. auto.
      * destruct Hout as (k & _ & _ & Hex). exfalso.
        apply List.Exists_exists in Hex as (burst & Hin & Hex).
        apply List.Exists_exists in Hex as (msg & Hin' & Hq).
        rewrite List.Forall_forall in Hnoquit.
        pose proof (Hnoquit burst Hin) as Hburst.
        rewrite List.Forall_forall in Hburst.
        rewrite (Hburst msg Hin') in Hq. discriminate.
Qed.

End DeleteQueue.

End Controller.

(** ** The walk *)

Module Walk.

Section Generic.

Context {St : Type}.
Variable fn : list string -> visit -> St -> option walkErr * St.

Lemma walkDir_eq (name : list string) (d : node) (s : St) :
  walkDir fn name d s =
  match fn name (VEntry d) s with
  | (Some e, s1) => (skipped d e, s1)
  | (None, s1) =>
      if negb (nIsDir d) then (None, s1)
      else
        match nReadErr d with
        | Some err =>
            match fn name (VReadDirErr d err) s1 with
            | (Some e, s2) => (skipped d e, s2)
            | (None, s2) => walkChildren fn name (nChildren d) s2
            end
        | None => walkChildren fn name (nChildren d) s1
        end
  end.
Proof.
  destruct d as [n isDir symlink info readErr children].
  cbn [walkDir nIsDir nReadErr nChildren].
  assert (Hc : forall dirs s0,
    (fix walkChildren (dirs : list node) (s : St) {struct dirs}
       : option walkErr * St :=
       match dirs with
       | [] => (None, s)
       | d1 :: rest =>
           match walkDir fn (name ++ [nName d1]) d1 s with
           | (Some SkipDir, s') => (None, s')
           | (Some (Fail e), s') => (Some (Fail e), s')
           | (None, s') => walkChildren rest s'
           end
       end) dirs s0 = walkChildren fn name dirs s0).
  { induction dirs as [|d1 rest IH]; intros s0; [reflexivity|].
    cbn [walkChildren]. destruct (walkDir fn _ d1 s0) as [[[|e]|] s'];
      auto. }
  destruct (fn name _ s) as [[e|] s1]; [reflexivity|].
  destruct (negb isDir); [reflexivity|].
  destruct readErr as [err|]; [|apply Hc].
  destruct (fn name _ s1) as [[e|] s2]; [reflexivity | apply Hc].
Qed.

(** An invariant of the state that every call of the function keeps is
    kept by the walk. *)
Lemma walkDir_invariant (I : St -> Prop) :
  (forall name v s r s', I s -> fn name v s = (r, s') -> I s') ->
  forall d name s r s', I s -> walkDir fn name d s = (r, s') -> I s'.
Proof.
  intros Hfn. induction d as [n isDir symlink info readErr children IH]
    using node_tree_ind.
  assert (Hch : forall name s r s',
             I s -> walkChildren fn name children s = (r, s') -> I s').
  { clear -IH. induction IH as [|d1 rest Hd1 _ IHrest];
      intros name s r s' Hs; cbn [walkChildren].
    - intros [= _ <-]. exact Hs.
    - destruct (walkDir fn _ d1 s) as [[[|e]|] s1] eqn:Hw;
        try (intros [= _ <-]; eapply Hd1; eassumption).
      intros H. eapply IHrest; [|exact H]. eapply Hd1; eassumption. }
  intros name s r s' Hs. rewrite walkDir_eq.
  cbn [nIsDir nReadErr nChildren].
  destruct (fn name _ s) as [[e|] s1] eqn:H1.
  { intros [= _ <-]. eapply Hfn; eassumption. }
  assert (Hs1 : I s1) by (eapply Hfn; eassumption).
  destruct (negb isDir); [intros [= _ <-]; exact Hs1|].
  destruct readErr as [err|]; [|apply Hch; exact Hs1].
  destruct (fn name _ s1) as [[e|] s2] eqn:H2.
  { intros [= _ <-]. eapply Hfn; eassumption. }
  apply Hch. eapply Hfn; eassumption.
Qed.

End Generic.

(** *** Paths of the entries the walk visits *)

Lemma Stat_app (root : node) (p q : list string) :
  Stat root (p ++ q) =
  match Stat root p with
  | inl d => Stat d q
  | inr e => inr e
  end.
Proof.
  revert root. induction p as [|c p IH]; intros root; [reflexivity|].
  cbn [app Stat]. destruct (negb (nIsDir root)); [reflexivity|].
  destruct (findChild c (nChildren root)); [apply IH | reflexivity].
Qed.

Lemma findChild_unique (d1 : node) (ds : list node) :
  NoDup (map nName ds) -> In d1 ds -> findChild (nName d1) ds = Some d1.
Proof.
  unfold findChild. induction ds as [|x ds IH]; intros Hnd Hin;
    [destruct Hin|].
  cbn [map] in Hnd. apply NoDup_cons in Hnd as [Hx Hnd]. cbn [find].
  destruct Hin as [->|Hin]; [rewrite String.eqb_refl; reflexivity|].
  destruct (String.eqb_spec (nName x) (nName d1)) as [He|_]; [|auto].
  exfalso. apply Hx. rewrite He. apply list_elem_of_In, in_map, Hin.
Qed.

Lemma Stat_child (root : node) (name : list string) (d d1 : node) :
  Stat root name = inl d -> nIsDir d = true ->
  NoDup (map nName (nChildren d)) -> In d1 (nChildren d) ->
  Stat root (name ++ [nName d1]) = inl d1.
Proof.
  intros Hs Hd Hnd Hin. rewrite Stat_app, Hs. cbn [Stat].
  rewrite Hd, (findChild_unique d1 _ Hnd Hin). reflexivity.
Qed.

Lemma uniqueNames_children (d : node) :
  uniqueNames d ->
  NoDup (map nName (nChildren d)) /\ Forall uniqueNames (nChildren d).
Proof.
  destruct d as [n isDir symlink info readErr children].
  cbn [uniqueNames nChildren]. intros [Hnd Hall]. split; [exact Hnd|].
  clear Hnd. induction children as [|c l IH]; constructor.
  - apply Hall.
  - apply IH, Hall.
Qed.

Section Located.

Context {St : Type}.
Variable fn : list string -> visit -> St -> option walkErr * St.
Variable root : node.

(** An invariant that the function keeps at the entries of the tree is
    kept by the walk of a tree whose sibling names differ. *)
Lemma walkDir_invariant_at (I : St -> Prop) :
  (forall name v s r s',
      visitAt root name v -> I s -> fn name v s = (r, s') -> I s') ->
  forall d name s r s',
    uniqueNames d -> Stat root name = inl d -> I s ->
    walkDir fn name d s = (r, s') -> I s'.
Proof.
  intros Hfn. induction d as [n isDir symlink info readErr children IH]
    using node_tree_ind.
  intros name s r s' Hu Hstat Hs.
  set (d := Node n isDir symlink info readErr children) in *.
  destruct (uniqueNames_children d Hu) as [Hnd Hall].
  cbn [nChildren d] in Hnd, Hall.
  assert (Hch : isDir = true -> forall l s r s',
             incl l children -> I s ->
             walkChildren fn name l s = (r, s') -> I s').
  { intros Hdir l. induction l as [|d1 rest IHrest];
      intros s0 r0 s0' Hincl Hs0; cbn [walkChildren].
    - intros [= _ <-]. exact Hs0.
    - assert (Hin : In d1 children) by (apply Hincl; left; reflexivity).
      assert (H1 : forall r1 s1,
                 walkDir fn (name ++ [nName d1]) d1 s0 = (r1, s1) -> I s1).
      { intros r1 s1. eapply (proj1 (List.Forall_forall _ _) IH d1 Hin).
        - exact (proj1 (List.Forall_forall _ _) Hall d1 Hin).
        - eapply Stat_child; [exact Hstat | exact Hdir | exact Hnd
                                | exact Hin].
        - exact Hs0. }
      destruct (walkDir fn _ d1 s0) as [[[|e]|] s1] eqn:Hw;
        try (intros [= _ <-]; eapply H1; reflexivity).
      intros H. eapply IHrest; [|eapply H1; reflexivity | exact H].
      intros x Hx. apply Hincl. right. exact Hx. }
  rewrite walkDir_eq. cbn [nIsDir nReadErr nChildren d].
  destruct (fn name _ s) as [[e|] s1] eqn:H1.
  { intros [= _ <-]. eapply Hfn; [|exact Hs|exact H1]. exact Hstat. }
  assert (Hs1 : I s1) by (eapply Hfn; [|exact Hs|exact H1]; exact Hstat).
  destruct isDir; cbn [negb]; [|intros [= _ <-]; exact Hs1].
  destruct readErr as [err|];
    [|apply Hch; [reflexivity | apply incl_refl | exact Hs1]].
  destruct (fn name _ s1) as [[e|] s2] eqn:H2.
  { intros [= _ <-]. eapply Hfn; [|exact Hs1|exact H2]. exact Hstat. }
  apply Hch; [reflexivity | apply incl_refl|].
  eapply Hfn; [|exact Hs1|exact H2]. exact Hstat.
Qed.

End Located.

Section Results.

Context {St : Type}.
Variable fn : list string -> visit -> St -> option walkErr * St.


Variable tick : St -> nat.
Variable ctx : nat -> bool.

Lemma observes_seq (s s1 s2 : St) (r1 r2 : option walkErr) :
  observes tick ctx s r1 s1 -> r1 <> Some (Fail ErrCanceled) ->
  observes tick ctx s1 r2 s2 -> observes tick ctx s r2 s2.
Proof.
  intros [Hle1 [H1|H1]] Hne [Hle2 H2]; [congruence|].
  split; [lia|]. destruct H2 as [H2|H2]; [left; exact H2|].
  right. intros k Hk. destruct (Nat.lt_ge_cases k (tick s1));
    [apply H1 | apply H2]; lia.
Qed.

Lemma observes_weaken (s s' : St) (r r' : option walkErr) :
  observes tick ctx s r s' -> (r = Some (Fail ErrCanceled) -> r' = r) ->
  observes tick ctx s r' s'.
Proof.
  intros [Hle [H|H]] Hr; split; auto. left. rewrite (Hr H). exact H.
Qed.

Lemma walkDir_observes :
  (forall name v s r s', fn name v s = (r, s') -> observes tick ctx s r s') ->
  forall d name s r s', walkDir fn name d s = (r, s') -> observes tick ctx s r s'.
Proof.
  intros Hfn. induction d as [n isDir symlink info readErr children IH]
    using node_tree_ind.
  assert (Hch : forall name s r s',
             walkChildren fn name children s = (r, s') -> observes tick ctx s r s').
  { clear -IH. induction IH as [|d1 rest Hd1 _ IHrest];
      intros name s r s'; cbn [walkChildren].
    - intros [= <- <-]. split; [lia|]. right. intros k Hk. lia.
    - destruct (walkDir fn _ d1 s) as [r1 s1] eqn:Hw.
      pose proof (Hd1 _ _ _ _ Hw) as Ho.
      destruct r1 as [[|e]|].
      + intros [= <- <-]. eapply observes_weaken; [exact Ho|discriminate].
      + intros [= <- <-]. exact Ho.
      + intros H. eapply observes_seq; [exact Ho | discriminate|].
        eapply IHrest. exact H. }
  intros name s r s'. rewrite walkDir_eq. cbn [nIsDir nReadErr nChildren].
  assert (Hsk : forall e0, e0 = Fail ErrCanceled ->
             skipped (Node n isDir symlink info readErr children) e0
             = Some e0).
  { intros e0 ->. reflexivity. }
  destruct (fn name _ s) as [r1 s1] eqn:H1.
  pose proof (Hfn _ _ _ _ _ H1) as Ho1.
  destruct r1 as [e1|].
  { intros [= <- <-]. eapply observes_weaken; [exact Ho1|].
    intros [= ->]. reflexivity. }
  destruct (negb isDir); [intros [= <- <-]; exact Ho1|].
  destruct readErr as [err|].
  - destruct (fn name _ s1) as [r2 s2] eqn:H2.
    pose proof (Hfn _ _ _ _ _ H2) as Ho2.
    destruct r2 as [e2|].
    + intros [= <- <-]. eapply observes_seq; [exact Ho1|discriminate|].
      eapply observes_weaken; [exact Ho2|]. intros [= ->]. reflexivity.
    + intros H. eapply observes_seq; [exact Ho1|discriminate|].
      eapply observes_seq; [exact Ho2|discriminate|]. apply (Hch name), H.
  - intros H. eapply observes_seq; [exact Ho1|discriminate|].
    apply (Hch name), H.
Qed.

End Results.

End Walk.

(** ** SizeAccumulator *)

Module SizeAccumulator.
Import Walk.

Lemma wrap64_inInt (z : Z) : inInt (wrap64 z).
Proof.
  unfold wrap64, wrapInt, inInt.
  pose proof (Z.mod_pos_bound (z + 2 ^ 63) (2 ^ 64) ltac:(lia)). lia.
Qed.

Lemma wrap64_small (z : Z) : inInt z -> wrap64 z = z.
Proof. apply Controller.wrapInt_small. Qed.

Lemma wrap64_add (a b c : Z) :
  wrap64 a = wrap64 b -> wrap64 (a + c) = wrap64 (b + c).
Proof.
  unfold wrap64, wrapInt. intros H.
  assert (Hm : (a + 2 ^ 63) mod 2 ^ 64 = (b + 2 ^ 63) mod 2 ^ 64) by lia.
  replace (a + c + 2 ^ 63) with ((a + 2 ^ 63) + c) by lia.
  replace (b + c + 2 ^ 63) with ((b + 2 ^ 63) + c) by lia.
  rewrite <- (Z.add_mod_idemp_l (a + 2 ^ 63)), Hm, Z.add_mod_idemp_l by lia.
  reflexivity.
Qed.

Lemma wrap64_idem (z : Z) : wrap64 (wrap64 z) = wrap64 z.
Proof. apply wrap64_small, wrap64_inInt. Qed.

Section Walk.

Variable ctx : nat -> bool.

Lemma dirSizeFn_inInt (name : list string) (v : visit) (st : Z * nat)
  (r : option walkErr) (st' : Z * nat) :
  inInt (fst st) -> dirSizeFn ctx name v st = (r, st') -> inInt (fst st').
Proof.
  destruct st as [size t]. unfold dirSizeFn. cbn [fst]. intros Hs.
  destruct (ctx t); [intros [= _ <-]; exact Hs|].
  destruct v as [d|e|d e]; try (intros [= _ <-]; exact Hs).
  destruct (nIsDir d).
  - destruct (nSymlink d); intros [= _ <-]; exact Hs.
  - destruct (nInfo d); intros [= _ <-]; [apply wrap64_inInt | exact Hs].
Qed.

(** When the size walk of an entry ends without error, the accumulator
    has grown by the total of the entry, up to the wrap-around of
    int64; and the walk never hands [SkipDir] up. *)
Lemma walkDir_dirSize (d : node) :
  forall name size t r size' t',
    walkDir (dirSizeFn ctx) name d (size, t) = (r, (size', t')) ->
    r <> Some SkipDir
    /\ (r = None -> wrap64 size' = wrap64 (size + entryTotal d)).
Proof.
  induction d as [n isDir symlink info readErr children IH]
    using node_tree_ind.
  assert (Hch : forall name size t r size' t',
    walkChildren (dirSizeFn ctx) name children (size, t)
      = (r, (size', t')) ->
    r <> Some SkipDir
    /\ (r = None ->
        wrap64 size' = wrap64 (size + sumZ (map entryTotal children)))).
  { clear -IH. induction IH as [|d1 rest Hd1 _ IHrest];
      intros name size t r size' t'; cbn [walkChildren map];
      change (sumZ (?x :: ?l)) with (x + sumZ l).
    - intros [= <- <- _]. split; [discriminate|]. intros _. f_equal.
      cbn. lia.
    - destruct (walkDir _ _ d1 (size, t)) as [r1 [size1 t1]] eqn:Hw.
      destruct (Hd1 _ _ _ _ _ _ Hw) as [Hns Hok].
      destruct r1 as [[|e]|]; [congruence| |].
      + intros [= <- _ _]. split; discriminate.
      + intros H. destruct (IHrest _ _ _ _ _ _ H) as [Hns' Hok'].
        split; [exact Hns'|]. intros Hr. rewrite (Hok' Hr).
        rewrite Z.add_assoc. apply wrap64_add, Hok. reflexivity. }
  intros name size t r size' t'. rewrite walkDir_eq.
  cbn [nIsDir nReadErr nChildren entryTotal].
  unfold dirSizeFn at 1. destruct (ctx t).
  { intros [= <- _ _]. split; discriminate. }
  cbn [nIsDir nSymlink nInfo]. destruct isDir; cbn [negb].
  - destruct symlink.
    + cbn [skipped nIsDir]. intros [= <- <- _]. split; [discriminate|].
      intros _. f_equal. lia.
    + destruct readErr as [err|]; [|apply Hch].
      unfold dirSizeFn. destruct (ctx (S t)); intros [= <- _ _];
        split; discriminate.
  - destruct info as [sz|e].
    + intros [= <- <- _]. split; [discriminate|]. intros _.
      apply wrap64_idem.
    + intros [= <- _ _]. split; discriminate.
Qed.

Lemma walkDir_dirSize_ok (d : node) :
  errorFree d = true -> (forall k, ctx k = false) ->
  forall name st, exists st',
    walkDir (dirSizeFn ctx) name d st = (None, st').
Proof.
  intros Hd Hctx. revert Hd.
  induction d as [n isDir symlink info readErr children IH]
    using node_tree_ind.
  intros Hd name [size t]. rewrite walkDir_eq.
  cbn [nIsDir nReadErr nChildren]. unfold dirSizeFn at 1.
  rewrite Hctx. cbn [nIsDir nSymlink nInfo]. cbn [errorFree] in Hd.
  destruct isDir; cbn [negb].
  - destruct symlink; [cbn; eauto|].
    destruct readErr as [err|]; [discriminate|].
    generalize (size, S t). clear -IH Hd.
    induction IH as [|d1 rest Hd1 _ IHrest]; intros st;
      cbn [walkChildren]; [eauto|].
    cbn [forallb] in Hd. apply andb_true_iff in Hd as [H1 H2].
    destruct (Hd1 H1 (name ++ [nName d1])%list st) as (st1 & ->).
    apply IHrest, H2.
  - destruct info as [sz|e]; [eauto | discriminate].
Qed.

Lemma dirSize_success (root : node) (relPath : list string) (d : node)
  (t : nat) (size : Z) (t' : nat) :
  Stat root relPath = inl d ->
  dirSize ctx (Some root) relPath t = (inl size, t') ->
  size = wrap64 (entryTotal d).
Proof.
  intros Hstat. unfold dirSize, WalkDir. rewrite Hstat.
  destruct (walkDir (dirSizeFn ctx) relPath d (0, t)) as [r [sz t1]] eqn:Hw.
  destruct (walkDir_dirSize d _ _ _ _ _ _ Hw) as [Hns Hok].
  assert (Hin : inInt sz).
  { apply (walkDir_invariant (dirSizeFn ctx) (fun st => inInt (fst st))
             dirSizeFn_inInt d relPath (0, t) r (sz, t1));
      [unfold inInt; cbn; lia | exact Hw]. }
  destruct r as [[|e]|]; [congruence|discriminate|].
  intros [= <- _]. rewrite <- (wrap64_small sz Hin). apply Hok. reflexivity.
Qed.

Lemma dirSize_total (root : node) (relPath : list string) (d : node)
  (t : nat) :
  Stat root relPath = inl d ->
  errorFree d = true -> (forall k, ctx k = false) ->
  exists t', dirSize ctx (Some root) relPath t
             = (inl (wrap64 (entryTotal d)), t').
Proof.
  intros Hstat Hd Hctx.
  destruct (walkDir_dirSize_ok d Hd Hctx relPath (0, t)) as ([sz t1] & Hw).
  pose proof (dirSize_success root relPath d t sz t1 Hstat) as Hs.
  unfold dirSize, WalkDir in *. rewrite Hstat, Hw in *.
  exists t1. rewrite <- Hs; reflexivity.
Qed.

Lemma dirSizeFn_observes (name : list string) (v : visit) (st : Z * nat)
  (r : option walkErr) (st' : Z * nat) :
  dirSizeFn ctx name v st = (r, st') -> observes snd ctx st r st'.
Proof.
  destruct st as [size t]. unfold dirSizeFn, observes.
  destruct (ctx t) eqn:Hc.
  - intros [= <- <-]. cbn. split; [lia | left; reflexivity].
  - intros H.
    assert (Ht : snd st' = S t).
    { destruct v as [d|e|d e]; try (injection H as _ <-; reflexivity).
      destruct (nIsDir d); [destruct (nSymlink d)|destruct (nInfo d)];
        injection H as _ <-; reflexivity. }
    cbn [snd]. rewrite Ht. split; [lia|]. right. intros k Hk.
    replace k with t by lia. exact Hc.
Qed.

(** [dirSize] moves the count of consultations forward, and unless it
    fails with the cancellation error the context was live at each of
    its consultations. *)
Lemma dirSize_observes (root : option node) (relPath : list string)
  (t : nat) (res : Z + error) (t' : nat) :
  dirSize ctx root relPath t = (res, t') ->
  (t <= t')%nat
  /\ (res = inr ErrCanceled
      \/ forall k, (t <= k < t')%nat -> ctx k = false).
Proof.
  unfold dirSize. destruct root as [r|].
  2:{ intros [= <- <-]. split; [lia|]. right. intros k Hk. lia. }
  unfold WalkDir.
  destruct (match Stat r relPath with
            | inl d => walkDir (dirSizeFn ctx) relPath d (0, t)
            | inr e => dirSizeFn ctx relPath (VStatErr e) (0, t)
            end) as [werr [size t1]] eqn:Hw.
  assert (Ho : observes snd ctx (0, t) werr (size, t1)).
  { destruct (Stat r relPath) as [d|e].
    - eapply walkDir_observes; [|exact Hw]. apply dirSizeFn_observes.
    - eapply dirSizeFn_observes. exact Hw. }
  destruct Ho as [Hle Ho]. cbn [snd] in Hle, Ho.
  destruct werr as [[|e]|]; intros [= <- <-]; (split; [exact Hle|]);
    destruct Ho as [Ho|Ho]; try discriminate; auto.
  injection Ho as ->. auto.
Qed.

End Walk.

End SizeAccumulator.

(** ** ScanStreamer *)

Module ScanStreamer.
Import Walk.

Ltac break_match :=
  match goal with
  | |- context [if ?c then _ else _] => destruct c eqn:?
  | |- context [match ?x with Some _ => _ | None => _ end] =>
      destruct x eqn:?
  | |- context [match ?x with inl _ => _ | inr _ => _ end] =>
      destruct x eqn:?
  | |- context [let (_, _) := ?x in _] => destruct x eqn:?
  end.

Section Scan.

Variable ctx : nat -> bool.
Variable due : nat -> bool.
Variable opts : ScanOptions.
Variable id : Z.

Local Abbreviation fn := (scanFn ctx due opts id).

Lemma rowPaths_app (a b : list Msg) :
  rowPaths (a ++ b) = (rowPaths a ++ rowPaths b)%list.
Proof. apply flat_map_app. Qed.

Lemma sendProgress_fields (force : bool) (s : scanState) :
  let s' := sendProgress due id force s in
  ssWarnings s' = ssWarnings s /\ ssVisited s' = ssVisited s
  /\ ssFound s' = ssFound s /\ ssTick s' = ssTick s
  /\ rowPaths (ssOut s') = rowPaths (ssOut s)
  /\ exists extra, ssOut s' = (ssOut s ++ extra)%list
                   /\ Forall (fun msg => exists v f,
                                msg = ScanProgressMsg id v f) extra.
Proof.
  unfold sendProgress. destruct (force || due (ssTick s)); cbn.
  - repeat split; auto.
    + rewrite rowPaths_app. cbn. apply app_nil_r.
    + eexists. split; [reflexivity|]. repeat constructor. eauto.
  - repeat split; auto. exists []. split; [symmetry; apply app_nil_r|].
    constructor.
Qed.

(** What one call of the scan function sends: no discovery id message, or,
    on a directory, the discovery id message of its path, and then the
    directory is skipped. *)
Lemma scanFn_rows (path : list string) (v : visit) (s : scanState)
  (r : option walkErr) (s' : scanState) :
  fn path v s = (r, s') ->
  rowPaths (ssOut s') = rowPaths (ssOut s)
  \/ (r = Some SkipDir
      /\ (exists d, v = VEntry d /\ nIsDir d = true)
      /\ rowPaths (ssOut s') = (rowPaths (ssOut s) ++ [pathString path])%list).
Proof.
  unfold scanFn. destruct (ctx (ssTick s)); [intros [= _ <-]; auto|].
  destruct v as [d|e|d e];
    try (destruct (isPermission e); intros [= _ <-]; auto).
  destruct (nIsDir d) eqn:Hd; [|intros [= _ <-]; auto].
  match goal with |- context [sendProgress due id false ?x] =>
    pose proof (sendProgress_fields false x) as Hsp;
    set (sp := sendProgress due id false x) in *
  end.
  cbv zeta in Hsp. destruct Hsp as (_ & _ & _ & _ & Hrows & _).
  cbn [ssOut setTick] in Hrows. clearbody sp.
  repeat (break_match; try (intros [= _ <-]; cbn [ssOut setTick addWarning];
                            left; exact Hrows)).
  intros [= <- <-]. right. split; [reflexivity|].
  split; [eauto|].
  match goal with |- context [sendProgress due id true ?x] =>
    destruct (sendProgress_fields true x) as (_ & _ & _ & _ & Hr2 & _) end.
  rewrite Hr2. cbn [ssOut setTick]. rewrite rowPaths_app, Hrows.
  reflexivity.
Qed.

(** *** Reported directories are leaves *)

Lemma antichain_app (a b : list (list string)) :
  antichain a -> antichain b ->
  (forall p q, In p a -> In q b -> ~ p `prefix_of` q /\ ~ q `prefix_of` p) ->
  antichain (a ++ b).
Proof.
  induction a as [|p a IH]; intros Ha Hb Hab; [exact Hb|].
  destruct Ha as [Hp Ha]. cbn [app antichain]. split.
  - apply Forall_app. split; [exact Hp|].
    apply List.Forall_forall. intros q Hq. apply Hab; [left; reflexivity|].
    exact Hq.
  - apply IH; [exact Ha | exact Hb|].
    intros p' q Hp' Hq. apply Hab; [right; exact Hp' | exact Hq].
Qed.

Lemma prefix_diverge (name x y : list string) (c1 c2 : string) :
  c1 <> c2 ->
  ~ (name ++ c1 :: x)%list `prefix_of` (name ++ c2 :: y)%list.
Proof.
  intros Hne Hp. apply prefix_app_inv in Hp.
  apply prefix_cons_inv_1 in Hp. contradiction.
Qed.

Lemma sendsRows_none (root : node) (name : list string)
  (s s' : scanState) :
  rowPaths (ssOut s') = rowPaths (ssOut s) -> sendsRows root name s s'.
Proof.
  intros H. exists []. cbn. rewrite app_nil_r. repeat split; auto.
Qed.

Lemma sendsRows_fn (root : node) (name : list string) (v : visit)
  (s : scanState) (r : option walkErr) (s' : scanState) :
  visitAt root name v ->
  fn name v s = (r, s') -> sendsRows root name s s'.
Proof.
  intros Hat H.
  destruct (scanFn_rows _ _ _ _ _ H) as [Hr|(_ & (d & -> & Hd) & Hr)].
  - apply sendsRows_none, Hr.
  - exists [name]. cbn. repeat split; eauto.
Qed.

Lemma walkDir_sendsRows (root : node) (d : node) :
  uniqueNames d ->
  forall name s r s',
    Stat root name = inl d ->
    walkDir fn name d s = (r, s') -> sendsRows root name s s'.
Proof.
  induction d as [n isDir symlink info readErr children IH]
    using node_tree_ind.
  intros Hu name.
  set (d := Node n isDir symlink info readErr children) in *.
  destruct (uniqueNames_children d Hu) as [Hnd Hall].
  cbn [nChildren d] in Hnd, Hall. clear Hu.
  intros s r s' Hstat.
  assert (Hch : isDir = true -> forall l s r s',
    incl l children -> NoDup (map nName l) ->
    walkChildren fn name l s = (r, s') ->
    exists ps,
      rowPaths (ssOut s') = (rowPaths (ssOut s) ++ map pathString ps)%list
      /\ Forall (fun p => (exists c x, In c (map nName l)
                                       /\ p = (name ++ c :: x)%list)
                          /\ exists d', Stat root p = inl d'
                                        /\ nIsDir d' = true) ps
      /\ antichain ps).
  { intros Hdir l. induction l as [|d1 rest IHrest];
      intros s0 r0 s0' Hincl Hndl; cbn [walkChildren].
    - intros [= _ <-]. exists []. cbn. rewrite app_nil_r. auto.
    - cbn [map] in Hndl. apply NoDup_cons in Hndl as [Hn1 Hndl].
      assert (Hin : In d1 children) by (apply Hincl; left; reflexivity).
      assert (Hrest : incl rest children).
      { intros x Hx. apply Hincl. right. exact Hx. }
      destruct (walkDir fn _ d1 s0) as [r1 s1] eqn:Hw.
      destruct (proj1 (List.Forall_forall _ _) IH d1 Hin
                  (proj1 (List.Forall_forall _ _) Hall d1 Hin)
                  _ _ _ _
                  (Stat_child root name d d1 Hstat Hdir Hnd Hin) Hw)
        as (ps1 & Hr1 & Hp1 & Ha1).
      assert (Hp1' : Forall (fun p =>
                 (exists c x, In c (map nName (d1 :: rest))
                              /\ p = (name ++ c :: x)%list)
                 /\ exists d', Stat root p = inl d' /\ nIsDir d' = true)
                 ps1).
      { eapply Forall_impl; [exact Hp1|]. intros p [[k ->] Hd'].
        split; [|exact Hd']. exists (nName d1), k.
        split; [left; reflexivity|]. rewrite <- app_assoc. reflexivity. }
      destruct r1 as [[|e]|]; try (intros [= _ <-]; exists ps1; auto).
      intros H.
      destruct (IHrest _ _ _ Hrest Hndl H) as (ps2 & Hr2 & Hp2 & Ha2).
      exists (ps1 ++ ps2)%list. split; [|split].
      + rewrite Hr2, Hr1, map_app, app_assoc. reflexivity.
      + apply Forall_app. split; [exact Hp1'|].
        eapply Forall_impl; [exact Hp2|].
        intros p [(c & x & Hc & ->) Hd']. split; [|exact Hd'].
        exists c, x. split; [right; exact Hc | reflexivity].
      + apply antichain_app; [exact Ha1 | exact Ha2|].
        intros p q Hp Hq.
        destruct (proj1 (List.Forall_forall _ _) Hp1 p Hp) as [[k ->] _].
        destruct (proj1 (List.Forall_forall _ _) Hp2 q Hq)
          as [(c & x & Hc & ->) _].
        assert (Hne : nName d1 <> c).
        { intros <-. apply Hn1, list_elem_of_In, Hc. }
        rewrite <- app_assoc. cbn [app].
        split; apply prefix_diverge; congruence. }
  rewrite walkDir_eq. cbn [nIsDir nReadErr nChildren d].
  assert (Hkids : isDir = true ->
            forall s1, rowPaths (ssOut s1) = rowPaths (ssOut s) ->
            walkChildren fn name children s1 = (r, s') ->
            sendsRows root name s s').
  { intros Hdir s1 Hs1 H.
    destruct (Hch Hdir _ _ _ _ (incl_refl _) Hnd H) as (ps & Hr & Hp & Ha).
    exists ps. rewrite <- Hs1. split; [exact Hr|]. split; [|exact Ha].
    eapply Forall_impl; [exact Hp|]. intros p [(c & x & _ & ->) Hd'].
    split; [|exact Hd']. exists (c :: x). reflexivity. }
  destruct (fn name _ s) as [[e|] s1] eqn:H1.
  { intros [= _ <-]. eapply sendsRows_fn; [|exact H1]. exact Hstat. }
  destruct (scanFn_rows _ _ _ _ _ H1) as [Hr1|(Hr1 & _)];
    [|discriminate].
  destruct isDir; cbn [negb];
    [|intros [= _ <-]; apply sendsRows_none, Hr1].
  destruct readErr as [err|]; [|apply Hkids; [reflexivity | exact Hr1]].
  destruct (fn name _ s1) as [[e|] s2] eqn:H2.
  - intros [= _ <-].
    destruct (scanFn_rows _ _ _ _ _ H2)
      as [Hr2|(_ & (d0 & Hd0 & _) & _)]; [|discriminate].
    apply sendsRows_none. congruence.
  - destruct (scanFn_rows _ _ _ _ _ H2) as [Hr2|(Hr2 & _)];
      [|discriminate].
    apply Hkids; [reflexivity | congruence].
Qed.

(** *** Failures and the context *)


Lemma scanFn_observes (path : list string) (v : visit) (s : scanState)
  (r : option walkErr) (s' : scanState) :
  fn path v s = (r, s') -> observes ssTick ctx s r s'.
Proof.
  unfold scanFn, observes. destruct (ctx (ssTick s)) eqn:Hc.
  { intros [= <- <-]. cbn. split; [lia | left; reflexivity]. }
  assert (Hone : forall k, (ssTick s <= k < S (ssTick s))%nat ->
                           ctx k = false).
  { intros k Hk. replace k with (ssTick s) by lia. exact Hc. }
  destruct v as [d|e0|d e0];
    try (destruct (isPermission e0); intros [= <- <-]; cbn; auto).
  destruct (nIsDir d); [|intros [= <- <-]; cbn; auto].
  match goal with |- context [sendProgress due id false ?x] =>
    pose proof (sendProgress_fields false x) as Hsp;
    set (sp := sendProgress due id false x) in *
  end.
  cbv zeta in Hsp. destruct Hsp as (_ & _ & _ & Ht & _).
  cbn [ssTick setTick] in Ht. clearbody sp.
  destruct (decide _); [intros [= <- <-]; rewrite Ht; auto|].
  destruct (nSymlink d); [intros [= <- <-]; rewrite Ht; auto|].
  destruct (_ && _); [intros [= <- <-]; rewrite Ht; auto|].
  destruct (Targets opts !! nName d); [|intros [= <- <-]; rewrite Ht; auto].
  destruct (dirSize ctx (RootHandle opts) path (ssTick sp))
    as [res t'] eqn:Hds.
  apply SizeAccumulator.dirSize_observes in Hds as [Hle Hd].
  rewrite Ht in Hle, Hd.
  assert (Hall : res <> inr ErrCanceled ->
            forall k, (ssTick s <= k < t')%nat -> ctx k = false).
  { intros Hres k Hk. destruct Hd as [Hd|Hd]; [congruence|].
    destruct (Nat.eq_dec k (ssTick s)) as [->|]; [exact Hc|apply Hd; lia]. }
  destruct res as [size|sizeErr].
  - intros [= <- <-].
    match goal with |- context [sendProgress due id true ?x] =>
      destruct (sendProgress_fields true x) as (_ & _ & _ & Ht2 & _);
      rewrite Ht2 end.
    cbn [ssTick setTick]. split; [lia|]. right. apply Hall. discriminate.
  - destruct (isPermission sizeErr) eqn:Hp; intros [= <- <-];
      cbn [ssTick setTick addWarning]; (split; [lia|]).
    + right. apply Hall. intros [= ->]. discriminate.
    + destruct sizeErr; auto; right; apply Hall; discriminate.
Qed.

(** *** One directory *)

Lemma counted_fields (s : scanState) :
  ssWarnings (counted due id s) = ssWarnings s
  /\ ssVisited (counted due id s) = incr (ssVisited s)
  /\ ssFound (counted due id s) = ssFound s
  /\ ssTick (counted due id s) = S (ssTick s)
  /\ rowPaths (ssOut (counted due id s)) = rowPaths (ssOut s)
  /\ exists pre, ssOut (counted due id s) = (ssOut s ++ pre)%list
                 /\ Forall (isProgress id) pre.
Proof.
  unfold counted.
  match goal with |- context [sendProgress due id false ?x] =>
    pose proof (sendProgress_fields false x) as H end.
  cbv zeta in H. exact H.
Qed.



Lemma scanFn_sentMsg (path : list string) (v : visit) (s : scanState)
  (r : option walkErr) (s' : scanState) :
  Forall sentMsg (ssOut s) ->
  fn path v s = (r, s') ->
  Forall sentMsg (ssOut s').
Proof.
  intros Hs. unfold scanFn.
  assert (Hsend : forall force x,
            Forall sentMsg (ssOut x) ->
            Forall sentMsg (ssOut (sendProgress due id force x))).
  { intros force x Hx. destruct (sendProgress_fields force x)
      as (_ & _ & _ & _ & _ & extra & -> & He).
    apply Forall_app. split; [exact Hx|].
    eapply Forall_impl; [exact He|]. intros msg (v0 & f & ->).
    split; reflexivity. }
  destruct (ctx (ssTick s)); [intros [= _ <-]; exact Hs|].
  destruct v as [d|e0|d e0];
    try (destruct (isPermission e0); intros [= _ <-]; exact Hs).
  destruct (nIsDir d); [|intros [= _ <-]; exact Hs].
  match goal with |- context [sendProgress due id false ?x] =>
    pose proof (Hsend false x Hs) as Hsp;
    set (sp := sendProgress due id false x) in *
  end.
  clearbody sp.
  repeat (break_match; try (intros [= _ <-]; exact Hsp)).
  intros [= _ <-]. apply Hsend. cbn [ssOut setTick].
  apply Forall_app. split; [exact Hsp|]. repeat constructor.
Qed.

(** Every message of a scan is as the controller expects a streamed
    message: the row of a discovery id is neither marked nor deleted. *)
Lemma runScanStream_asStreamed (elapsed : Z) :
  Forall asStreamed (runScanStream ctx due opts id elapsed).
Proof.
  unfold runScanStream. destruct (RootHandle opts) as [root|];
    [|repeat constructor].
  destruct (WalkDir fn root [] _) as [err s] eqn:Hw.
  apply Forall_app. split; [|repeat constructor].
  unfold sendProgress. cbn [orb ssOut].
  apply Forall_app. split; [|repeat constructor].
  unfold WalkDir in Hw. cbn [Stat] in Hw.
  destruct (walkDir fn [] root _) as [r s1] eqn:Hwd.
  injection Hw as _ <-.
  assert (H : Forall sentMsg (ssOut s1)).
  { refine (walkDir_invariant fn (fun s => Forall sentMsg (ssOut s))
              _ root [] _ r s1 _ Hwd); [|constructor].
    intros name v s0 r0 s0' Hs0 H. eapply scanFn_sentMsg; eassumption. }
  eapply Forall_impl; [exact H|]. intros msg [Hm _]. exact Hm.
Qed.

(** *** Permission errors and other errors *)





(** *** What the messages of a scan carry *)

Section Rooted.

Variable root : node.
Hypothesis Hroot : RootHandle opts = Some root.

Lemma sendProgress_walkMsg (force : bool) (s : scanState) :
  Forall (walkMsg opts id root) (ssOut s) ->
  Forall (walkMsg opts id root) (ssOut (sendProgress due id force s)).
Proof.
  intros H. destruct (sendProgress_fields force s)
    as (_ & _ & _ & _ & _ & extra & -> & He).
  apply Forall_app. split; [exact H|].
  eapply Forall_impl; [exact He|]. intros msg (v & f & ->). reflexivity.
Qed.

Lemma scanFn_walkMsg (path : list string) (v : visit) (s : scanState)
  (r : option walkErr) (s' : scanState) :
  visitAt root path v -> Forall (walkMsg opts id root) (ssOut s) ->
  fn path v s = (r, s') -> Forall (walkMsg opts id root) (ssOut s').
Proof.
  intros Hat Hs. unfold scanFn.
  destruct (ctx (ssTick s)); [intros [= _ <-]; exact Hs|].
  destruct v as [d|e0|d e0];
    try (destruct (isPermission e0); intros [= _ <-]; exact Hs).
  cbn [visitAt] in Hat.
  destruct (nIsDir d) eqn:Hdir; [|intros [= _ <-]; exact Hs].
  match goal with |- context [sendProgress due id false ?x] =>
    pose proof (sendProgress_walkMsg false x Hs) as Hsp;
    set (sp := sendProgress due id false x) in *
  end.
  clearbody sp.
  destruct (decide _); [intros [= _ <-]; exact Hsp|].
  destruct (nSymlink d) eqn:Hsym; [intros [= _ <-]; exact Hsp|].
  destruct (_ && _); [intros [= _ <-]; exact Hsp|].
  destruct (Targets opts !! nName d) as [def|] eqn:Hdef;
    [|intros [= _ <-]; exact Hsp].
  destruct (dirSize ctx (RootHandle opts) path (ssTick sp))
    as [res t'] eqn:Hds.
  destruct res as [size|sizeErr].
  - intros [= _ <-]. apply sendProgress_walkMsg. cbn [ssOut setTick].
    apply Forall_app. split; [exact Hsp|]. constructor; [|constructor].
    cbn. repeat split. exists path, d, def. repeat split; auto.
    rewrite Hroot in Hds.
    eapply SizeAccumulator.dirSize_success; eassumption.
  - destruct (isPermission sizeErr); intros [= _ <-]; exact Hsp.
Qed.

Lemma walk_walkMsg (err : option error) (s : scanState) :
  uniqueNames root ->
  WalkDir fn root [] (mkScanState [] 0 0 [] 0) = (err, s) ->
  Forall (walkMsg opts id root) (ssOut s).
Proof.
  intros Hu. unfold WalkDir. cbn [Stat].
  destruct (walkDir fn [] root _) as [r s1] eqn:Hw. intros [= _ <-].
  refine (walkDir_invariant_at fn root (fun s => Forall (walkMsg opts id root) (ssOut s))
            _ root [] _ r s1 Hu eq_refl _ Hw); [|constructor].
  intros name v s0 r0 s0' Hat Hs0 H. eapply scanFn_walkMsg; eassumption.
Qed.

(** The messages of a scan: those of the walk, a last progress message
    and the completion message. *)
Lemma runScanStream_shape (elapsed : Z) :
  let '(err, s) := WalkDir fn root [] (mkScanState [] 0 0 [] 0) in
  runScanStream ctx due opts id elapsed
  = (ssOut s ++
     [ScanProgressMsg id (ssVisited s) (ssFound s);
      ScanFinishedMsg id (ssWarnings s)
        (match err with
         | Some e => if isCanceled e then None else Some e
         | None => None
         end) elapsed (ssVisited s) (ssFound s)])%list.
Proof.
  unfold runScanStream. rewrite Hroot.
  destruct (WalkDir fn root [] _) as [err s].
  unfold sendProgress. cbn [orb ssOut ssWarnings ssVisited ssFound].
  rewrite <- app_assoc. reflexivity.
Qed.

Lemma antichain_NoDup (ps : list (list string)) : antichain ps -> NoDup ps.
Proof.
  induction ps as [|p ps IH]; [constructor|]. intros [Hp Ha].
  apply NoDup_cons. split; [|apply IH, Ha].
  intros Hin. apply list_elem_of_In in Hin.
  destruct (proj1 (List.Forall_forall _ _) Hp p Hin) as [Hpp _].
  apply Hpp. reflexivity.
Qed.




(** C5.  A call of the scan function that finds the context cancelled
    returns the cancellation error at once: nothing is counted, recorded
    or sent, and the walk of the entry ends there.  Every scan ends with
    one completion message, the only one, which never carries the
    cancellation error; and when the context was found cancelled at any
    consultation of the scan, the completion message carries no error. *)
Theorem cancellation_is_not_an_error :
  (forall path d s,
      ctx (ssTick s) = true ->
      fn path (VEntry d) s
      = (Some (Fail ErrCanceled), setTick (S (ssTick s)) s)
      /\ walkDir fn path d s
         = (Some (Fail ErrCanceled), setTick (S (ssTick s)) s))
  /\ (forall elapsed, exists pre ws err v f,
        runScanStream ctx due opts id elapsed
        = (pre ++ [ScanFinishedMsg id ws err elapsed v f])%list
        /\ Forall (fun msg => isFinished msg = false) pre
        /\ err <> Some ErrCanceled
        /\ ((exists k, (k < scanTicks ctx due opts id)%nat /\ ctx k = true)
            -> err = None)).
Proof.
  split.
  { intros path d s Hc.
    assert (Hfn : fn path (VEntry d) s
                  = (Some (Fail ErrCanceled), setTick (S (ssTick s)) s)).
    { unfold scanFn. rewrite Hc. reflexivity. }
    split; [exact Hfn|]. rewrite walkDir_eq, Hfn. reflexivity. }
  intros elapsed. pose proof (runScanStream_shape elapsed) as Hshape.
  unfold scanTicks. rewrite Hroot.
  destruct (WalkDir fn root [] _) as [werr s] eqn:Hw. cbn [snd].
  eexists _, _, _, _, _. split.
  { rewrite Hshape.
    change (?a ++ [?x; ?y])%list with (a ++ [x] ++ [y])%list.
    rewrite app_assoc. reflexivity. }
  unfold WalkDir in Hw. cbn [Stat] in Hw.
  destruct (walkDir fn [] root _) as [r s1] eqn:Hwd.
  injection Hw as <- <-.
  split; [|split].
  - apply Forall_app. split; [|repeat constructor].
    assert (H : Forall sentMsg (ssOut s1)).
    { refine (walkDir_invariant fn (fun s => Forall sentMsg (ssOut s))
                _ root [] _ r s1 _ Hwd); [|constructor].
      intros name v s0 r0 s0' Hs0 H. eapply scanFn_sentMsg; eassumption. }
    eapply Forall_impl; [exact H|]. intros msg [_ Hm]. exact Hm.
  - destruct r as [[|e]|]; try discriminate.
    destruct e; cbn; discriminate.
  - intros (k & Hk & Hck).
    destruct (walkDir_observes fn ssTick ctx scanFn_observes _ _ _ _ _ Hwd)
      as [_ [->|Hall]]; [reflexivity|].
    rewrite Hall in Hck; [discriminate|]. cbn. lia.
Qed.

End Rooted.

End Scan.

(** *** The size of a directory *)

Lemma entryTotal_regular (d : node) :
  noSymlinkFiles d = true -> entryTotal d = regularTotal d.
Proof.
  induction d as [n isDir symlink info readErr children IH]
    using node_tree_ind.
  cbn [noSymlinkFiles entryTotal regularTotal]. intros H.
  apply andb_true_iff in H as [H1 H2].
  destruct isDir.
  - destruct symlink; [reflexivity|]. f_equal.
    induction IH as [|c l Hc _ IHl]; [reflexivity|].
    cbn [forallb] in H2. apply andb_true_iff in H2 as [Hc2 Hl2].
    cbn [map]. rewrite (Hc Hc2), (IHl Hl2). reflexivity.
  - destruct symlink; [discriminate | reflexivity].
Qed.

(** C2, as the code has it.  When [dirSize] succeeds on a path of the
    tree it returns the total size of all entries below that are not
    directories, each at the size its [Info()] reports (regular files,
    and symbolic links and other special entries as well), a directory
    with the symlink bit being neither entered nor counted; the total is
    taken in int64.  It succeeds when no entry it reaches fails and the
    context is never cancelled.  On a tree without symbolic links among
    the files this is the total of the regular files.  The size of every
    discovery message of a scan is that total for the directory the
    message reports. *)
Theorem dirSize_sums_entries (ctx : nat -> bool) (root : node)
  (relPath : list string) (d : node) (t : nat) :
  Stat root relPath = inl d ->
  (forall size t',
      dirSize ctx (Some root) relPath t = (inl size, t') ->
      size = wrap64 (entryTotal d))
  /\ (errorFree d = true -> (forall k, ctx k = false) ->
      exists t', dirSize ctx (Some root) relPath t
                 = (inl (wrap64 (entryTotal d)), t'))
  /\ (inInt (entryTotal d) -> wrap64 (entryTotal d) = entryTotal d)
  /\ (noSymlinkFiles d = true -> entryTotal d = regularTotal d)
  /\ (forall due opts id elapsed i row,
        RootHandle opts = Some root -> uniqueNames root ->
        In (ScanRowMsg i row) (runScanStream ctx due opts id elapsed) ->
        exists p d',
          RelPath row = pathString p /\ Stat root p = inl d'
          /\ nIsDir d' = true
          /\ SizeBytes row = wrap64 (entryTotal d')).
Proof.
  intros Hstat.
  split; [intros size t'; apply SizeAccumulator.dirSize_success, Hstat|].
  split; [apply SizeAccumulator.dirSize_total, Hstat|].
  split; [apply SizeAccumulator.wrap64_small|].
  split; [apply entryTotal_regular|].
  intros due opts id elapsed i row Hroot Hu Hin.
  pose proof (runScanStream_shape ctx due opts id root Hroot elapsed)
    as Hshape.
  destruct (WalkDir (scanFn ctx due opts id) root [] _) as [err s] eqn:Hw.
  rewrite Hshape in Hin. apply in_app_or in Hin as [Hin|Hin].
  - pose proof (walk_walkMsg ctx due opts id root Hroot err s Hu Hw) as Hall.
    pose proof (proj1 (List.Forall_forall _ _) Hall _ Hin) as Hmsg.
    cbn in Hmsg.
    destruct Hmsg as (_ & _ & _ & _ & p & d' & def & Hp & Hs & Hd & _ & _
                      & _ & _ & Hsize).
    exists p, d'. auto.
  - destruct Hin as [H|[H|[]]]; discriminate.
Qed.

(** The claim as it is written, with the regular files only, fails on a
    directory that holds a symbolic link: the link's own size is
    counted. *)
Lemma dirSize_counts_links :
  ~ (forall (ctx : nat -> bool) (root : node) (relPath : list string)
            (d : node) (t : nat) (size : Z) (t' : nat),
        Stat root relPath = inl d ->
        errorFree d = true -> (forall k, ctx k = false) ->
        dirSize ctx (Some root) relPath t = (inl size, t') ->
        size = regularTotal d).
Proof.
  intros H.
  specialize (H neverCancelled linkTree ["node_modules"]
                (dir "node_modules"
                   [dir ".bin" [link "tool" 11]; file "index.js" 100])
                0%nat 111 4%nat eq_refl eq_refl (fun _ => eq_refl) eq_refl).
  discriminate H.
Qed.

End ScanStreamer.

(** * The scenarios of the specification *)

Module Scenarios.

Lemma scenario_uniqueNames : uniqueNames scenarioTree.
Proof.
  cbn. repeat split; apply (bool_decide_unpack _); vm_compute; exact I.
Qed.

Lemma locked_uniqueNames : uniqueNames lockedTree.
Proof.
  cbn. repeat split; apply (bool_decide_unpack _); vm_compute; exact I.
Qed.

(** The scan of the scenario: two rows, of 1024 and 2048 bytes. *)
Example scenario_scan :
  runScanStream neverCancelled neverDue scenarioOpts 1 0
  = [ScanRowMsg 1 (mkRow "proj/node_modules" "node_modules" "node" 1024
                     false false "");
     ScanProgressMsg 1 3 1;
     ScanRowMsg 1 (mkRow "proj/target" "target" "rust" 2048 false false "");
     ScanProgressMsg 1 4 2;
     ScanProgressMsg 1 4 2;
     ScanFinishedMsg 1 [] None 0 4 2].
Proof. vm_compute. reflexivity. Qed.

(** A directory that cannot be listed gives a warning; the scan goes on
    and reports the match beside it. *)
Example locked_scan :
  runScanStream neverCancelled neverDue lockedOpts 1 0
  = [ScanRowMsg 1 (mkRow "proj/target" "target" "rust" 2048 false false "");
     ScanProgressMsg 1 4 1;
     ScanProgressMsg 1 4 1;
     ScanFinishedMsg 1 ["permission denied: locked"] None 0 4 1].
Proof. vm_compute. reflexivity. Qed.

(** Cancelled at the third consultation: the first match is out, the
    completion message carries no error. *)
Example cancelled_scan :
  runScanStream (cancelledFrom 6) neverDue scenarioOpts 1 0
  = [ScanRowMsg 1 (mkRow "proj/node_modules" "node_modules" "node" 1024
                     false false "");
     ScanProgressMsg 1 3 1;
     ScanProgressMsg 1 3 1;
     ScanFinishedMsg 1 [] None 0 3 1].
Proof. vm_compute. reflexivity. Qed.

(** The delete request for "/etc" fails without a filesystem call. *)
Example delete_absolute_path :
  deleteCmd removePath true "/etc" (mkWorld ["etc"; "proj/target"] [])
  = (mkDeleteResult "/etc"
       (Some (ErrOther "delete: absolute paths are not allowed")),
     mkWorld ["etc"; "proj/target"] []).
Proof. reflexivity. Qed.

(** *** The theorems at the scenarios *)

Lemma dirSize_sums_entries_witness :
  Stat scenarioTree ["proj"; "node_modules"]
  = inl (dir "node_modules" [file "a.js" 100; file "b.js" 924])
  /\ exists t',
       dirSize neverCancelled (Some scenarioTree) ["proj"; "node_modules"] 0
       = (inl (wrap64 (entryTotal
                         (dir "node_modules"
                            [file "a.js" 100; file "b.js" 924]))), t').
Proof.
  split; [reflexivity|].
  apply (proj1 (proj2 (ScanStreamer.dirSize_sums_entries neverCancelled
                         scenarioTree ["proj"; "node_modules"]
                         (dir "node_modules"
                            [file "a.js" 100; file "b.js" 924])
                         0 eq_refl)));
    [reflexivity | intros k; reflexivity].
Defined.



Lemma cancellation_is_not_an_error_witness :
  RootHandle scenarioOpts = Some scenarioTree
  /\ exists pre ws err v f,
       runScanStream (cancelledFrom 6) neverDue scenarioOpts 1 0
       = (pre ++ [ScanFinishedMsg 1 ws err 0 v f])%list
       /\ Forall (fun msg => isFinished msg = false) pre
       /\ err <> Some ErrCanceled
       /\ ((exists k, (k < scanTicks (cancelledFrom 6) neverDue
                            scenarioOpts 1)%nat
                      /\ cancelledFrom 6 k = true)
           -> err = None).
Proof.
  split; [reflexivity|].
  apply (proj2 (ScanStreamer.cancellation_is_not_an_error (cancelledFrom 6)
                  neverDue scenarioOpts 1 scenarioTree eq_refl)).
Defined.

Lemma delete_queue_in_order_witness :
  let m := NewModel scenarioOpts false in
  let ps := ["proj/target"; "/etc"; "proj/node_modules"] in
  let bursts := [[]; [KeyMsg "a"; KeyMsg "D"]; [ScanPulseMsg]] in
  let w := mkWorld ["proj/target"; "proj/node_modules"] [] in
  (ps <> [] /\ deleting m = false /\ len ps < 2 ^ 63
   /\ length bursts = length ps
   /\ Forall (Forall (fun msg => isDeleteResult msg = false)) bursts)
  /\ exists p0 m1 out,
       head ps = Some p0
       /\ startDelete ps m = (m1, [CmdProgress; CmdDelete true p0])
       /\ runQueue asciiToLower lineKeys (list string) removePath bursts m1
            (true, p0) w
          = Some out
       /\ length (fst (deleteAll (list string) removePath true ps w))
          = length ps
       /\ Forall2 (fun p r => drPath r = resultPath p) ps
            (fst (deleteAll (list string) removePath true ps w))
       /\ match out with
          | Drained m' w' delivered =>
              delivered = fst (deleteAll (list string) removePath true ps w)
              /\ w' = snd (deleteAll (list string) removePath true ps w)
              /\ deleting m' = false
          | Stopped m' delivered =>
              exists k,
                (k < length ps)%nat
                /\ delivered
                   = firstn k
                       (fst (deleteAll (list string) removePath true ps w))
                /\ Exists (Exists (fun msg => isQuitKey msg = true)) bursts
          end
       /\ (Forall (Forall (fun msg => isQuitKey msg = false)) bursts ->
           exists m',
             out = Drained m'
                     (snd (deleteAll (list string) removePath true ps w))
                     (fst (deleteAll (list string) removePath true ps w))
             /\ deleting m' = false).
Proof.
  intros m ps bursts w.
  assert (H1 : ps <> []) by discriminate.
  assert (H2 : deleting m = false) by reflexivity.
  assert (H3 : len ps < 2 ^ 63) by (vm_compute; reflexivity).
  assert (H4 : length bursts = length ps) by reflexivity.
  assert (H5 : Forall (Forall (fun msg => isDeleteResult msg = false))
                 bursts)
    by (repeat constructor).
  split; [auto|].
  exact (Controller.delete_queue_in_order asciiToLower lineKeys
           (list string) removePath m ps bursts w H1 H2 H3 H4 H5).
Defined.

Lemma deletedModel_reachable : reachable asciiToLower lineKeys deletedModel.
Proof.
  assert (Hrun : forall msgs m m',
             reachable asciiToLower lineKeys m ->
             Forall asStreamed msgs ->
             run asciiToLower lineKeys m msgs = Some m' ->
             reachable asciiToLower lineKeys m').
  { induction msgs as [|msg msgs IH]; intros m m' Hm Hs; cbn [run].
    - intros [= <-]. exact Hm.
    - inversion Hs; subst.
      destruct (Update asciiToLower lineKeys m msg) as [[m1 c]|] eqn:Hu;
        [|discriminate].
      apply IH; [|assumption]. eapply reach_update; eassumption. }
  assert (Hsome : forall (o : option model) (dflt : model),
             match o with Some _ => true | None => false end = true ->
             o = Some (match o with Some m => m | None => dflt end)).
  { intros [m|] dflt H; [reflexivity | discriminate]. }
  apply (Hrun (scenarioRows ++
                 [KeyMsg "space"; KeyMsg "d";
                  DeleteResultMsg
                    (mkDeleteResult "proj/node_modules" None)])%list
           (NewModel scenarioOpts false) deletedModel).
  - apply reach_new.
  - repeat constructor.
  - unfold deletedModel. apply Hsome. vm_compute. reflexivity.
Qed.

Lemma deleted_rows_never_marked_witness :
  reachable asciiToLower lineKeys deletedModel
  /\ Forall (fun r => Deleted r = true -> Marked r = false)
       (rows deletedModel).
Proof.
  split; [exact deletedModel_reachable|].
  exact (proj1 (Controller.deleted_rows_never_marked asciiToLower lineKeys
                  deletedModel deletedModel_reachable)).
Defined.

Lemma confirm_negative_answer_witness :
  (active (confirm confirmingModel) = true
   /\ keyIn "n" ["n"; "N"; "esc"] = true)
  /\ Update asciiToLower lineKeys confirmingModel (KeyMsg "n")
     = Some (tableUpdate lineKeys (KeyMsg "n")
               (set_lastEvent "Deletion cancelled"
                  (set_confirm noConfirm confirmingModel)),
             [CmdTable]).
Proof.
  assert (H1 : active (confirm confirmingModel) = true)
    by (vm_compute; reflexivity).
  assert (H2 : keyIn "n" ["n"; "N"; "esc"] = true) by reflexivity.
  split; [auto|].
  exact (proj1 (Controller.confirm_negative_answer asciiToLower lineKeys
                  confirmingModel "n" H1 H2)).
Defined.

(** The scenario: both rows marked, bulk delete requested and answered
    "n"; both rows stay marked and not deleted. *)
Example confirm_negative_scenario :
  match Update asciiToLower lineKeys confirmingModel (KeyMsg "n") with
  | Some (m, cmds) =>
      map (fun r => (RelPath r, Marked r, Deleted r)) (rows m)
      = [("proj/node_modules", true, false); ("proj/target", true, false)]
      /\ paths (confirm confirmingModel)
         = ["proj/node_modules"; "proj/target"]
      /\ active (confirm m) = false /\ deleting m = false
      /\ cmds = [CmdTable]
  | None => False
  end.
Proof. vm_compute. repeat split; reflexivity. Qed.

Example deleted_model_rows :
  map (fun r => (RelPath r, Marked r, Deleted r)) (rows deletedModel)
  = [("proj/node_modules", false, true); ("proj/target", false, false)].
Proof. vm_compute. reflexivity. Qed.

(** A rescan during the first scan: the rows of generation 1 that are
    still on their way are dropped, the row of generation 2 is kept. *)
Example rescan_drops_stale_rows :
  match run asciiToLower lineKeys (NewModel scenarioOpts true)
          ([KeyMsg "r"] ++ scenarioRows ++
           [ScanRowMsg 2 (mkRow "proj/target" "target" "rust" 2048
                            false false "")]) with
  | Some m => scanID m = 2 /\ map RelPath (rows m) = ["proj/target"]
  | None => False
  end.
Proof. vm_compute. split; reflexivity. Qed.

(** A queue of three paths, the second one refused: three results in the
    order of the queue, and [RemoveAll] called for the other two only. *)
Example delete_queue_scenario :
  let w := mkWorld ["proj/target"; "proj/node_modules"] [] in
  let out :=
    deleteAll (list string) removePath true
      ["proj/target"; "/etc"; "proj/node_modules"] w in
  map drPath (fst out) = ["proj/target"; "/etc"; "proj/node_modules"]
  /\ map drErr (fst out)
     = [None; Some (ErrOther "delete: absolute paths are not allowed"); None]
  /\ wCalls (snd out) = ["proj/target"; "proj/node_modules"]
  /\ wFS (snd out) = [].
Proof. vm_compute. repeat split; reflexivity. Qed.

(** C9.  A deleted row is deleted again.  With confirmation on, the
    row under the cursor is requested and confirmed, so its deletion is
    in flight; the same row is requested once more, which opens the
    prompt with its path since the row is not deleted yet; the result of
    the first deletion arrives and the row is deleted; the answer "y"
    then starts a queue with the frozen path: [startDelete] does not
    look at the rows, and [RemoveAll] is called a second time on the path
    of the deleted row. *)
Theorem deleted_row_deleted_again :
  let p := "proj/node_modules" in
  let w := mkWorld ["proj/target"; "proj/node_modules"] [] in
  let Upd := Update asciiToLower lineKeys in
  match run asciiToLower lineKeys (NewModel scenarioOpts true)
          (scenarioRows ++ [KeyMsg "enter"]) with
  | None => False
  | Some m1 =>
  match Upd m1 (KeyMsg "y") with
  | None => False
  | Some (m2, cmds2) =>
  match Upd m2 (KeyMsg "enter") with
  | None => False
  | Some (m3, cmds3) =>
  let '(res, w') := deleteCmd removePath true p w in
  match Upd m3 (DeleteResultMsg res) with
  | None => False
  | Some (m4, cmds4) =>
  match Upd m4 (KeyMsg "y") with
  | None => False
  | Some (m5, cmds5) =>
      paths (confirm m1) = [p]
      /\ deleteCmds cmds2 = [(true, p)]
      /\ deleteCmds cmds3 = [] /\ paths (confirm m3) = [p]
      /\ res = mkDeleteResult p None /\ deleteCmds cmds4 = []
      /\ deleting m4 = false
      /\ map (fun r => (RelPath r, Marked r, Deleted r)) (rows m4)
         = [(p, false, true); ("proj/target", false, false)]
      /\ deleteCmds cmds5 = [(true, p)]
      /\ deleting m5 = true /\ deleteQueue m5 = [p]
      /\ wCalls (snd (deleteCmd removePath true p w')) = [p; p]
  end end end end end.
Proof. vm_compute. repeat split; reflexivity. Qed.

(** The same queue with the quit key pressed while the second deletion
    is in flight: the program ends with the first result only. *)
Example delete_queue_quit_scenario :
  match startDelete ["proj/target"; "/etc"; "proj/node_modules"]
          (NewModel scenarioOpts false) with
  | (m1, _) =>
      match runQueue asciiToLower lineKeys (list string) removePath
              [[]; [KeyMsg "q"]; [ScanPulseMsg]] m1 (true, "proj/target")
              (mkWorld ["proj/target"; "proj/node_modules"] []) with
      | Some (Stopped _ delivered) => map drPath delivered = ["proj/target"]
      | _ => False
      end
  end.
Proof. vm_compute. reflexivity. Qed.

End Scenarios.

(** * Further properties of the code *)

(** ** The target catalog *)

Module Targets.

Lemma defaultTargets_NoDup : NoDup (map tdName defaultTargets).
Proof. apply (bool_decide_unpack _). vm_compute. exact I. Qed.

Lemma fold_addDefault_other (defs : list TargetDef)
  (t : gmap string TargetDef) (k : string) :
  ~ In k (map tdName defs) -> fold_left addDefault defs t !! k = t !! k.
Proof.
  revert t. induction defs as [|x defs IH]; intros t Hk; [reflexivity|].
  cbn [fold_left]. rewrite IH.
  - unfold addDefault. apply lookup_insert_ne. intros Heq. apply Hk.
    left. exact Heq.
  - intros H. apply Hk. right. exact H.
Qed.

Lemma fold_addDefault_in (defs : list TargetDef)
  (t : gmap string TargetDef) (def : TargetDef) :
  NoDup (map tdName defs) -> In def defs ->
  fold_left addDefault defs t !! tdName def = Some def.
Proof.
  revert t. induction defs as [|x defs IH]; intros t Hnd Hin;
    [destruct Hin|].
  cbn [map] in Hnd. apply NoDup_cons in Hnd as [Hx Hnd]. cbn [fold_left].
  destruct Hin as [->|Hin].
  - rewrite fold_addDefault_other.
    + unfold addDefault. apply lookup_insert_eq.
    + intros H. apply Hx, list_elem_of_In, H.
  - apply IH; assumption.
Qed.

Lemma fold_addInclude_lookup (includes : list string)
  (t : gmap string TargetDef) (k : string) :
  fold_left addInclude includes t !! k
  = if bool_decide (k ∈ includes /\ k <> "")
    then Some (mkTargetDef k "custom") else t !! k.
Proof.
  revert t. induction includes as [|x includes IH]; intros t.
  - cbn [fold_left]. rewrite bool_decide_eq_false_2; [reflexivity|].
    intros [H _]. inversion H.
  - cbn [fold_left]. rewrite IH.
    destruct (bool_decide (k ∈ includes /\ k <> "")) eqn:Hb.
    + apply bool_decide_eq_true_1 in Hb as [Hin Hne].
      rewrite bool_decide_eq_true_2; [reflexivity|].
      split; [right; exact Hin | exact Hne].
    + apply bool_decide_eq_false_1 in Hb. unfold addInclude.
      destruct (String.eqb_spec x "") as [->|Hx].
      * rewrite bool_decide_eq_false_2; [reflexivity|].
        intros [Hin Hne]. apply elem_of_cons in Hin as [->|Hin];
          [congruence|]. apply Hb. auto.
      * destruct (decide (x = k)) as [->|Hxk].
        -- rewrite lookup_insert_eq, bool_decide_eq_true_2; [reflexivity|].
           split; [left | exact Hx].
        -- rewrite lookup_insert_ne by exact Hxk.
           rewrite bool_decide_eq_false_2; [reflexivity|].
           intros [Hin Hne]. apply elem_of_cons in Hin as [->|Hin];
             [congruence|]. apply Hb. auto.
Qed.

Lemma fold_dropExclude_lookup (excludes : list string)
  (t : gmap string TargetDef) (k : string) :
  fold_left dropExclude excludes t !! k
  = if bool_decide (k ∈ excludes) then None else t !! k.
Proof.
  revert t. induction excludes as [|x excludes IH]; intros t.
  - cbn [fold_left]. rewrite bool_decide_eq_false_2; [reflexivity|].
    intros H. inversion H.
  - cbn [fold_left]. rewrite IH.
    destruct (bool_decide (k ∈ excludes)) eqn:Hb.
    + apply bool_decide_eq_true_1 in Hb.
      rewrite bool_decide_eq_true_2; [reflexivity | right; exact Hb].
    + apply bool_decide_eq_false_1 in Hb. unfold dropExclude.
      destruct (decide (x = k)) as [->|Hxk].
      * rewrite lookup_delete_eq, bool_decide_eq_true_2;
          [reflexivity | left].
      * rewrite lookup_delete_ne by exact Hxk.
        rewrite bool_decide_eq_false_2; [reflexivity|].
        intros Hin. apply elem_of_cons in Hin as [->|Hin];
          [congruence | contradiction].
Qed.

Lemma buildTargetMapWithList_eq (includes excludes : list string)
  (k : string) :
  buildTargetMapWithList includes excludes !! k
  = if bool_decide (k ∈ excludes) then None
    else if bool_decide (k ∈ includes /\ k <> "")
         then Some (mkTargetDef k "custom")
         else fold_left addDefault defaultTargets ∅ !! k.
Proof.
  unfold buildTargetMapWithList.
  rewrite fold_dropExclude_lookup, fold_addInclude_lookup. reflexivity.
Qed.

Lemma fold_addDefault_named (defs : list TargetDef)
  (t : gmap string TargetDef) :
  (forall k def, t !! k = Some def -> tdName def = k) ->
  forall k def, fold_left addDefault defs t !! k = Some def ->
                tdName def = k.
Proof.
  revert t. induction defs as [|x defs IH]; intros t Ht; [exact Ht|].
  cbn [fold_left]. apply IH. intros k def. unfold addDefault.
  destruct (decide (tdName x = k)) as [Heq|Hne].
  - rewrite <- Heq, lookup_insert_eq. intros [= <-]. reflexivity.
  - rewrite lookup_insert_ne by exact Hne. apply Ht.
Qed.

(** X1.  The catalog built from an include and an exclude list: an
    excluded name is never in it, whether default or included; an
    included name that is not empty and not excluded is a custom target,
    also when it is a default name; any other name has what the defaults
    give it; the empty name is never a target. *)
Theorem buildTargetMapWithList_lookup (includes excludes : list string)
  (k : string) :
  let targets := buildTargetMapWithList includes excludes in
  let defaults := fold_left addDefault defaultTargets ∅ in
  (In k excludes -> targets !! k = None)
  /\ (~ In k excludes -> In k includes -> k <> "" ->
      targets !! k = Some (mkTargetDef k "custom"))
  /\ (~ In k excludes -> ~ In k includes -> targets !! k = defaults !! k)
  /\ targets !! "" = None.
Proof.
  intros targets defaults. subst targets defaults.
  split; [|split; [|split]].
  - intros Hex. rewrite buildTargetMapWithList_eq, bool_decide_eq_true_2;
      [reflexivity | apply list_elem_of_In, Hex].
  - intros Hex Hin Hne. rewrite buildTargetMapWithList_eq.
    rewrite bool_decide_eq_false_2
      by (intros H; apply Hex, list_elem_of_In, H).
    rewrite bool_decide_eq_true_2; [reflexivity|].
    split; [apply list_elem_of_In, Hin | exact Hne].
  - intros Hex Hin. rewrite buildTargetMapWithList_eq.
    rewrite bool_decide_eq_false_2
      by (intros H; apply Hex, list_elem_of_In, H).
    rewrite bool_decide_eq_false_2; [reflexivity|].
    intros [H _]. apply Hin, list_elem_of_In, H.
  - rewrite buildTargetMapWithList_eq.
    destruct (bool_decide ("" ∈ excludes)); [reflexivity|].
    rewrite bool_decide_eq_false_2 by (intros [_ H]; congruence).
    rewrite fold_addDefault_other; [apply lookup_empty|].
    intros H. apply list_elem_of_In in H. revert H.
    apply (bool_decide_unpack _). vm_compute. exact I.
Qed.

(** X2.  Every entry of the catalog carries its own key as name, and a
    default target that is neither included nor excluded is in the
    catalog as the defaults list it. *)
Theorem buildTargetMapWithList_entries (includes excludes : list string) :
  let targets := buildTargetMapWithList includes excludes in
  (forall k def, targets !! k = Some def -> tdName def = k)
  /\ (forall def, In def defaultTargets ->
        ~ In (tdName def) excludes -> ~ In (tdName def) includes ->
        targets !! tdName def = Some def).
Proof.
  intros targets. subst targets. split.
  - intros k def. rewrite buildTargetMapWithList_eq.
    destruct (bool_decide (k ∈ excludes)); [discriminate|].
    destruct (bool_decide (k ∈ includes /\ k <> ""));
      [intros [= <-]; reflexivity|].
    apply fold_addDefault_named. intros k' def'.
    rewrite lookup_empty. discriminate.
  - intros def Hin Hex Hinc. rewrite buildTargetMapWithList_eq.
    rewrite bool_decide_eq_false_2
      by (intros H; apply Hex, list_elem_of_In, H).
    rewrite bool_decide_eq_false_2
      by (intros [H _]; apply Hinc, list_elem_of_In, H).
    apply fold_addDefault_in; [apply defaultTargets_NoDup | exact Hin].
Qed.

(** *** The comma-separated lists of the command line *)

Lemma splitComma_nonnil (s : string) : splitComma s <> [].
Proof.
  induction s as [|c s IH]; cbn [splitComma]; [discriminate|].
  destruct (Ascii.eqb c ","); [discriminate|].
  destruct (splitComma s); discriminate.
Qed.

Lemma splitComma_noComma (s : string) :
  Forall (fun part => noComma part = true) (splitComma s).
Proof.
  induction s as [|c s IH]; cbn [splitComma].
  - repeat constructor.
  - destruct (Ascii.eqb c ",") eqn:Ec.
    + constructor; [reflexivity | exact IH].
    + destruct (splitComma s) as [|h t].
      * repeat constructor. cbn. rewrite Ec. reflexivity.
      * apply Forall_cons in IH as [Hh Ht].
        constructor; [|exact Ht]. cbn. rewrite Ec. exact Hh.
Qed.

Lemma splitComma_plain (e : string) :
  noComma e = true -> splitComma e = [e].
Proof.
  induction e as [|c e IH]; cbn; [reflexivity|].
  destruct (Ascii.eqb c ","); [discriminate|]. cbn. intros H.
  rewrite (IH H). reflexivity.
Qed.

Lemma splitComma_app (e rest : string) :
  noComma e = true ->
  splitComma (e ++ "," ++ rest) = e :: splitComma rest.
Proof.
  induction e as [|c e IH]; [reflexivity|]. intros H. cbn in H.
  destruct (Ascii.eqb c ",") eqn:Ec; [discriminate|].
  specialize (IH H). simpl in *. rewrite Ec, IH. reflexivity.
Qed.

Lemma splitComma_joinComma (names : list string) :
  names <> [] -> Forall (fun n => noComma n = true) names ->
  splitComma (joinComma names) = names.
Proof.
  induction names as [|e names IH]; [congruence|]. intros _ Hall.
  apply Forall_cons in Hall as [He Hall].
  destruct names as [|e' names].
  - cbn. apply splitComma_plain, He.
  - change (joinComma (e :: e' :: names))
      with (e ++ "," ++ joinComma (e' :: names)).
    rewrite splitComma_app by exact He. f_equal.
    apply IH; [discriminate | exact Hall].
Qed.

Lemma joinComma_splitComma (raw : string) :
  joinComma (splitComma raw) = raw.
Proof.
  induction raw as [|c raw IH]; [reflexivity|]. cbn [splitComma].
  destruct (Ascii.eqb_spec c ",") as [->|Hc].
  - pose proof (splitComma_nonnil raw) as Hn.
    destruct (splitComma raw) as [|h t]; [congruence|].
    change (joinComma ("" :: h :: t)) with ("" ++ "," ++ joinComma (h :: t)).
    rewrite IH. reflexivity.
  - pose proof (splitComma_nonnil raw) as Hn.
    destruct (splitComma raw) as [|h t]; [congruence|].
    destruct t as [|h' t].
    + cbn in *. rewrite IH. reflexivity.
    + change (joinComma (String c h :: h' :: t))
        with (String c (h ++ "," ++ joinComma (h' :: t))).
      change (joinComma (h :: h' :: t))
        with (h ++ "," ++ joinComma (h' :: t)) in IH.
      rewrite IH. reflexivity.
Qed.

Section ParseTargets.

Variable TrimSpace : string -> string.

(** X3.  Parsing a comma-separated list: no item is empty, and every
    item is the trimmed form of one of the pieces between the commas of
    the input, which is the pieces joined by commas again.  A list of
    names that are not empty, hold no comma and have no space to trim
    comes back unchanged from its comma-joined form; the empty input is
    the empty list. *)
Theorem parseTargetList_spec :
  (forall raw,
     Forall (fun item => item <> "") (parseTargetList TrimSpace raw)
     /\ joinComma (splitComma raw) = raw
     /\ forall item, In item (parseTargetList TrimSpace raw) ->
          exists part, In part (splitComma raw)
                       /\ noComma part = true /\ item = TrimSpace part)
  /\ (forall names,
        Forall (fun n => n <> "" /\ noComma n = true /\ TrimSpace n = n)
          names ->
        parseTargetList TrimSpace (joinComma names) = names).
Proof.
  split.
  - intros raw. unfold parseTargetList.
    destruct (String.eqb raw "") eqn:Eraw.
    + split; [constructor|]. split; [apply joinComma_splitComma|].
      intros item [].
    + split; [|split; [apply joinComma_splitComma|]].
      * apply List.Forall_forall. intros item Hin.
        apply List.filter_In in Hin as [_ Hne].
        destruct (String.eqb_spec item ""); [discriminate | assumption].
      * intros item Hin. apply List.filter_In in Hin as [Hin _].
        apply List.in_map_iff in Hin as (part & <- & Hin).
        exists part. split; [exact Hin|]. split; [|reflexivity].
        pose proof (splitComma_noComma raw) as Hall.
        rewrite List.Forall_forall in Hall. apply Hall, Hin.
  - intros names Hall. unfold parseTargetList.
    destruct names as [|e names]; [reflexivity|].
    assert (Hraw : joinComma (e :: names) <> "").
    { apply Forall_cons in Hall as [(He & _ & _) _].
      destruct e as [|c e]; [congruence|].
      destruct names; cbn; discriminate. }
    destruct (String.eqb_spec (joinComma (e :: names)) "") as [|_];
      [congruence|].
    rewrite splitComma_joinComma.
    + clear Hraw.
      induction Hall as [|x l (Hx & _ & Ht) _ IH]; [reflexivity|].
      cbn [map List.filter]. rewrite Ht.
      destruct (String.eqb_spec x ""); [congruence|]. cbn [negb].
      f_equal. exact IH.
    + discriminate.
    + eapply Forall_impl; [exact Hall|]. intros n (_ & Hn & _). exact Hn.
Qed.

End ParseTargets.

Example parseTargetList_example :
  parseTargetList asciiTrimSpace " dist, ,target ,," = ["dist"; "target"]
  /\ parseTargetList asciiTrimSpace "" = []
  /\ parseTargetList asciiTrimSpace (joinComma ["dist"; "target"])
     = ["dist"; "target"].
Proof. repeat split. Qed.

(** *** The sorted names *)

Lemma ltb_total (a b : string) :
  String.ltb a b = false -> String.ltb b a = false -> a = b.
Proof.
  intros Hab Hba.
  destruct (String_as_OT.compare_spec a b) as [Heq|Hlt|Hgt].
  - exact Heq.
  - apply Sorting.ltb_lt in Hlt. congruence.
  - apply Sorting.ltb_lt in Hgt. congruence.
Qed.

Lemma ordered_NoDup_ascending (l : list string) :
  ordered String.ltb l -> NoDup l ->
  StronglySorted (fun a b => String.ltb a b = true) l.
Proof.
  unfold ordered. induction 1 as [|a l Hl IH Ha]; intros Hnd;
    [constructor|].
  apply NoDup_cons in Hnd as [Hnot Hnd]. constructor; [apply IH, Hnd|].
  apply List.Forall_forall. intros b Hb.
  rewrite List.Forall_forall in Ha.
  destruct (String.ltb a b) eqn:E; [reflexivity|]. exfalso.
  apply Hnot. rewrite (ltb_total a b E (Ha b Hb)).
  apply list_elem_of_In, Hb.
Qed.

Lemma ascending_unique (l1 l2 : list string) :
  StronglySorted (fun a b => String.ltb a b = true) l1 ->
  StronglySorted (fun a b => String.ltb a b = true) l2 ->
  Permutation l1 l2 -> l1 = l2.
Proof.
  intros H1. revert l2.
  induction H1 as [|a l1 Hl1 IH Ha]; intros l2 H2 Hp.
  - apply Permutation_nil in Hp. congruence.
  - destruct H2 as [|b l2 Hl2 Hb].
    { apply Permutation_sym, Permutation_nil in Hp. discriminate. }
    assert (Heq : a = b).
    { assert (Hina : In a (b :: l2))
        by (eapply Permutation_in; [exact Hp | left; reflexivity]).
      assert (Hinb : In b (a :: l1))
        by (eapply Permutation_in;
            [apply Permutation_sym, Hp | left; reflexivity]).
      destruct Hina as [->|Hina]; [reflexivity|].
      destruct Hinb as [->|Hinb]; [reflexivity|].
      rewrite List.Forall_forall in Ha, Hb.
      pose proof (Sorting.ltb_trans a b a (Ha b Hinb) (Hb a Hina)) as Hc.
      rewrite Sorting.ltb_irrefl in Hc. discriminate. }
    subst b. f_equal. apply IH; [exact Hl2|].
    eapply Permutation_cons_inv, Hp.
Qed.

Lemma sortStrings_ordered (l : list string) :
  ordered String.ltb (sortStrings l).
Proof.
  apply Sorting.sliceStable_ordered.
  - apply Sorting.ltb_irrefl.
  - apply Sorting.ltb_trans.
  - apply Sorting.ltb_negtrans.
Qed.

Lemma keys_NoDup (targets : gmap string TargetDef) :
  NoDup (map fst (map_to_list targets)).
Proof.
  exact (NoDup_fst_map_to_list targets).
Qed.

(** X4.  The sorted names of a catalog are strictly ascending, so
    without repetition; they are exactly the keys of the catalog; and
    they do not depend on the order in which the map hands out its
    keys. *)
Theorem sortedTargetNames_spec (targets : gmap string TargetDef) :
  let names := sortedTargetNames targets in
  StronglySorted (fun a b => String.ltb a b = true) names
  /\ (forall k, In k names <-> is_Some (targets !! k))
  /\ (forall keys, Permutation keys (map fst (map_to_list targets)) ->
        sortStrings keys = names).
Proof.
  intros names.
  assert (Hperm : Permutation names (map fst (map_to_list targets)))
    by apply Sorting.sliceStable_perm.
  assert (Hasc : forall keys,
             Permutation keys (map fst (map_to_list targets)) ->
             StronglySorted (fun a b => String.ltb a b = true)
               (sortStrings keys)).
  { intros keys Hk. apply ordered_NoDup_ascending.
    - apply sortStrings_ordered.
    - assert (Hp : Permutation (sortStrings keys)
                     (map fst (map_to_list targets)))
        by (etransitivity; [apply Sorting.sliceStable_perm | exact Hk]).
      rewrite Hp. apply keys_NoDup. }
  split; [|split].
  - apply Hasc. reflexivity.
  - intros k. split.
    + intros Hin. eapply Permutation_in in Hin; [|exact Hperm].
      apply List.in_map_iff in Hin as ([k' def] & <- & Hin).
      apply list_elem_of_In, elem_of_map_to_list in Hin.
      exists def. exact Hin.
    + intros [def Hdef].
      eapply Permutation_in; [apply Permutation_sym, Hperm|].
      apply List.in_map_iff. exists (k, def). split; [reflexivity|].
      apply list_elem_of_In, elem_of_map_to_list, Hdef.
  - intros keys Hk. apply ascending_unique.
    + apply Hasc, Hk.
    + apply Hasc. reflexivity.
    + etransitivity; [apply Sorting.sliceStable_perm|].
      etransitivity; [exact Hk|]. apply Permutation_sym, Hperm.
Qed.

End Targets.

(** ** Configuration *)

Module Configuration.

Lemma fold_addSkip_elem (extra : list string) (base : gset string)
  (k : string) :
  k ∈ fold_left addSkip extra base <-> k ∈ base \/ (In k extra /\ k <> "").
Proof.
  revert base. induction extra as [|x extra IH]; intros base.
  - cbn. split; [auto | intros [H|[[] _]]; exact H].
  - cbn [fold_left]. rewrite IH. unfold addSkip.
    destruct (String.eqb_spec x "") as [->|Hx].
    + split.
      * intros [H|[H Hne]]; [left; exact H | right; split; [right|]; auto].
      * intros [H|[[<-|H] Hne]]; [left; exact H | congruence | right; auto].
    + rewrite elem_of_union, elem_of_singleton. split.
      * intros [[->|H]|[H Hne]].
        -- right. split; [left; reflexivity | exact Hx].
        -- left. exact H.
        -- right. split; [right; exact H | exact Hne].
      * intros [H|[[<-|H] Hne]].
        -- left. right. exact H.
        -- left. left. reflexivity.
        -- right. split; assumption.
Qed.

Lemma skipSet_mergeSkipDirs (base : option (gset string))
  (extra : list string) (k : string) :
  k ∈ skipSet (mergeSkipDirs base extra)
  <-> k ∈ skipSet base \/ (In k extra /\ k <> "").
Proof.
  destruct extra as [|x extra].
  - cbn. split; [auto | intros [H|[[] _]]; exact H].
  - unfold mergeSkipDirs, skipSet at 1. rewrite fold_addSkip_elem.
    destruct base; reflexivity.
Qed.

(** X5.  Merging the configured names into the skip set: a name is
    skipped afterwards exactly when it was skipped before or is a
    configured name that is not empty.  With no configured name the
    given map comes back as it is, also when it is nil; with at least one
    the result is a map, also when all the names are empty. *)
Theorem mergeSkipDirs_spec (base : option (gset string))
  (extra : list string) :
  (forall k, k ∈ skipSet (mergeSkipDirs base extra)
             <-> k ∈ skipSet base \/ (In k extra /\ k <> ""))
  /\ mergeSkipDirs base [] = base
  /\ (extra <> [] -> mergeSkipDirs base extra <> None).
Proof.
  split; [|split].
  - intros k. apply skipSet_mergeSkipDirs.
  - reflexivity.
  - destruct extra; [congruence | discriminate].
Qed.

End Configuration.

(** ** Paths of the scan *)

Module ScanPaths.

Import Filepath.

Lemma plainName_fields (n : string) :
  plainName n = true ->
  n <> "" /\ n <> "." /\ n <> ".." /\ noSlash n = true.
Proof.
  unfold plainName. rewrite !andb_true_iff, !negb_true_iff.
  intros [[[H1 H2] H3] H4].
  apply String.eqb_neq in H1, H2, H3. auto.
Qed.

Lemma splitSlash_nonnil (s : string) : splitSlash s <> [].
Proof.
  induction s as [|c s IH]; cbn [splitSlash]; [discriminate|].
  destruct (isSep c); [discriminate|].
  destruct (splitSlash s); discriminate.
Qed.

Lemma splitSlash_plain (e : string) :
  noSlash e = true -> splitSlash e = [e].
Proof.
  induction e as [|c e IH]; [reflexivity|]. intros H. cbn in H.
  destruct (isSep c) eqn:Ec; [discriminate|]. specialize (IH H).
  simpl in *. rewrite Ec, IH. reflexivity.
Qed.

Lemma splitSlash_app (e rest : string) :
  noSlash e = true ->
  splitSlash (e ++ "/" ++ rest) = e :: splitSlash rest.
Proof.
  induction e as [|c e IH]; [reflexivity|]. intros H. cbn in H.
  destruct (isSep c) eqn:Ec; [discriminate|]. specialize (IH H).
  simpl in *. rewrite Ec, IH. reflexivity.
Qed.

Lemma splitSlash_joinSlash (p : list string) :
  p <> [] -> Forall (fun n => noSlash n = true) p ->
  splitSlash (joinSlash p) = p.
Proof.
  induction p as [|e p IH]; [congruence|]. intros _ Hall.
  apply Forall_cons in Hall as [He Hall].
  destruct p as [|e' p].
  - cbn. apply splitSlash_plain, He.
  - change (joinSlash (e :: e' :: p))
      with (e ++ "/" ++ joinSlash (e' :: p)).
    rewrite splitSlash_app by exact He. f_equal.
    apply IH; [discriminate | exact Hall].
Qed.

Lemma fold_cleanElem_names (rooted : bool) (p out : list string) :
  Forall (fun n => plainName n = true) p ->
  fold_left (cleanElem rooted) p out = (rev p ++ out)%list.
Proof.
  intros Hall. revert out.
  induction Hall as [|e p He _ IH]; intros out; [reflexivity|].
  apply plainName_fields in He as (H1 & H2 & H3 & _).
  cbn [fold_left rev]. rewrite IH, <- app_assoc. cbn [app]. f_equal.
  unfold cleanElem.
  apply String.eqb_neq in H1, H2, H3. rewrite H1, H2, H3. reflexivity.
Qed.

Lemma joinSlash_head (e : string) (p : list string) :
  exists tail, joinSlash (e :: p) = e ++ tail
               /\ (p <> [] -> exists t, tail = String "/" t).
Proof.
  destruct p as [|e' p].
  - exists "". split; [|congruence]. cbn.
    induction e as [|c e IH]; [reflexivity|].
    change (String c e = String c (e ++ "")). f_equal. exact IH.
  - exists ("/" ++ joinSlash (e' :: p)). split; [reflexivity|].
    intros _. eexists. reflexivity.
Qed.

Lemma joinSlash_plain (p : list string) :
  p <> [] -> Forall (fun n => plainName n = true) p ->
  joinSlash p <> "" /\ joinSlash p <> "." /\ IsAbs (joinSlash p) = false
  /\ forall rest, joinSlash p <> String "." (String "/" rest).
Proof.
  destruct p as [|e p]; [congruence|]. intros _ Hall.
  apply Forall_cons in Hall as [He _].
  apply plainName_fields in He as (H1 & H2 & _ & H4).
  destruct (joinSlash_head e p) as (tail & -> & Htail).
  destruct e as [|c e]; [congruence|]. cbn in H4.
  apply andb_true_iff in H4 as [Hc He]. apply negb_true_iff in Hc.
  cbn [append IsAbs]. split; [discriminate|]. split; [|split].
  - intros [= -> Hemp]. destruct e as [|c' e]; [|discriminate].
    destruct p as [|e' p].
    + congruence.
    + destruct Htail as [t ->]; [discriminate|]. discriminate.
  - exact Hc.
  - intros rest [= -> Hrest]. destruct e as [|c' e].
    + congruence.
    + cbn in Hrest, He. injection Hrest as -> _. discriminate.
Qed.

Lemma plain_noSlash (p : list string) :
  Forall (fun n => plainName n = true) p ->
  Forall (fun n => noSlash n = true) p.
Proof.
  intros H. eapply Forall_impl; [exact H|]. intros n Hn.
  apply plainName_fields in Hn. tauto.
Qed.

Lemma Clean_plain (p : list string) :
  p <> [] -> Forall (fun n => plainName n = true) p ->
  Clean (joinSlash p) = joinSlash p.
Proof.
  intros Hne Hall.
  destruct (joinSlash_plain p Hne Hall) as (H1 & _ & H3 & _).
  apply String.eqb_neq in H1. unfold Clean. rewrite H1, H3.
  rewrite splitSlash_joinSlash by (try apply plain_noSlash; assumption).
  rewrite fold_cleanElem_names by exact Hall.
  rewrite app_nil_r, rev_involutive, H1. reflexivity.
Qed.

Lemma validateDeletePath_plain (p : list string) :
  p <> [] -> Forall (fun n => plainName n = true) p ->
  validateDeletePath (pathString p) = inl (pathString p).
Proof.
  intros Hne Hall.
  destruct (joinSlash_plain p Hne Hall) as (H1 & H2 & H3 & _).
  assert (Hs : pathString p = joinSlash p) by (destruct p; [congruence | reflexivity]).
  rewrite Hs. unfold validateDeletePath.
  rewrite (Clean_plain p Hne Hall), H3.
  apply String.eqb_neq in H1, H2. rewrite H1, H2.
  destruct (String.eqb_spec (joinSlash p) Separator) as [He|_];
    [|reflexivity].
  rewrite He in H3. discriminate.
Qed.

(** X6.  A path of plain names, as the scan builds it from the names of
    the directory listings, passes the guard of the delete command
    unchanged, and the command then calls [RemoveAll] once, on that very
    path, and reports that path; the path of the root itself is
    refused and nothing is removed. *)
Theorem deleteCmd_scan_path (p : list string) :
  Forall (fun n => plainName n = true) p ->
  forall (FS : Type) (RemoveAll : FS -> string -> FS * option error)
         (w : World FS),
    match p with
    | [] =>
        deleteCmd RemoveAll true (pathString p) w
        = (mkDeleteResult "."
             (Some (ErrOther "delete: refusing to delete root")), w)
    | _ =>
        validateDeletePath (pathString p) = inl (pathString p)
        /\ deleteCmd RemoveAll true (pathString p) w
           = (mkDeleteResult (pathString p)
                (snd (RemoveAll (wFS w) (pathString p))),
              mkWorld (fst (RemoveAll (wFS w) (pathString p)))
                (wCalls w ++ [pathString p]))
    end.
Proof.
  intros Hall FS RemoveAll w. destruct p as [|e p]; [reflexivity|].
  assert (Hv := validateDeletePath_plain (e :: p) ltac:(discriminate) Hall).
  split; [exact Hv|]. unfold deleteCmd. rewrite Hv. cbn [negb].
  unfold callRemoveAll. destruct (RemoveAll (wFS w) _) as [fs' err].
  reflexivity.
Qed.

Lemma trimDotSlash_other (s : string) :
  (forall rest, s <> String "." (String "/" rest)) -> trimDotSlash s = s.
Proof.
  intros H. destruct s as [|c [|c2 rest]]; try reflexivity.
  - destruct c as [[] [] [] [] [] [] [] []]; reflexivity.
  - destruct c as [[] [] [] [] [] [] [] []]; try reflexivity.
    destruct c2 as [[] [] [] [] [] [] [] []]; try reflexivity.
    exfalso. apply (H rest). reflexivity.
Qed.

Lemma countSlash_app (a b : string) :
  countSlash (a ++ b) = countSlash a + countSlash b.
Proof.
  induction a as [|c a IH]; [reflexivity|].
  change (countSlash (String c (a ++ b))
          = countSlash (String c a) + countSlash b).
  cbn [countSlash]. rewrite IH. lia.
Qed.

Lemma countSlash_noSlash (e : string) :
  noSlash e = true -> countSlash e = 0.
Proof.
  induction e as [|c e IH]; [reflexivity|]. cbn [noSlash countSlash].
  intros H. apply andb_true_iff in H as [Hc He].
  apply negb_true_iff in Hc. rewrite Hc, (IH He). reflexivity.
Qed.

Lemma countSlash_joinSlash (e : string) (p : list string) :
  Forall (fun n => noSlash n = true) (e :: p) ->
  countSlash (joinSlash (e :: p)) = len p.
Proof.
  revert e. induction p as [|e' p IH]; intros e Hall;
    apply Forall_cons in Hall as [He Hall].
  - cbn [joinSlash]. apply countSlash_noSlash, He.
  - change (joinSlash (e :: e' :: p))
      with (e ++ "/" ++ joinSlash (e' :: p)).
    rewrite !countSlash_app, (countSlash_noSlash e He), (IH e' Hall).
    unfold len. cbn [countSlash length]. cbn. lia.
Qed.

(** X7.  The depth of a directory whose path has [k] plain names is
    [k - 1]: the entries of the root are at depth 0, as is the root
    itself. *)
Theorem relativeDepth_plain (p : list string) :
  Forall (fun n => plainName n = true) p ->
  relativeDepth (pathString p) = Z.of_nat (Nat.pred (length p)).
Proof.
  intros Hall. destruct p as [|e p]; [reflexivity|].
  destruct (joinSlash_plain (e :: p) ltac:(discriminate) Hall)
    as (H1 & H2 & _ & H4).
  unfold relativeDepth, pathString.
  rewrite (trimDotSlash_other _ H4). cbv zeta.
  apply String.eqb_neq in H1, H2. rewrite H1, H2. cbn [orb].
  rewrite countSlash_joinSlash by (apply plain_noSlash, Hall).
  reflexivity.
Qed.

Lemma pathString_inj (p q : list string) :
  Forall (fun n => plainName n = true) p ->
  Forall (fun n => plainName n = true) q ->
  pathString p = pathString q -> p = q.
Proof.
  intros Hp Hq Heq. destruct p as [|e p], q as [|e' q]; [reflexivity| | |].
  - destruct (joinSlash_plain (e' :: q) ltac:(discriminate) Hq)
      as (_ & H & _). exfalso. apply H. symmetry. exact Heq.
  - destruct (joinSlash_plain (e :: p) ltac:(discriminate) Hp)
      as (_ & H & _). exfalso. apply H. exact Heq.
  - rewrite <- (splitSlash_joinSlash (e :: p)),
      <- (splitSlash_joinSlash (e' :: q));
      try discriminate; try (apply plain_noSlash; assumption).
    unfold pathString in Heq. rewrite Heq. reflexivity.
Qed.

End ScanPaths.

(** ** Pruning and counting in the scan *)

Module ScanCounters.

Lemma in_rowsOf (row : rowData) (out : list Msg) :
  In row (rowsOf out) <-> exists i, In (ScanRowMsg i row) out.
Proof.
  unfold rowsOf. rewrite in_flat_map. split.
  - intros (msg & Hin & Hrow). destruct msg; cbn in Hrow;
      try contradiction.
    destruct Hrow as [<-|[]]. eexists. exact Hin.
  - intros (i & Hin). exists (ScanRowMsg i row).
    split; [exact Hin | left; reflexivity].
Qed.

Lemma rowsOf_app (a b : list Msg) :
  rowsOf (a ++ b) = (rowsOf a ++ rowsOf b)%list.
Proof. apply flat_map_app. Qed.

Lemma rowPaths_rowsOf (out : list Msg) :
  rowPaths out = map RelPath (rowsOf out).
Proof.
  induction out as [|msg out IH]; [reflexivity|].
  unfold rowPaths, rowsOf in *. cbn [flat_map]. rewrite map_app, IH.
  destruct msg; reflexivity.
Qed.

Lemma Stat_plain (p : list string) (root d : node) :
  plainTree root = true -> Stat root p = inl d ->
  Forall (fun n => plainName n = true) p /\ plainTree d = true.
Proof.
  revert root. induction p as [|c p IH]; intros root Hpl.
  - intros [= <-]. split; [constructor | exact Hpl].
  - cbn [Stat]. destruct (negb (nIsDir root)); [discriminate|].
    destruct (findChild c (nChildren root)) as [n|] eqn:Hf; [|discriminate].
    intros Hs. unfold findChild in Hf. apply find_some in Hf as [Hin Hn].
    apply String.eqb_eq in Hn. destruct root as [? ? ? ? ? children].
    cbn [plainTree nChildren] in Hpl, Hin.
    rewrite forallb_forall in Hpl. specialize (Hpl n Hin).
    apply andb_true_iff in Hpl as [Hname Hsub].
    destruct (IH n Hsub Hs) as [Hp Hd]. split; [|exact Hd].
    constructor; [rewrite <- Hn; exact Hname | exact Hp].
Qed.

Section Scan.

Variable ctx : nat -> bool.
Variable due : nat -> bool.
Variable opts : ScanOptions.
Variable id : Z.

Local Abbreviation fn := (scanFn ctx due opts id).

Lemma scanFn_pruned (path : list string) (d : node) (s : scanState) :
  ctx (ssTick s) = false -> nIsDir d = true -> pruned opts path d ->
  fn path (VEntry d) s = (Some SkipDir, counted due id s).
Proof.
  intros Hc Hd Hp. unfold scanFn. rewrite Hc, Hd. cbv zeta.
  fold (counted due id s).
  destruct (decide (nName d ∈ SkipDirs opts)) as [|Hn]; [reflexivity|].
  destruct (nSymlink d) eqn:Hs; [reflexivity|].
  destruct Hp as [Hp|[Hp|Hp]]; [contradiction | congruence|].
  rewrite Hp. reflexivity.
Qed.

(** X8.  A directory whose name is in the skip set, which is a symbolic
    link, or which lies deeper than a positive maximum depth is counted
    as visited and left at once: nothing below it is visited, no
    discovery is sent and no warning recorded for it, also when its name
    is in the catalog or it could not be listed; the walk goes on with
    its siblings. *)
Theorem pruned_directory_is_passed (path : list string) (d : node)
  (s : scanState) :
  ctx (ssTick s) = false -> nIsDir d = true -> pruned opts path d ->
  let s' := counted due id s in
  walkDir fn path d s = (None, s')
  /\ ssVisited s' = incr (ssVisited s) /\ ssFound s' = ssFound s
  /\ ssWarnings s' = ssWarnings s /\ ssTick s' = S (ssTick s)
  /\ rowsOf (ssOut s') = rowsOf (ssOut s).
Proof.
  intros Hc Hd Hp s'. split.
  - rewrite Walk.walkDir_eq, (scanFn_pruned path d s Hc Hd Hp).
    unfold skipped. rewrite Hd. reflexivity.
  - destruct (ScanStreamer.counted_fields due id s)
      as (Hw & Hv & Hf & Ht & _ & pre & Hout & Hpre).
    repeat (split; [assumption|]). subst s'. rewrite Hout, rowsOf_app.
    rewrite <- (app_nil_r (rowsOf (ssOut s))) at 2. f_equal.
    clear Hout. induction Hpre as [|msg pre (v & f & ->) _ IH];
      [reflexivity | exact IH].
Qed.

Lemma sendProgress_foundCount (force : bool) (s : scanState) :
  foundCount s -> foundCount (sendProgress due id force s).
Proof.
  unfold foundCount, sendProgress. intros H.
  destruct (force || due (ssTick s)); [|exact H].
  cbn [ssFound ssOut]. rewrite rowsOf_app. cbn [rowsOf flat_map].
  rewrite app_nil_r. exact H.
Qed.

Lemma scanFn_foundCount (path : list string) (v : visit) (s : scanState)
  (r : option walkErr) (s' : scanState) :
  foundCount s -> fn path v s = (r, s') -> foundCount s'.
Proof.
  intros Hs. unfold scanFn.
  destruct (ctx (ssTick s)); [intros [= _ <-]; exact Hs|].
  destruct v as [d|e|d e];
    try (destruct (isPermission e); intros [= _ <-]; exact Hs).
  destruct (nIsDir d); [|intros [= _ <-]; exact Hs].
  match goal with |- context [sendProgress due id false ?x] =>
    assert (Hsp : foundCount (sendProgress due id false x))
      by (apply sendProgress_foundCount; exact Hs);
    set (sp := sendProgress due id false x) in *
  end.
  clearbody sp.
  repeat (ScanStreamer.break_match;
          try (intros [= _ <-]; exact Hsp)).
  intros [= _ <-]. apply sendProgress_foundCount.
  unfold foundCount in *. cbn [ssFound ssOut setTick].
  rewrite rowsOf_app. unfold len in *. rewrite length_app.
  cbn [rowsOf flat_map length app]. unfold incr. rewrite Hsp.
  rewrite Nat2Z.inj_add.
  apply (SizeAccumulator.wrap64_add (wrapInt _) _ 1).
  apply SizeAccumulator.wrap64_idem.
Qed.

Lemma sendProgress_streamMsg (force : bool) (s : scanState) :
  Forall (streamMsg id) (ssOut s) ->
  Forall (streamMsg id) (ssOut (sendProgress due id force s)).
Proof.
  unfold sendProgress. intros H.
  destruct (force || due (ssTick s)); [|exact H].
  cbn [ssOut]. apply Forall_app. split; [exact H|].
  repeat constructor.
Qed.

Lemma scanFn_streamMsg (path : list string) (v : visit) (s : scanState)
  (r : option walkErr) (s' : scanState) :
  Forall (streamMsg id) (ssOut s) -> fn path v s = (r, s') ->
  Forall (streamMsg id) (ssOut s').
Proof.
  intros Hs. unfold scanFn.
  destruct (ctx (ssTick s)); [intros [= _ <-]; exact Hs|].
  destruct v as [d|e|d e];
    try (destruct (isPermission e); intros [= _ <-]; exact Hs).
  destruct (nIsDir d); [|intros [= _ <-]; exact Hs].
  match goal with |- context [sendProgress due id false ?x] =>
    assert (Hsp : Forall (streamMsg id) (ssOut (sendProgress due id false x)))
      by (apply sendProgress_streamMsg; exact Hs);
    set (sp := sendProgress due id false x) in *
  end.
  clearbody sp.
  repeat (ScanStreamer.break_match;
          try (intros [= _ <-]; exact Hsp)).
  intros [= _ <-]. apply sendProgress_streamMsg.
  cbn [ssOut setTick]. apply Forall_app. split; [exact Hsp|].
  repeat constructor.
Qed.

Lemma walk_counts (root : node) (err : option error) (s : scanState) :
  WalkDir fn root [] (mkScanState [] 0 0 [] 0) = (err, s) ->
  foundCount s /\ Forall (streamMsg id) (ssOut s).
Proof.
  unfold WalkDir. cbn [Stat].
  destruct (walkDir fn [] root _) as [r s1] eqn:Hw. intros [= _ <-].
  refine (Walk.walkDir_invariant fn
            (fun s => foundCount s /\ Forall (streamMsg id) (ssOut s))
            _ root [] _ r s1 _ Hw).
  - intros name v s0 r0 s0' [Hf Hm] H. split.
    + eapply scanFn_foundCount; eassumption.
    + eapply scanFn_streamMsg; eassumption.
  - split; [reflexivity | constructor].
Qed.

(** The messages of a scan, with or without a root handle: messages of
    the stream, then the completion message, whose count of found
    directories is the number of rows sent. *)
Lemma runScanStream_stream (elapsed : Z) :
  exists pre ws e el v f,
    runScanStream ctx due opts id elapsed
    = (pre ++ [ScanFinishedMsg id ws e el v f])%list
    /\ Forall (streamMsg id) pre
    /\ f = wrapInt (len (rowsOf pre))
    /\ rowsOf (runScanStream ctx due opts id elapsed) = rowsOf pre.
Proof.
  destruct (RootHandle opts) as [root|] eqn:Hroot.
  - pose proof (ScanStreamer.runScanStream_shape ctx due opts id root Hroot
                  elapsed) as Hshape.
    destruct (WalkDir fn root [] _) as [err s] eqn:Hwalk.
    destruct (walk_counts root err s Hwalk) as [Hf Hm].
    exists (ssOut s ++ [ScanProgressMsg id (ssVisited s) (ssFound s)])%list.
    exists (ssWarnings s). eexists. exists elapsed, (ssVisited s), (ssFound s).
    assert (Hrows : rowsOf (ssOut s ++
                      [ScanProgressMsg id (ssVisited s) (ssFound s)])
                    = rowsOf (ssOut s))
      by (rewrite rowsOf_app; apply app_nil_r).
    split; [rewrite Hshape, <- app_assoc; reflexivity|].
    split; [apply Forall_app; split; [exact Hm | repeat constructor]|].
    split; [rewrite Hrows; exact Hf|].
    rewrite Hshape, !rowsOf_app. cbn [rowsOf flat_map app].
    rewrite !app_nil_r. reflexivity.
  - unfold runScanStream. rewrite Hroot.
    exists [], [], (Some (ErrOther "scan: root handle is nil")), 0, 0, 0.
    repeat split. constructor.
Qed.

Section Rooted.

Variable root : node.
Hypothesis Hroot : RootHandle opts = Some root.

(** X9.  The count of found directories that the last progress message
    and the completion message of a scan carry is the number of
    discovery messages the scan sent before them, as a Go int. *)
Theorem scan_found_is_row_count (elapsed : Z) :
  exists pre ws err v f,
    runScanStream ctx due opts id elapsed
    = (pre ++ [ScanProgressMsg id v f;
               ScanFinishedMsg id ws err elapsed v f])%list
    /\ f = wrapInt (len (rowsOf pre))
    /\ rowsOf (runScanStream ctx due opts id elapsed) = rowsOf pre.
Proof.
  pose proof (ScanStreamer.runScanStream_shape ctx due opts id root Hroot
                elapsed) as Hshape.
  destruct (WalkDir fn root [] _) as [err s] eqn:Hwalk.
  exists (ssOut s), (ssWarnings s). eexists. exists (ssVisited s), (ssFound s).
  split; [exact Hshape|]. split.
  - unfold WalkDir in Hwalk. cbn [Stat] in Hwalk.
    destruct (walkDir fn [] root _) as [r s1] eqn:Hw.
    injection Hwalk as _ <-.
    refine (Walk.walkDir_invariant fn foundCount _ root [] _ r s1 _ Hw).
    + intros name v s0 r0 s0' Hs0 H. eapply scanFn_foundCount; eassumption.
    + reflexivity.
  - rewrite Hshape, rowsOf_app. cbn [rowsOf flat_map app].
    apply app_nil_r.
Qed.

(** X10.  On a tree whose entries have plain names, every row a scan
    discovers is accepted by the guard of the delete command with its
    path unchanged, except a row for the root itself, whose path is
    ".". *)
Theorem scan_rows_pass_guard (elapsed : Z) (row : rowData) :
  uniqueNames root -> plainTree root = true ->
  In row (rowsOf (runScanStream ctx due opts id elapsed)) ->
  RelPath row = "." \/ validateDeletePath (RelPath row) = inl (RelPath row).
Proof.
  intros Hu Hpl Hin.
  pose proof (ScanStreamer.runScanStream_shape ctx due opts id root Hroot
                elapsed) as Hshape.
  destruct (WalkDir fn root [] _) as [err s] eqn:Hwalk.
  pose proof (ScanStreamer.walk_walkMsg ctx due opts id root Hroot err s Hu
                Hwalk) as Hall.
  rewrite Hshape, rowsOf_app in Hin. cbn [rowsOf flat_map app] in Hin.
  rewrite app_nil_r in Hin. apply in_rowsOf in Hin as [i Hin].
  rewrite List.Forall_forall in Hall. specialize (Hall _ Hin).
  cbn [walkMsg] in Hall.
  destruct Hall as (_ & _ & _ & _ & q & d & def & Hrel & Hstat & _).
  destruct (Stat_plain q root d Hpl Hstat) as [Hq _]. rewrite Hrel.
  destruct q as [|e q]; [left; reflexivity | right].
  apply ScanPaths.validateDeletePath_plain; [discriminate | exact Hq].
Qed.

(** X19.  On a tree whose entries have plain names, different within
    each directory, the rows a scan discovers have pairwise different
    paths. *)
Theorem scan_paths_unique (elapsed : Z) :
  uniqueNames root -> plainTree root = true ->
  NoDup (map RelPath (rowsOf (runScanStream ctx due opts id elapsed))).
Proof.
  intros Hu Hpl. rewrite <- rowPaths_rowsOf.
  pose proof (ScanStreamer.runScanStream_shape ctx due opts id root Hroot
                elapsed) as Hshape.
  unfold WalkDir in Hshape. cbn [Stat] in Hshape.
  destruct (walkDir fn [] root _) as [r s] eqn:Hw.
  destruct (ScanStreamer.walkDir_sendsRows ctx due opts id root root Hu
              [] _ _ _ eq_refl Hw) as (ps & Hr & Hp & Ha).
  rewrite Hshape, ScanStreamer.rowPaths_app, Hr. cbn.
  rewrite app_nil_r.
  apply (NoDup_fmap_2_strong pathString ps);
    [|apply ScanStreamer.antichain_NoDup, Ha].
  rewrite List.Forall_forall in Hp.
  intros x y Hx Hy Heq.
  destruct (Hp x (proj1 (list_elem_of_In _ _) Hx)) as (_ & dx & Hdx & _).
  destruct (Hp y (proj1 (list_elem_of_In _ _) Hy)) as (_ & dy & Hdy & _).
  apply ScanPaths.pathString_inj; [| |exact Heq].
  - apply (Stat_plain x root dx Hpl Hdx).
  - apply (Stat_plain y root dy Hpl Hdy).
Qed.

End Rooted.

End Scan.

End ScanCounters.

(** ** The rows of the table *)

Module Table.

Lemma findRowFrom_spec (rs : list rowData) (path : string) (k : nat) :
  match findRowFrom rs path k with
  | Some idx =>
      exists i r, idx = (k + i)%nat /\ rs !! i = Some r /\ RelPath r = path
                  /\ forall j r', (j < i)%nat -> rs !! j = Some r' ->
                                  RelPath r' <> path
  | None => forall r, In r rs -> RelPath r <> path
  end.
Proof.
  revert k. induction rs as [|row rest IH]; intros k; cbn [findRowFrom].
  - intros r [].
  - destruct (String.eqb_spec (RelPath row) path) as [He|Hne].
    + exists 0%nat, row. repeat split; [lia | exact He|]. intros j r' Hj. lia.
    + specialize (IH (S k)). destruct (findRowFrom rest path (S k)).
      * destruct IH as (i & r & -> & Hi & Hr & Hbefore).
        exists (S i), r. repeat split; [lia | exact Hi | exact Hr|].
        intros [|j] r' Hj; cbn; [intros [= <-]; exact Hne|].
        apply Hbefore. lia.
      * intros r [<-|Hin]; [exact Hne | apply IH, Hin].
Qed.

(** X11.  [findRow] gives the position of the first row of that path,
    and reports a missing path exactly when no row has it. *)
Theorem findRow_first (m : model) (path : string) :
  match findRow m path with
  | Some idx =>
      exists r, rows m !! idx = Some r /\ RelPath r = path
                /\ forall j r', (j < idx)%nat -> rows m !! j = Some r' ->
                                RelPath r' <> path
  | None => forall r, In r (rows m) -> RelPath r <> path
  end.
Proof.
  unfold findRow. pose proof (findRowFrom_spec (rows m) path 0) as H.
  destruct (findRowFrom (rows m) path 0); [|exact H].
  destruct H as (i & r & -> & H). exists r. exact H.
Qed.

Lemma findRowFrom_paths (rs rs' : list rowData) (path : string) (k : nat) :
  map RelPath rs = map RelPath rs' ->
  findRowFrom rs path k = findRowFrom rs' path k.
Proof.
  revert rs' k. induction rs as [|r rs IH]; intros [|r' rs'] k; cbn;
    try discriminate; [reflexivity|].
  intros [= Hr Hrs]. rewrite Hr. destruct (String.eqb (RelPath r') path);
    [reflexivity | apply IH, Hrs].
Qed.

Lemma map_alter_same {A B : Type} (f : A -> B) (g : A -> A) (i : nat)
  (l : list A) :
  (forall x, f (g x) = f x) -> map f (alter g i l) = map f l.
Proof.
  intros H. revert i. induction l as [|x l IH]; intros [|i]; cbn;
    try reflexivity.
  - rewrite H. reflexivity.
  - f_equal. apply IH.
Qed.

Lemma setTableRows_idem (m : model) :
  setTableRows (setTableRows m) = setTableRows m.
Proof.
  unfold setTableRows.
  destruct (Z.ltb (len (rows m) - 1) (cursor m)) eqn:E; cbv beta iota.
  - cbn [rows cursor set_cursor]. rewrite Z.ltb_irrefl. reflexivity.
  - rewrite E. reflexivity.
Qed.

Lemma set_rows_lastEvent_same (x : model) (R : list rowData) (s : string) :
  rows x = R -> lastEvent x = s -> set_lastEvent s (set_rows R x) = x.
Proof. intros <- <-. destruct x. reflexivity. Qed.

Lemma setTableRows_lastEvent (m : model) :
  lastEvent (setTableRows m) = lastEvent m.
Proof. unfold setTableRows. destruct (Z.ltb _ _); reflexivity. Qed.

(** X12.  A size recalculation that comes back changes nothing but
    sizes and leaves the rows in their order, also when the table is
    sorted by size.  A failed one, or one for a path that is no longer in
    the table, leaves the rows as they are; a successful one sets the
    size of the first row of that path and of no other row.  Applying
    the same result again changes nothing. *)
Theorem applyRecalcResult_spec (path : string) (size : Z)
  (e : option error) (m : model) :
  let m' := applyRecalcResult path size e m in
  map (setSizeBytes 0) (rows m') = map (setSizeBytes 0) (rows m)
  /\ (e <> None \/ findRow m path = None -> rows m' = rows m)
  /\ (forall idx, e = None -> findRow m path = Some idx ->
        (exists r, rows m !! idx = Some r
                   /\ rows m' !! idx = Some (setSizeBytes size r))
        /\ forall j, j <> idx -> rows m' !! j = rows m !! j)
  /\ applyRecalcResult path size e m' = m'.
Proof.
  intros m'.
  assert (Hfirst : match findRow m path with
                   | Some idx => exists r, rows m !! idx = Some r
                   | None => True
                   end).
  { unfold findRow. pose proof (findRowFrom_spec (rows m) path 0) as H.
    destruct (findRowFrom (rows m) path 0); [|exact I].
    destruct H as (i & r & -> & Hr & _). exists r. exact Hr. }
  destruct (findRow m path) as [idx|] eqn:Hfind.
  - destruct e as [e'|].
    + assert (Hm' : m' = set_lastEvent ("Recalc failed: " ++ errorText e') m)
        by (subst m'; unfold applyRecalcResult; rewrite Hfind; reflexivity).
      clearbody m'. subst m'. repeat split; auto; try discriminate.
      unfold applyRecalcResult.
      change (findRow (set_lastEvent ("Recalc failed: " ++ errorText e') m)
                path) with (findRow m path).
      rewrite Hfind. reflexivity.
    + set (R := alter (setSizeBytes size) idx (rows m)).
      set (base := set_lastEvent "Size recalculated" (set_rows R m)).
      assert (Hm' : m' = setTableRows base)
        by (subst m'; unfold applyRecalcResult; rewrite Hfind; reflexivity).
      clearbody m'. subst m'.
      assert (Hrows : rows (setTableRows base) = R)
        by (rewrite Controller.rows_setTableRows; reflexivity).
      rewrite Hrows. repeat split.
      * apply map_alter_same. intros x. reflexivity.
      * intros [H|H]; congruence.
      * destruct Hfirst as (r & Hr). injection H0 as <-.
        exists r. split; [exact Hr|]. subst R.
        rewrite list_lookup_alter_eq, Hr. reflexivity.
      * intros j Hj. injection H0 as <-. subst R.
        apply list_lookup_alter_ne. congruence.
      * unfold applyRecalcResult.
        assert (Hf : findRow (setTableRows base) path = Some idx).
        { rewrite <- Hfind. unfold findRow. apply findRowFrom_paths.
          rewrite Hrows. subst R. apply map_alter_same. intros x.
          reflexivity. }
        rewrite Hf, Hrows.
        assert (HR : alter (setSizeBytes size) idx R = R).
        { subst R. rewrite list_alter_alter_eq. apply list_alter_ext;
            [|reflexivity]. intros x _. reflexivity. }
        rewrite HR, set_rows_lastEvent_same.
        -- apply setTableRows_idem.
        -- exact Hrows.
        -- rewrite setTableRows_lastEvent. reflexivity.
  - assert (Hm' : m' = m)
      by (subst m'; unfold applyRecalcResult; rewrite Hfind; reflexivity).
    clearbody m'. subst m'. repeat split; auto; try discriminate.
    unfold applyRecalcResult. rewrite Hfind. reflexivity.
Qed.

Lemma cursorIndex_Some (m : model) (idx : nat) :
  cursorIndex m = Some idx ->
  cursor m = Z.of_nat idx /\ (idx < length (rows m))%nat.
Proof.
  unfold cursorIndex. destruct (_ || _) eqn:E; [discriminate|].
  intros [= <-]. apply orb_false_iff in E as [E1 E2].
  apply Z.ltb_ge in E1. apply Z.leb_gt in E2. unfold len in E2. lia.
Qed.

Lemma cursorIndex_same (m m' : model) :
  cursor m' = cursor m -> length (rows m') = length (rows m) ->
  cursorIndex m' = cursorIndex m.
Proof. unfold cursorIndex, len. intros -> ->. reflexivity. Qed.

Lemma map_insert_same {A B : Type} (f : A -> B) (i : nat) (x y : A)
  (l : list A) :
  l !! i = Some x -> f y = f x -> map f (<[i := y]> l) = map f l.
Proof.
  intros Hl Hf. revert i Hl. induction l as [|z l IH]; intros [|i]; cbn;
    try discriminate.
  - intros [= ->]. rewrite Hf. reflexivity.
  - intros Hl. f_equal. apply IH, Hl.
Qed.

Lemma setMarked_back (r : rowData) :
  setMarked (negb (Marked (setMarked (negb (Marked r)) r)))
    (setMarked (negb (Marked r)) r) = r.
Proof. destruct r as [? ? ? ? mk ? ?]. cbn. destruct mk; reflexivity. Qed.

Lemma toggleMark_eq (m : model) (idx : nat) (r : rowData) :
  cursorIndex m = Some idx -> rows m !! idx = Some r -> Deleted r = false ->
  let r' := setMarked (negb (Marked r)) r in
  toggleMark m
  = set_lastEvent
      (if Marked r' then "Added to queue" else "Removed from queue")
      (set_rows (<[idx := r']> (rows m)) m).
Proof.
  intros Hc Hr Hd r'. unfold toggleMark. rewrite Hc, Hr, Hd. cbv zeta.
  fold r'. unfold setTableRows.
  apply cursorIndex_Some in Hc as [Hcur Hlt].
  cbn [rows cursor set_lastEvent set_rows]. unfold len.
  rewrite length_insert.
  destruct (Z.ltb_spec (Z.of_nat (length (rows m)) - 1) (cursor m));
    [lia | reflexivity].
Qed.

(** X13.  Toggling the mark changes the table only in the mark of the
    row under the cursor, and not at all when that row is deleted or the
    cursor is on no row; the cursor stays, and toggling twice gives the
    rows back. *)
Theorem toggleMark_spec (m : model) :
  cursor (toggleMark m) = cursor m
  /\ rows (toggleMark (toggleMark m)) = rows m
  /\ map (setMarked false) (rows (toggleMark m))
     = map (setMarked false) (rows m)
  /\ (forall j, Z.of_nat j <> cursor m ->
        rows (toggleMark m) !! j = rows m !! j)
  /\ (forall idx r, cursorIndex m = Some idx -> rows m !! idx = Some r ->
        rows (toggleMark m) !! idx
        = Some (if Deleted r then r else setMarked (negb (Marked r)) r)).
Proof.
  destruct (cursorIndex m) as [idx|] eqn:Hc.
  2:{ assert (Htm : toggleMark m = m)
        by (unfold toggleMark; rewrite Hc; reflexivity).
      rewrite !Htm. repeat split; auto. intros idx r H. discriminate. }
  destruct (rows m !! idx) as [r|] eqn:Hr.
  2:{ assert (Htm : toggleMark m = m)
        by (unfold toggleMark; rewrite Hc, Hr; reflexivity).
      rewrite !Htm. repeat split; auto. intros idx' r [= <-]. congruence. }
  destruct (Deleted r) eqn:Hd.
  { assert (Htm : toggleMark m = m)
      by (unfold toggleMark; rewrite Hc, Hr, Hd; reflexivity).
    rewrite !Htm. repeat split; auto.
    intros idx' r' [= <-] Hr'. rewrite Hr' in Hr. injection Hr as ->.
    rewrite Hd. exact Hr'. }
  pose proof (toggleMark_eq m idx r Hc Hr Hd) as Htm. cbv zeta in Htm.
  set (r' := setMarked (negb (Marked r)) r) in *.
  destruct (cursorIndex_Some m idx Hc) as [Hcur Hlt].
  assert (Hrows : rows (toggleMark m) = <[idx := r']> (rows m))
    by (rewrite Htm; reflexivity).
  assert (Hcursor : cursor (toggleMark m) = cursor m)
    by (rewrite Htm; reflexivity).
  split; [exact Hcursor|]. split; [|split; [|split]].
  - assert (Hc' : cursorIndex (toggleMark m) = Some idx).
    { rewrite <- Hc. apply cursorIndex_same; [exact Hcursor|].
      rewrite Hrows. apply length_insert. }
    assert (Hr' : rows (toggleMark m) !! idx = Some r')
      by (rewrite Hrows; apply list_lookup_insert_eq, Hlt).
    rewrite (toggleMark_eq (toggleMark m) idx r' Hc' Hr' Hd).
    cbn [rows set_lastEvent set_rows]. rewrite Hrows.
    rewrite list_insert_insert_eq. apply list_insert_id.
    subst r'. rewrite setMarked_back. exact Hr.
  - rewrite Hrows. apply (map_insert_same _ idx r r' _ Hr). reflexivity.
  - intros j Hj. rewrite Hrows. apply list_lookup_insert_ne. lia.
  - intros idx' r0 [= <-] Hr0. rewrite Hr0 in Hr. injection Hr as ->.
    rewrite Hd, Hrows. apply list_lookup_insert_eq, Hlt.
Qed.

Lemma rows_clearMarks (m : model) :
  rows (clearMarks m) = map (setMarked false) (rows m).
Proof.
  assert (H : rows (clearMarks m) = map unmarkRow (rows m)).
  { unfold clearMarks. destruct (rows m) as [|r0 l] eqn:Hrows.
    - rewrite Hrows. reflexivity.
    - rewrite Controller.rows_setTableRows. reflexivity. }
  rewrite H. apply map_ext. intros [? ? ? ? mk ? ?]. unfold unmarkRow.
  cbn. destruct mk; reflexivity.
Qed.

Lemma markRow_fields (r : rowData) :
  RelPath (markRow r) = RelPath r /\ Deleted (markRow r) = Deleted r
  /\ (Deleted r = false -> Marked (markRow r) = true).
Proof.
  destruct r as [? ? ? ? mk dl ?]. unfold markRow. cbn.
  destruct dl, mk; cbn; auto.
Qed.

Lemma markedPaths_markRow (l : list rowData) :
  markedPaths (map markRow l)
  = map RelPath (List.filter (fun r => negb (Deleted r)) l).
Proof.
  unfold markedPaths. induction l as [|r l IH]; [reflexivity|].
  cbn [map List.filter].
  destruct (markRow_fields r) as (Hp & Hd & Hm). rewrite Hd.
  destruct (Deleted r).
  - rewrite andb_false_r. exact IH.
  - rewrite (Hm eq_refl). cbn [andb negb map]. rewrite Hp, IH.
    reflexivity.
Qed.

(** X14.  Mark-all queues exactly the rows that are not deleted, in
    table order; clear-marks takes every mark away; neither changes
    anything else of a row.  Clearing after marking all is clearing, and
    marking all twice is marking all once. *)
Theorem markAll_clearMarks_spec (m : model) :
  markedPaths (rows (markAll m))
  = map RelPath (List.filter (fun r => negb (Deleted r)) (rows m))
  /\ rows (clearMarks m) = map (setMarked false) (rows m)
  /\ map (setMarked false) (rows (markAll m))
     = map (setMarked false) (rows m)
  /\ rows (clearMarks (markAll m)) = rows (clearMarks m)
  /\ rows (markAll (markAll m)) = rows (markAll m).
Proof.
  assert (Hunmark : map (setMarked false) (rows (markAll m))
                    = map (setMarked false) (rows m)).
  { rewrite Controller.rows_markAll, map_map. apply map_ext.
    intros [? ? ? ? mk dl ?]. unfold markRow.
    cbn. destruct dl, mk; reflexivity. }
  split; [rewrite Controller.rows_markAll; apply markedPaths_markRow|].
  split; [apply rows_clearMarks|]. split; [exact Hunmark|]. split.
  - rewrite !rows_clearMarks. exact Hunmark.
  - rewrite !Controller.rows_markAll, map_map. apply map_ext.
    intros [? ? ? ? mk dl ?]. unfold markRow.
    cbn. destruct dl, mk; reflexivity.
Qed.

(** *** The totals of the status line *)

Lemma sumZ_perm (l l' : list Z) : Permutation l l' -> sumZ l = sumZ l'.
Proof.
  unfold sumZ. induction 1; cbn [fold_right] in *; lia.
Qed.

Lemma filter_perm {A : Type} (f : A -> bool) (l l' : list A) :
  Permutation l l' -> Permutation (List.filter f l) (List.filter f l').
Proof.
  induction 1 as [|x l l' _ IH|x y l|l l' l'' _ IH1 _ IH2];
    cbn [List.filter].
  - constructor.
  - destruct (f x); [constructor|]; exact IH.
  - destruct (f x), (f y); try reflexivity. constructor.
  - etransitivity; eassumption.
Qed.

Lemma wrapInt_wrap_add (a b : Z) :
  wrapInt (wrapInt a + b) = wrapInt (a + b).
Proof.
  apply (SizeAccumulator.wrap64_add (wrapInt a) a b).
  apply SizeAccumulator.wrap64_idem.
Qed.

Lemma stats_fold (l : list rowData) (t q d : Z) :
  inInt t -> inInt q -> inInt d ->
  fold_left statsStep l (t, q, d)
  = (wrapInt (t + sumZ (map SizeBytes
                          (List.filter (fun r => negb (Deleted r)) l))),
     wrapInt (q + len (List.filter Marked l)),
     wrapInt (d + len (List.filter Deleted l))).
Proof.
  revert t q d. induction l as [|r l IH]; intros t q d Ht Hq Hd.
  - cbn. unfold len. cbn. rewrite !Z.add_0_r.
    rewrite !Controller.wrapInt_small by assumption. reflexivity.
  - cbn [fold_left statsStep List.filter]. rewrite IH.
    + unfold incr, len, sumZ.
      destruct (Deleted r), (Marked r); cbn [negb map fold_right length];
        rewrite ?wrapInt_wrap_add, ?Nat2Z.inj_succ;
        repeat apply (f_equal2 pair); apply (f_equal wrapInt); lia.
    + destruct (negb (Deleted r)); [apply SizeAccumulator.wrap64_inInt|].
      exact Ht.
    + destruct (Marked r); [apply SizeAccumulator.wrap64_inInt | exact Hq].
    + destruct (Deleted r); [apply SizeAccumulator.wrap64_inInt | exact Hd].
Qed.

(** X15.  The totals of the status line are, as Go integers, the bytes
    of the rows not deleted, the number of marked rows and the number of
    deleted rows; they depend on the rows only up to their order, so
    sorting the table keeps them. *)
Theorem stats_spec (m : model) :
  stats m
  = (wrapInt (sumZ (map SizeBytes
                      (List.filter (fun r => negb (Deleted r)) (rows m)))),
     wrapInt (len (List.filter Marked (rows m))),
     wrapInt (len (List.filter Deleted (rows m))))
  /\ (forall m', Permutation (rows m) (rows m') -> stats m' = stats m)
  /\ (forall ToLower, stats (sortRows ToLower m) = stats m).
Proof.
  assert (Hclosed : forall m0, stats m0
     = (wrapInt (sumZ (map SizeBytes
                         (List.filter (fun r => negb (Deleted r))
                            (rows m0)))),
        wrapInt (len (List.filter Marked (rows m0))),
        wrapInt (len (List.filter Deleted (rows m0))))).
  { intros m0. unfold stats. rewrite stats_fold by (unfold inInt; lia).
    rewrite !Z.add_0_l. reflexivity. }
  assert (Hperm : forall m', Permutation (rows m) (rows m') ->
                             stats m' = stats m).
  { intros m' Hp. rewrite !Hclosed. unfold len.
    rewrite (sumZ_perm _ _ (Permutation_map SizeBytes
               (filter_perm (fun r => negb (Deleted r)) _ _ Hp))).
    rewrite (Permutation_length (filter_perm Marked _ _ Hp)).
    rewrite (Permutation_length (filter_perm Deleted _ _ Hp)).
    reflexivity. }
  split; [apply Hclosed|]. split; [exact Hperm|].
  intros ToLower. apply Hperm. unfold sortRows. cbn [rows set_rows].
  apply Permutation_sym, Sorting.sliceStable_perm.
Qed.

(** *** Results find their row *)

Lemma findRowFrom_unique (rs : list rowData) (i : nat) (r : rowData)
  (k : nat) :
  NoDup (map RelPath rs) -> rs !! i = Some r ->
  findRowFrom rs (RelPath r) k = Some (k + i)%nat.
Proof.
  revert i k. induction rs as [|row rest IH]; intros i k Hnd Hi;
    [destruct i; discriminate|].
  cbn [map] in Hnd. apply NoDup_cons in Hnd as [Hrow Hnd].
  cbn [findRowFrom]. destruct i as [|i].
  - injection Hi as ->. rewrite String.eqb_refl. f_equal. lia.
  - cbn in Hi. destruct (String.eqb_spec (RelPath row) (RelPath r)) as [He|_].
    + exfalso. apply Hrow. rewrite He. apply list_elem_of_In, in_map.
      apply list_elem_of_In. eapply list_elem_of_lookup_2. exact Hi.
    + rewrite (IH i (S k) Hnd Hi). f_equal. lia.
Qed.

Lemma alter_as_insert {A : Type} (f : A -> A) (i : nat) (x : A)
  (l : list A) :
  l !! i = Some x -> alter f i l = <[i := f x]> l.
Proof.
  revert i. induction l as [|y l IH]; intros [|i]; cbn; try discriminate.
  - intros [= ->]. reflexivity.
  - intros H. f_equal. apply IH, H.
Qed.

Lemma findRow_unique (m : model) (i : nat) (r : rowData) :
  NoDup (map RelPath (rows m)) -> rows m !! i = Some r ->
  findRow m (RelPath r) = Some i.
Proof.
  intros Hnd Hi. unfold findRow.
  rewrite (findRowFrom_unique _ i r 0%nat Hnd Hi). reflexivity.
Qed.

(** X20.  In a table whose rows have pairwise different paths, a result
    that comes back for the path of a row is applied to that very row: a
    successful deletion makes it deleted and unmarked, a failed one
    records the error text on it, a recalculation sets its size; every
    other row stays as it is. *)
Theorem result_hits_its_row (m : model) (i : nat) (r : rowData) :
  NoDup (map RelPath (rows m)) -> rows m !! i = Some r ->
  findRow m (RelPath r) = Some i
  /\ rows (recordDeleteResult (mkDeleteResult (RelPath r) None) m)
     = <[i := setDeletedRow r]> (rows m)
  /\ (forall e,
        rows (recordDeleteResult (mkDeleteResult (RelPath r) (Some e)) m)
        = <[i := setDeleteErr (errorText e) r]> (rows m))
  /\ (forall size,
        rows (applyRecalcResult (RelPath r) size None m)
        = <[i := setSizeBytes size r]> (rows m)).
Proof.
  intros Hnd Hi.
  pose proof (findRow_unique m i r Hnd Hi) as Hf.
  split; [exact Hf|]. split; [|split].
  - unfold recordDeleteResult. cbn [drPath drErr]. rewrite Hf.
    cbn [rows set_rows]. apply alter_as_insert, Hi.
  - intros e. unfold recordDeleteResult. cbn [drPath drErr]. rewrite Hf.
    cbn [rows set_rows set_deleteErrors]. apply alter_as_insert, Hi.
  - intros size. unfold applyRecalcResult. rewrite Hf.
    rewrite Controller.rows_setTableRows. cbn [rows set_rows set_lastEvent].
    apply alter_as_insert, Hi.
Qed.

End Table.

(** ** The confirmation prompt *)

Module Prompt.

Section Keys.

Variable ToLower : string -> string.
Variable tableKey : string -> Z -> Z -> Z.

Lemma Update_prompt (m : model) (k : string) :
  active (confirm m) = true ->
  Update ToLower tableKey m (KeyMsg k)
  = afterSwitch tableKey (KeyMsg k) (confirmKey k m).
Proof.
  intros Hactive. unfold Update. rewrite Hactive. cbv beta iota zeta.
  reflexivity.
Qed.

Lemma keyIn_app (k : string) (a b : list string) :
  keyIn k (a ++ b) = keyIn k a || keyIn k b.
Proof. apply existsb_app. Qed.

Lemma startDelete_fresh (m : model) (p0 : string) (rest : list string) :
  deleting m = false ->
  exists m1,
    startDelete (p0 :: rest) m
    = (m1, [CmdProgress; CmdDelete (rootOkOf (scanOpts m)) p0])
    /\ deleting m1 = true /\ deleteQueue m1 = p0 :: rest
    /\ deleteTotal m1 = len (p0 :: rest) /\ deleteDone m1 = 0
    /\ deleteErrors m1 = 0 /\ rows m1 = rows m /\ confirm m1 = confirm m.
Proof.
  intros Hdel. unfold startDelete. rewrite Hdel. cbv beta iota zeta.
  eexists. split; [reflexivity|].
  repeat (split; [reflexivity|]). reflexivity.
Qed.

(** X16.  While the confirmation prompt is open, a key other than "y",
    "Y", "n", "N" and "esc" does nothing at all: the quit key does not
    quit and the table does not move.  The answer "y" closes the prompt;
    it starts the queue with the paths the prompt had frozen, the first of
    them handed to the delete command, but when a queue is already
    running the confirmed request is dropped. *)
Theorem prompt_keys (m : model) (k : string) :
  active (confirm m) = true ->
  (keyIn k ["y"; "Y"; "n"; "N"; "esc"] = false ->
   Update ToLower tableKey m (KeyMsg k) = Some (m, []))
  /\ (keyIn k ["y"; "Y"] = true -> deleting m = true ->
      Update ToLower tableKey m (KeyMsg k)
      = Some (tableUpdate tableKey (KeyMsg k) (set_confirm noConfirm m),
              [CmdTable]))
  /\ (keyIn k ["y"; "Y"] = true -> deleting m = false ->
      forall p0 rest, paths (confirm m) = p0 :: rest ->
      exists m',
        Update ToLower tableKey m (KeyMsg k)
        = Some (m', [CmdProgress; CmdDelete (rootOkOf (scanOpts m)) p0;
                     CmdTable])
        /\ deleting m' = true /\ deleteQueue m' = p0 :: rest
        /\ deleteTotal m' = len (p0 :: rest) /\ deleteDone m' = 0
        /\ deleteErrors m' = 0
        /\ rows m' = rows m /\ active (confirm m') = false).
Proof.
  intros Hactive. rewrite (Update_prompt m k Hactive). unfold confirmKey.
  split; [|split].
  - intros Hk.
    change ["y"; "Y"; "n"; "N"; "esc"]
      with (["y"; "Y"] ++ ["n"; "N"; "esc"])%list in Hk.
    rewrite keyIn_app in Hk. apply orb_false_iff in Hk as [Hy Hn].
    rewrite Hy, Hn. unfold afterSwitch. rewrite Hactive. reflexivity.
  - intros Hk Hdel. rewrite Hk. cbv zeta. unfold startDelete.
    change (deleting (set_confirm noConfirm m)) with (deleting m).
    rewrite Hdel. destruct (paths (confirm m)); reflexivity.
  - intros Hk Hdel p0 rest Hpaths. rewrite Hk, Hpaths. cbv zeta.
    destruct (startDelete_fresh (set_confirm noConfirm m) p0 rest Hdel)
      as (m1 & Hsd & H1 & H2 & H3 & H4 & H5 & H6 & H7).
    rewrite Hsd. unfold afterSwitch. rewrite H7.
    exists (tableUpdate tableKey (KeyMsg k) m1).
    split; [reflexivity|]. unfold tableUpdate.
    cbn [deleting deleteQueue deleteTotal deleteDone deleteErrors rows
         confirm set_cursor].
    rewrite H7.
    repeat (split; [first [assumption | exact H6 | reflexivity]|]).
    reflexivity.
Qed.

End Keys.

End Prompt.

(** ** Reading the stream of a scan *)

Module Stream.

Lemma setTableRows_as_cursor (x : model) :
  exists c, setTableRows x = set_cursor c x.
Proof.
  unfold setTableRows. destruct (Z.ltb _ _); [eexists; reflexivity|].
  exists (cursor x). destruct x. reflexivity.
Qed.

Lemma waitCmds_table (cmds : list Cmd) :
  waitCmds (cmds ++ [CmdTable]) = waitCmds cmds.
Proof. unfold waitCmds. rewrite flat_map_app. apply app_nil_r. Qed.

Section Reader.

Variable ToLower : string -> string.
Variable tableKey : string -> Z -> Z -> Z.

Lemma afterSwitch_wait (msg : Msg) (m : model) (cmds : list Cmd) :
  (forall k, msg <> KeyMsg k) ->
  exists cmds', afterSwitch tableKey msg (m, cmds) = Some (m, cmds')
                /\ waitCmds cmds' = waitCmds cmds.
Proof.
  intros Hmsg. unfold afterSwitch. destruct (negb (active (confirm m))).
  - exists (cmds ++ [CmdTable])%list. split; [|apply waitCmds_table].
    destruct msg; try reflexivity. exfalso. eapply Hmsg. reflexivity.
  - exists cmds. split; reflexivity.
Qed.

Lemma Update_row (m : model) (row : rowData) (ch : nat) :
  scanStream m = Some ch ->
  exists m1 cmds,
    Update ToLower tableKey m (ScanRowMsg (scanID m) row) = Some (m1, cmds)
    /\ waitCmds cmds = [ch] /\ rows m1 = (rows m ++ [row])%list
    /\ scanID m1 = scanID m /\ scanStream m1 = Some ch
    /\ sort_mode m1 = sort_mode m.
Proof.
  intros Hs. unfold Update. rewrite Z.eqb_refl.
  change (negb true) with false. cbv beta iota zeta.
  match goal with |- context [setTableRows ?y] =>
    destruct (setTableRows_as_cursor y) as [c ->] end.
  match goal with |- context [match scanStream ?x with _ => _ end] =>
    change (scanStream x) with (scanStream m); rewrite Hs;
    destruct (afterSwitch_wait (ScanRowMsg (scanID m) row) x [CmdWaitScan ch])
      as (cmds' & -> & Hw); [discriminate|];
    exists x, cmds'
  end.
  split; [reflexivity|]. split; [exact Hw|].
  repeat (split; [first [exact Hs | reflexivity]|]). reflexivity.
Qed.

Lemma Update_progress (m : model) (v f : Z) (ch : nat) :
  scanStream m = Some ch ->
  exists m1 cmds,
    Update ToLower tableKey m (ScanProgressMsg (scanID m) v f)
    = Some (m1, cmds)
    /\ waitCmds cmds = [ch] /\ rows m1 = rows m
    /\ scanID m1 = scanID m /\ scanStream m1 = Some ch
    /\ sort_mode m1 = sort_mode m.
Proof.
  intros Hs. unfold Update. rewrite Z.eqb_refl.
  change (negb true) with false. cbv beta iota zeta.
  match goal with |- context [match scanStream ?x with _ => _ end] =>
    change (scanStream x) with (scanStream m); rewrite Hs;
    destruct (afterSwitch_wait (ScanProgressMsg (scanID m) v f) x
                [CmdWaitScan ch])
      as (cmds' & -> & Hw); [discriminate|];
    exists x, cmds'
  end.
  split; [reflexivity|]. split; [exact Hw|].
  repeat (split; [first [exact Hs | reflexivity]|]). reflexivity.
Qed.

Lemma Update_finished (m : model) (ws : list string) (e : option error)
  (el v f : Z) :
  exists m1 cmds,
    Update ToLower tableKey m (ScanFinishedMsg (scanID m) ws e el v f)
    = Some (m1, cmds)
    /\ waitCmds cmds = []
    /\ rows m1 = sliceStable (rowLess ToLower (sort_mode m)) (rows m)
    /\ loading m1 = false /\ err m1 = e /\ warnings m1 = ws
    /\ lastScan m1 = el /\ scanVisited m1 = v /\ scanFound m1 = f.
Proof.
  unfold Update. rewrite Z.eqb_refl.
  change (negb true) with false. cbv beta iota zeta.
  match goal with |- context [setTableRows ?y] =>
    destruct (setTableRows_as_cursor y) as [c ->] end.
  match goal with |- context [afterSwitch tableKey ?msg (?x, [])] =>
    destruct (afterSwitch_wait msg x []) as (cmds' & -> & Hw);
      [discriminate|];
    exists x, cmds'
  end.
  split; [reflexivity|]. split; [exact Hw|].
  repeat (split; [reflexivity|]). reflexivity.
Qed.

Lemma pump_stream (pre rest : list Msg) (m : model) (ch : nat) :
  scanStream m = Some ch ->
  Forall (streamMsg (scanID m)) pre ->
  exists m1,
    pump ToLower tableKey m 1 (pre ++ rest)
    = pump ToLower tableKey m1 1 rest
    /\ rows m1 = (rows m ++ rowsOf pre)%list
    /\ scanID m1 = scanID m /\ scanStream m1 = Some ch
    /\ sort_mode m1 = sort_mode m.
Proof.
  revert m. induction pre as [|msg pre IH]; intros m Hs Hpre.
  - exists m. cbn [app rowsOf flat_map]. rewrite app_nil_r. auto.
  - apply Forall_cons in Hpre as [Hmsg Hpre].
    assert (Hstep : exists m1 cmds,
               Update ToLower tableKey m msg = Some (m1, cmds)
               /\ waitCmds cmds = [ch]
               /\ rows m1 = (rows m ++ rowsOf [msg])%list
               /\ scanID m1 = scanID m /\ scanStream m1 = Some ch
               /\ sort_mode m1 = sort_mode m).
    { destruct msg; cbn [streamMsg] in Hmsg; try contradiction; subst.
      - apply Update_row, Hs.
      - destruct (Update_progress m visited found ch Hs)
          as (m1 & cmds & H1 & H2 & H3 & H4).
        exists m1, cmds. split; [exact H1|]. split; [exact H2|].
        split; [|exact H4]. rewrite H3. symmetry. apply app_nil_r. }
    destruct Hstep as (m1 & cmds & Hu & Hw & Hrows & Hid & Hs1 & Hsort).
    rewrite <- Hid in Hpre.
    destruct (IH m1 Hs1 Hpre) as (m2 & Hp & Hr & Hid2 & Hs2 & Hsort2).
    exists m2. cbn [app pump]. rewrite Hu, Hw. cbn [length Nat.add].
    split; [exact Hp|]. split; [|split; [congruence|]];
      [|split; [exact Hs2 | congruence]].
    rewrite Hr, Hrows, <- app_assoc.
    change (msg :: pre) with ([msg] ++ pre)%list.
    rewrite ScanCounters.rowsOf_app. reflexivity.
Qed.

(** X17.  Reading a scan's channel: from a model of the stream's
    generation that holds the channel, with one read pending, every
    message of the stream is read, each one asking for exactly the next
    read, until the completion message, which asks for none.  The rows
    the stream brought are then in the table behind the rows it had, the
    whole sorted stably by the current mode, and the scan is over with
    the completion message's error, warnings and counts. *)
Theorem scan_stream_consumed (pre : list Msg) (m : model) (ch : nat)
  (ws : list string) (e : option error) (el v f : Z) :
  scanStream m = Some ch ->
  Forall (streamMsg (scanID m)) pre ->
  exists m',
    pump ToLower tableKey m 1
      (pre ++ [ScanFinishedMsg (scanID m) ws e el v f])
    = Some (m', 0%nat, [])
    /\ rows m' = sliceStable (rowLess ToLower (sort_mode m))
                   (rows m ++ rowsOf pre)
    /\ loading m' = false /\ err m' = e /\ warnings m' = ws
    /\ lastScan m' = el /\ scanVisited m' = v /\ scanFound m' = f.
Proof.
  intros Hs Hpre.
  destruct (pump_stream pre [ScanFinishedMsg (scanID m) ws e el v f] m ch
              Hs Hpre) as (m1 & Hp & Hrows1 & Hid & _ & Hsort).
  destruct (Update_finished m1 ws e el v f)
    as (m' & cmds & Hu & Hw & Hrows & Hrest).
  exists m'. rewrite Hp. cbn [pump]. rewrite <- Hid, Hu, Hw.
  cbn [length Nat.add pump]. split; [reflexivity|].
  split; [|exact Hrest]. rewrite Hrows, Hsort, Hrows1. reflexivity.
Qed.

Section Scanner.

Variable ctx : nat -> bool.
Variable due : nat -> bool.
Variable opts : ScanOptions.

(** X18.  A scan read to its end by the controller that started it: the
    table holds exactly the rows the scan discovered, sorted by the
    current mode, the scan is no longer running, and the count of found
    directories shown is the number of rows of the table. *)
Theorem scan_fills_table (m : model) (ch : nat) (elapsed : Z) :
  scanStream m = Some ch -> rows m = [] ->
  let out := runScanStream ctx due opts (scanID m) elapsed in
  exists m',
    pump ToLower tableKey m 1 out = Some (m', 0%nat, [])
    /\ rows m' = sliceStable (rowLess ToLower (sort_mode m)) (rowsOf out)
    /\ Permutation (rows m') (rowsOf out)
    /\ loading m' = false
    /\ scanFound m' = wrapInt (len (rows m')).
Proof.
  intros Hs Hrows out.
  destruct (ScanCounters.runScanStream_stream ctx due opts (scanID m) elapsed)
    as (pre & ws & e & el & v & f & Hout & Hpre & Hf & Hro).
  fold out in Hout, Hro.
  destruct (pump_stream pre [ScanFinishedMsg (scanID m) ws e el v f] m ch
              Hs Hpre) as (m1 & Hp & Hrows1 & Hid & _ & Hsort).
  destruct (Update_finished m1 ws e el v f)
    as (m' & cmds & Hu & Hw & Hr & Hl & _ & _ & _ & _ & Hfound).
  rewrite Hsort, Hrows1, Hrows in Hr. cbn [app] in Hr.
  exists m'. rewrite !Hro, Hout, Hp. cbn [pump].
  rewrite <- Hid, Hu, Hw. cbn [length Nat.add pump].
  split; [reflexivity|]. split; [exact Hr|].
  assert (Hperm : Permutation (rows m') (rowsOf pre))
    by (rewrite Hr; apply Sorting.sliceStable_perm).
  split; [exact Hperm|]. split; [exact Hl|].
  rewrite Hfound, Hf. unfold len.
  rewrite (Permutation_length Hperm). reflexivity.
Qed.

End Scanner.

End Reader.

End Stream.


(** ** Recalculating a size *)

Module Recalc.

Section Sizes.

Variable ctx : nat -> bool.

Lemma walkDir_dirSize_errorFree (d : node) :
  forall name st st',
    walkDir (dirSizeFn ctx) name d st = (None, st') -> errorFree d = true.
Proof.
  induction d as [n isDir symlink info readErr children IH]
    using node_tree_ind.
  intros name [size t] st'. rewrite Walk.walkDir_eq.
  cbn [nIsDir nReadErr nChildren]. unfold dirSizeFn at 1.
  destruct (ctx t); [discriminate|].
  cbn [nIsDir nSymlink nInfo errorFree]. destruct isDir; cbn [negb].
  - destruct symlink; [reflexivity|].
    destruct readErr as [err|].
    + unfold dirSizeFn. destruct (ctx (S t)); discriminate.
    + generalize (size, S t). clear -IH.
      induction IH as [|d1 rest Hd1 _ IHrest]; intros st;
        cbn [walkChildren forallb]; [reflexivity|].
      destruct (walkDir (dirSizeFn ctx) _ d1 st) as [r1 st1] eqn:Hw.
      destruct r1 as [[|e]|].
      * destruct st as [sz0 t0], st1 as [sz1 t1].
        destruct (SizeAccumulator.walkDir_dirSize ctx d1 _ _ _ _ _ _ Hw)
          as [Hns _]. congruence.
      * discriminate.
      * intros H. rewrite (Hd1 _ _ _ Hw). exact (IHrest _ H).
  - destruct info as [sz|e]; [reflexivity | discriminate].
Qed.

Lemma dirSize_inl_errorFree (root : node) (p : list string) (d : node)
  (t : nat) (size : Z) (t' : nat) :
  Stat root p = inl d ->
  dirSize ctx (Some root) p t = (inl size, t') -> errorFree d = true.
Proof.
  intros Hstat. unfold dirSize, WalkDir. rewrite Hstat.
  destruct (walkDir (dirSizeFn ctx) p d (0, t)) as [r [sz t1]] eqn:Hw.
  destruct r as [[|e]|].
  - destruct (SizeAccumulator.walkDir_dirSize ctx d _ _ _ _ _ _ Hw)
      as [Hns _]. congruence.
  - discriminate.
  - intros _. eapply walkDir_dirSize_errorFree. exact Hw.
Qed.

End Sizes.

Lemma pathElems_pathString (p : list string) :
  Forall (fun n => plainName n = true) p -> pathElems (pathString p) = p.
Proof.
  intros Hp. destruct p as [|e p]; [reflexivity|].
  destruct (ScanPaths.joinSlash_plain (e :: p) ltac:(discriminate) Hp)
    as (_ & H & _).
  unfold pathElems, pathString. apply String.eqb_neq in H. rewrite H.
  apply ScanPaths.splitSlash_joinSlash;
    [discriminate | apply ScanPaths.plain_noSlash, Hp].
Qed.

Section Scan.

Variable ctx : nat -> bool.
Variable due : nat -> bool.
Variable opts : ScanOptions.
Variable id : Z.
Variable root : node.
Hypothesis Hroot : RootHandle opts = Some root.

Local Abbreviation fn := (scanFn ctx due opts id).

Lemma sendProgress_sizedMsg (force : bool) (s : scanState) :
  Forall (sizedMsg root) (ssOut s) ->
  Forall (sizedMsg root) (ssOut (sendProgress due id force s)).
Proof.
  unfold sendProgress. intros H.
  destruct (force || due (ssTick s)); [|exact H].
  cbn [ssOut]. apply Forall_app. split; [exact H|].
  repeat constructor.
Qed.

Lemma scanFn_sizedMsg (path : list string) (v : visit) (s : scanState)
  (r : option walkErr) (s' : scanState) :
  visitAt root path v -> Forall (sizedMsg root) (ssOut s) ->
  fn path v s = (r, s') -> Forall (sizedMsg root) (ssOut s').
Proof.
  intros Hat Hs. unfold scanFn.
  destruct (ctx (ssTick s)); [intros [= _ <-]; exact Hs|].
  destruct v as [d|e0|d e0];
    try (destruct (isPermission e0); intros [= _ <-]; exact Hs).
  cbn [visitAt] in Hat.
  destruct (nIsDir d) eqn:Hdir; [|intros [= _ <-]; exact Hs].
  match goal with |- context [sendProgress due id false ?x] =>
    pose proof (sendProgress_sizedMsg false x Hs) as Hsp;
    set (sp := sendProgress due id false x) in *
  end.
  clearbody sp.
  destruct (decide _); [intros [= _ <-]; exact Hsp|].
  destruct (nSymlink d) eqn:Hsym; [intros [= _ <-]; exact Hsp|].
  destruct (_ && _); [intros [= _ <-]; exact Hsp|].
  destruct (Targets opts !! nName d) as [def|] eqn:Hdef;
    [|intros [= _ <-]; exact Hsp].
  destruct (dirSize ctx (RootHandle opts) path (ssTick sp))
    as [res t'] eqn:Hds.
  destruct res as [size|sizeErr].
  - intros [= _ <-]. apply sendProgress_sizedMsg. cbn [ssOut setTick].
    apply Forall_app. split; [exact Hsp|]. constructor; [|constructor].
    rewrite Hroot in Hds. exists path, d. cbn [RelPath SizeBytes].
    split; [reflexivity|]. split; [exact Hat|]. split.
    + eapply dirSize_inl_errorFree; eassumption.
    + eapply SizeAccumulator.dirSize_success; eassumption.
  - destruct (isPermission sizeErr); intros [= _ <-]; exact Hsp.
Qed.

Lemma runScanStream_sizedMsg (elapsed : Z) :
  uniqueNames root ->
  Forall (sizedMsg root) (runScanStream ctx due opts id elapsed).
Proof.
  intros Hu.
  pose proof (ScanStreamer.runScanStream_shape ctx due opts id root Hroot
                elapsed) as Hshape.
  unfold WalkDir in Hshape. cbn [Stat] in Hshape.
  destruct (walkDir fn [] root _) as [r s] eqn:Hw.
  rewrite Hshape. apply Forall_app. split; [|repeat constructor].
  refine (Walk.walkDir_invariant_at fn root
            (fun s => Forall (sizedMsg root) (ssOut s))
            _ root [] _ r s Hu eq_refl _ Hw); [|constructor].
  intros name v s0 r0 s0' Hat Hs0 H. eapply scanFn_sizedMsg; eassumption.
Qed.

(** X21.  Recalculating the size of a row that a scan discovered, on
    the same tree and with a live context, gives the size the row
    already has and no error; applied to a table with pairwise
    different paths that holds the row, the result leaves the rows as
    they are. *)
Theorem recalc_after_scan (elapsed : Z) (row : rowData)
  (ctx' : nat -> bool) (t : nat) :
  uniqueNames root -> plainTree root = true ->
  In row (rowsOf (runScanStream ctx due opts id elapsed)) ->
  (forall k, ctx' k = false) ->
  (exists t',
     recalcSizeCmd ctx' (RootHandle opts) (RelPath row) t
     = (RecalcSizeMsg (RelPath row) (SizeBytes row) None, t'))
  /\ (forall m i,
        NoDup (map RelPath (rows m)) -> rows m !! i = Some row ->
        rows (applyRecalcResult (RelPath row) (SizeBytes row) None m)
        = rows m).
Proof.
  intros Hu Hpl Hin Hlive. split.
  - apply ScanCounters.in_rowsOf in Hin as [i Hin].
    pose proof (runScanStream_sizedMsg elapsed Hu) as Hall.
    rewrite List.Forall_forall in Hall. specialize (Hall _ Hin).
    destruct Hall as (p & d & Hrel & Hstat & Hfree & Hsize).
    destruct (ScanCounters.Stat_plain p root d Hpl Hstat) as [Hp _].
    destruct (SizeAccumulator.dirSize_total ctx' root p d t Hstat Hfree
                Hlive) as (t' & Hds).
    exists t'. unfold recalcSizeCmd.
    rewrite Hrel, (pathElems_pathString p Hp), Hroot, Hds, Hsize.
    reflexivity.
  - intros m i Hnd Hi.
    unfold applyRecalcResult. rewrite (Table.findRow_unique m i row Hnd Hi).
    rewrite Controller.rows_setTableRows. cbn [rows set_rows set_lastEvent].
    rewrite (Table.alter_as_insert _ i row _ Hi). apply list_insert_id.
    rewrite Hi. f_equal. destruct row. reflexivity.
Qed.

End Scan.

End Recalc.

(** ** Keys on the table *)

Module Keys.

Section Keys.

Variable ToLower : string -> string.
Variable tableKey : string -> Z -> Z -> Z.

Lemma Update_key (m : model) (k : string) :
  active (confirm m) = false ->
  keyIn k ["q"; "ctrl+c"] = false -> keyIn k ["?"; "h"] = false ->
  keyIn k ["r"] = false -> keyIn k ["s"] = false ->
  Update ToLower tableKey m (KeyMsg k)
  = afterSwitch tableKey (KeyMsg k)
      (if keyIn k ["space"] then (toggleMark m, [])
       else if keyIn k ["a"] then (markAll m, [])
       else if keyIn k ["A"] then (clearMarks m, [])
       else if keyIn k ["D"] then requestDeleteMarked m
       else if keyIn k ["enter"; "d"] then requestDeleteSelected m
       else if keyIn k ["u"] then requestRecalcSelected m
       else if keyIn k ["c"] then
         (set_lastEvent
            (if negb (confirmDeletes m) then "Confirm prompts enabled"
             else "Confirm prompts disabled")
            (set_confirmDeletes (negb (confirmDeletes m)) m), [])
       else (m, [])).
Proof.
  intros Hactive H1 H2 H3 H4. unfold Update.
  rewrite Hactive, H1, H2, H3, H4. cbv beta iota zeta.
  repeat match goal with
         | |- context [if keyIn k ?l then _ else _] =>
             destruct (keyIn k l); [reflexivity|]
         end.
  reflexivity.
Qed.

Ltac eval_keys :=
  repeat match goal with
         | |- context [keyIn (String ?c ?k) ?l] =>
             let b := eval vm_compute in (keyIn (String c k) l) in
             change (keyIn (String c k) l) with b
         end.

Lemma no_row_or_deleted (m : model) :
  (cursorIndex m = None
   \/ exists idx r, cursorIndex m = Some idx /\ rows m !! idx = Some r
                    /\ Deleted r = true) ->
  toggleMark m = m /\ requestDeleteSelected m = (m, [])
  /\ requestRecalcSelected m = (m, []).
Proof.
  unfold toggleMark, requestDeleteSelected, requestRecalcSelected.
  intros [Hc|(idx & r & Hc & Hr & Hd)].
  - rewrite Hc. auto.
  - rewrite Hc, Hr, Hd. auto.
Qed.

(** X22.  With the cursor on a deleted row, or on no row, the keys that
    act on the selected row (space, enter, d, u) change nothing and hand
    back no command of their own: a deleted row is not marked, not
    deleted again and not recalculated.  Only the table widget sees the
    key. *)
Theorem deleted_row_is_inert (m : model) (k : string) :
  active (confirm m) = false ->
  (cursorIndex m = None
   \/ exists idx r, cursorIndex m = Some idx /\ rows m !! idx = Some r
                    /\ Deleted r = true) ->
  keyIn k ["space"; "enter"; "d"; "u"] = true ->
  Update ToLower tableKey m (KeyMsg k)
  = Some (tableUpdate tableKey (KeyMsg k) m, [CmdTable]).
Proof.
  intros Hactive Hrow Hk.
  destruct (no_row_or_deleted m Hrow) as (Ht & Hd & Hr).
  unfold keyIn in Hk. cbn [existsb] in Hk.
  repeat (apply orb_true_iff in Hk as [Hk|Hk];
          [apply String.eqb_eq in Hk; subst k;
           match goal with |- Update _ _ _ (KeyMsg ?k0) = _ =>
             rewrite (Update_key m k0 Hactive eq_refl eq_refl eq_refl
                        eq_refl)
           end;
           eval_keys; cbv iota; rewrite ?Ht, ?Hd, ?Hr;
           unfold afterSwitch; rewrite Hactive; reflexivity|]).
  discriminate.
Qed.

(** X23.  The bulk delete key with marked rows that are not deleted:
    with confirmation on it opens the prompt and hands back no command,
    and the answer "y" then starts the queue with exactly the paths
    that were marked, in table order, the first one handed to the
    delete command; with confirmation off the key starts that queue at
    once.  The rows are as before in both cases. *)
Theorem bulk_delete_queue (m : model) (p0 : string) (rest : list string) :
  active (confirm m) = false -> deleting m = false ->
  markedPaths (rows m) = p0 :: rest ->
  let started m2 cmds :=
    cmds = [CmdProgress; CmdDelete (rootOkOf (scanOpts m)) p0; CmdTable]
    /\ deleting m2 = true /\ deleteQueue m2 = p0 :: rest
    /\ deleteTotal m2 = len (p0 :: rest) /\ deleteDone m2 = 0
    /\ rows m2 = rows m /\ active (confirm m2) = false in
  if confirmDeletes m then
    exists m1 m2 cmds,
      Update ToLower tableKey m (KeyMsg "D") = Some (m1, [])
      /\ rows m1 = rows m /\ deleting m1 = false
      /\ paths (confirm m1) = p0 :: rest
      /\ Update ToLower tableKey m1 (KeyMsg "y") = Some (m2, cmds)
      /\ started m2 cmds
  else
    exists m2 cmds,
      Update ToLower tableKey m (KeyMsg "D") = Some (m2, cmds)
      /\ started m2 cmds.
Proof.
  intros Hactive Hdel Hpaths started.
  assert (HD : Update ToLower tableKey m (KeyMsg "D")
               = afterSwitch tableKey (KeyMsg "D") (requestDeleteMarked m)).
  { rewrite (Update_key m "D" Hactive eq_refl eq_refl eq_refl eq_refl).
    eval_keys. reflexivity. }
  unfold requestDeleteMarked in HD. rewrite Hpaths in HD. cbv zeta in HD.
  destruct (confirmDeletes m).
  - set (m1 := set_confirm
                 (mkConfirm true confirmDeleteMarked (p0 :: rest)) m) in *.
    destruct (Prompt.startDelete_fresh (set_confirm noConfirm m1) p0 rest
                Hdel) as (m2 & Hsd & H1 & H2 & H3 & H4 & H5 & H6 & H7).
    exists m1, (tableUpdate tableKey (KeyMsg "y") m2).
    exists [CmdProgress; CmdDelete (rootOkOf (scanOpts m)) p0; CmdTable].
    split; [exact HD|]. split; [reflexivity|]. split; [exact Hdel|].
    split; [reflexivity|]. split.
    + rewrite (Prompt.Update_prompt ToLower tableKey m1 "y" eq_refl).
      unfold confirmKey. eval_keys. cbv beta iota zeta.
      change (paths (confirm m1)) with (p0 :: rest). rewrite Hsd.
      unfold afterSwitch. rewrite H7. reflexivity.
    + unfold started, tableUpdate.
      cbn [deleting deleteQueue deleteTotal deleteDone rows confirm
           set_cursor].
      rewrite H7.
      repeat (split; [first [assumption | exact H6 | reflexivity]|]).
      reflexivity.
  - destruct (Prompt.startDelete_fresh m p0 rest Hdel)
      as (m2 & Hsd & H1 & H2 & H3 & H4 & H5 & H6 & H7).
    rewrite Hsd in HD. unfold afterSwitch in HD. rewrite H7, Hactive in HD.
    exists (tableUpdate tableKey (KeyMsg "D") m2).
    exists [CmdProgress; CmdDelete (rootOkOf (scanOpts m)) p0; CmdTable].
    split; [exact HD|]. unfold started, tableUpdate.
    cbn [deleting deleteQueue deleteTotal deleteDone rows confirm
         set_cursor].
    rewrite H7, Hactive.
    repeat (split; [first [assumption | reflexivity]|]). reflexivity.
Qed.

End Keys.

End Keys.

(** ** The options of the program *)

Module Setup.

Section Setup.

Variable TrimSpace : string -> string.

(** X24.  Whatever the configuration and the flags, the options [main]
    assembles skip the repository directories ".git", ".hg" and ".svn":
    a scan with these options counts such a directory and passes it,
    also when the include list names it.  A name of the exclude list in
    force is no target.  Confirmation is off exactly when the flag
    [-no-confirm] is given or, without it, the configuration says so. *)
Theorem mainOptions_spec (config : Config) (flags : Flags)
  (absRoot : string) (rootHandle : option node) :
  let opts := fst (mainOptions TrimSpace config flags absRoot rootHandle) in
  let confirmDeletes :=
    snd (mainOptions TrimSpace config flags absRoot rootHandle) in
  (forall name, In name [".git"; ".hg"; ".svn"] -> name ∈ SkipDirs opts)
  /\ (forall ctx due id path d s,
        ctx (ssTick s) = false -> nIsDir d = true ->
        In (nName d) [".git"; ".hg"; ".svn"] ->
        walkDir (scanFn ctx due opts id) path d s
        = (None, counted due id s))
  /\ (forall k,
        In k (match flExclude flags with
              | Some raw => parseTargetList TrimSpace raw
              | None => cfgExclude config
              end) ->
        Targets opts !! k = None)
  /\ (confirmDeletes = false
      <-> flNoConfirm flags = true
          \/ (flNoConfirm flags = false /\ cfgConfirm config = Some false)).
Proof.
  intros opts confirmDeletes.
  assert (Hskip : forall name, In name [".git"; ".hg"; ".svn"] ->
                               name ∈ SkipDirs opts).
  { intros name Hin. subst opts. unfold mainOptions. cbn [fst SkipDirs].
    apply Configuration.skipSet_mergeSkipDirs. left.
    unfold defaultSkipDirs, skipSet.
    destruct Hin as [<-|[<-|[<-|[]]]]; set_solver. }
  split; [exact Hskip|]. split; [|split].
  - intros ctx due id path d s Hc Hd Hn.
    rewrite Walk.walkDir_eq.
    rewrite (ScanCounters.scanFn_pruned ctx due opts id path d s Hc Hd).
    + unfold skipped. rewrite Hd. reflexivity.
    + left. apply Hskip, Hn.
  - intros k Hk. subst opts. unfold mainOptions. cbn [fst Targets].
    rewrite Targets.buildTargetMapWithList_eq.
    rewrite bool_decide_eq_true_2; [reflexivity|].
    apply list_elem_of_In, Hk.
  - subst confirmDeletes. unfold mainOptions. cbn [snd].
    destruct (flNoConfirm flags); [split; auto|].
    destruct (cfgConfirm config) as [[|]|]; split; auto;
      try discriminate; intros [H|[_ H]]; discriminate.
Qed.

End Setup.

End Setup.

(** ** The further properties at the scenarios *)

Module Examples.

Lemma deleteCmd_scan_path_witness :
  Forall (fun n => plainName n = true) ["proj"; "node_modules"]
  /\ validateDeletePath "proj/node_modules" = inl "proj/node_modules"
  /\ deleteCmd removePath true "proj/node_modules"
       (mkWorld ["proj/target"; "proj/node_modules"] [])
     = (mkDeleteResult "proj/node_modules"
          (snd (removePath ["proj/target"; "proj/node_modules"]
                  "proj/node_modules")),
        mkWorld (fst (removePath ["proj/target"; "proj/node_modules"]
                        "proj/node_modules"))
          ["proj/node_modules"]).
Proof.
  assert (H : Forall (fun n => plainName n = true) ["proj"; "node_modules"])
    by (repeat constructor).
  split; [exact H|].
  exact (ScanPaths.deleteCmd_scan_path ["proj"; "node_modules"] H
           (list string) removePath
           (mkWorld ["proj/target"; "proj/node_modules"] [])).
Defined.

Lemma relativeDepth_plain_witness :
  Forall (fun n => plainName n = true) ["proj"; "node_modules"]
  /\ relativeDepth (pathString ["proj"; "node_modules"])
     = Z.of_nat (Nat.pred (length ["proj"; "node_modules"])).
Proof.
  assert (H : Forall (fun n => plainName n = true) ["proj"; "node_modules"])
    by (repeat constructor).
  split; [exact H|].
  exact (ScanPaths.relativeDepth_plain ["proj"; "node_modules"] H).
Defined.

Lemma pruned_directory_is_passed_witness :
  (neverCancelled (ssTick (mkScanState [] 1 0 [] 1)) = false
   /\ nIsDir gitDir = true /\ pruned scenarioOpts [".git"] gitDir)
  /\ walkDir (scanFn neverCancelled neverDue scenarioOpts 1) [".git"] gitDir
       (mkScanState [] 1 0 [] 1)
     = (None, counted neverDue 1 (mkScanState [] 1 0 [] 1))
  /\ ssVisited (counted neverDue 1 (mkScanState [] 1 0 [] 1)) = incr 1
  /\ ssFound (counted neverDue 1 (mkScanState [] 1 0 [] 1)) = 0
  /\ ssWarnings (counted neverDue 1 (mkScanState [] 1 0 [] 1)) = []
  /\ ssTick (counted neverDue 1 (mkScanState [] 1 0 [] 1)) = 2%nat
  /\ rowsOf (ssOut (counted neverDue 1 (mkScanState [] 1 0 [] 1))) = [].
Proof.
  assert (Hp : pruned scenarioOpts [".git"] gitDir).
  { left. apply (bool_decide_unpack _). vm_compute. exact I. }
  split; [split; [reflexivity | split; [reflexivity | exact Hp]]|].
  exact (ScanCounters.pruned_directory_is_passed neverCancelled neverDue
           scenarioOpts 1 [".git"] gitDir (mkScanState [] 1 0 [] 1)
           eq_refl eq_refl Hp).
Defined.

Lemma scan_found_is_row_count_witness :
  RootHandle scenarioOpts = Some scenarioTree
  /\ exists pre ws err v f,
       runScanStream neverCancelled neverDue scenarioOpts 1 0
       = (pre ++ [ScanProgressMsg 1 v f;
                  ScanFinishedMsg 1 ws err 0 v f])%list
       /\ f = wrapInt (len (rowsOf pre))
       /\ rowsOf (runScanStream neverCancelled neverDue scenarioOpts 1 0)
          = rowsOf pre.
Proof.
  split; [reflexivity|].
  exact (ScanCounters.scan_found_is_row_count neverCancelled neverDue
           scenarioOpts 1 scenarioTree eq_refl 0).
Defined.

Lemma scan_rows_pass_guard_witness :
  (RootHandle scenarioOpts = Some scenarioTree
   /\ uniqueNames scenarioTree /\ plainTree scenarioTree = true
   /\ In (mkRow "proj/target" "target" "rust" 2048 false false "")
        (rowsOf (runScanStream neverCancelled neverDue scenarioOpts 1 0)))
  /\ (RelPath (mkRow "proj/target" "target" "rust" 2048 false false "")
      = "."
      \/ validateDeletePath
           (RelPath (mkRow "proj/target" "target" "rust" 2048 false false ""))
         = inl (RelPath
                  (mkRow "proj/target" "target" "rust" 2048 false false ""))).
Proof.
  assert (Hin : In (mkRow "proj/target" "target" "rust" 2048 false false "")
                  (rowsOf (runScanStream neverCancelled neverDue
                             scenarioOpts 1 0)))
    by (vm_compute; right; left; reflexivity).
  split; [split; [reflexivity|];
          split; [exact Scenarios.scenario_uniqueNames|];
          split; [reflexivity | exact Hin]|].
  exact (ScanCounters.scan_rows_pass_guard neverCancelled neverDue
           scenarioOpts 1 scenarioTree eq_refl 0 _
           Scenarios.scenario_uniqueNames eq_refl Hin).
Defined.

Lemma prompt_keys_witness :
  (active (confirm confirmingModel) = true
   /\ keyIn "q" ["y"; "Y"; "n"; "N"; "esc"] = false)
  /\ Update asciiToLower lineKeys confirmingModel (KeyMsg "q")
     = Some (confirmingModel, []).
Proof.
  assert (H1 : active (confirm confirmingModel) = true)
    by (vm_compute; reflexivity).
  assert (H2 : keyIn "q" ["y"; "Y"; "n"; "N"; "esc"] = false) by reflexivity.
  split; [auto|].
  exact (proj1 (Prompt.prompt_keys asciiToLower lineKeys confirmingModel "q"
                  H1) H2).
Defined.

Lemma scan_stream_consumed_witness :
  (scanStream streamingModel = Some 0%nat
   /\ Forall (streamMsg (scanID streamingModel))
        [ScanRowMsg 1 (mkRow "proj/target" "target" "rust" 2048 false false
                         "");
         ScanProgressMsg 1 3 1])
  /\ exists m',
       pump asciiToLower lineKeys streamingModel 1
         ([ScanRowMsg 1 (mkRow "proj/target" "target" "rust" 2048 false
                           false "");
           ScanProgressMsg 1 3 1]
          ++ [ScanFinishedMsg (scanID streamingModel) [] None 0 3 1])
       = Some (m', 0%nat, [])
       /\ rows m'
          = sliceStable (rowLess asciiToLower (sort_mode streamingModel))
              (rows streamingModel
               ++ rowsOf
                    [ScanRowMsg 1 (mkRow "proj/target" "target" "rust" 2048
                                     false false "");
                     ScanProgressMsg 1 3 1])
       /\ loading m' = false /\ err m' = None /\ warnings m' = []
       /\ lastScan m' = 0 /\ scanVisited m' = 3 /\ scanFound m' = 1.
Proof.
  assert (Hpre : Forall (streamMsg (scanID streamingModel))
                   [ScanRowMsg 1 (mkRow "proj/target" "target" "rust" 2048
                                    false false "");
                    ScanProgressMsg 1 3 1])
    by (repeat constructor).
  split; [split; [reflexivity | exact Hpre]|].
  exact (Stream.scan_stream_consumed asciiToLower lineKeys _ streamingModel
           0%nat [] None 0 3 1 eq_refl Hpre).
Defined.

Lemma scan_fills_table_witness :
  (scanStream streamingModel = Some 0%nat /\ rows streamingModel = [])
  /\ exists m',
       pump asciiToLower lineKeys streamingModel 1
         (runScanStream neverCancelled neverDue scenarioOpts
            (scanID streamingModel) 0)
       = Some (m', 0%nat, [])
       /\ rows m'
          = sliceStable (rowLess asciiToLower (sort_mode streamingModel))
              (rowsOf (runScanStream neverCancelled neverDue scenarioOpts
                         (scanID streamingModel) 0))
       /\ Permutation (rows m')
            (rowsOf (runScanStream neverCancelled neverDue scenarioOpts
                       (scanID streamingModel) 0))
       /\ loading m' = false
       /\ scanFound m' = wrapInt (len (rows m')).
Proof.
  split; [split; reflexivity|].
  exact (Stream.scan_fills_table asciiToLower lineKeys neverCancelled
           neverDue scenarioOpts streamingModel 0%nat 0 eq_refl eq_refl).
Defined.

(** The scan of the scenario read by the controller: two rows, the
    larger one first. *)
Example scan_fills_table_scenario :
  match pump asciiToLower lineKeys streamingModel 1
          (runScanStream neverCancelled neverDue scenarioOpts 1 0) with
  | Some (m, pending, rest) =>
      map (fun r => (RelPath r, SizeBytes r)) (rows m)
      = [("proj/target", 2048); ("proj/node_modules", 1024)]
      /\ scanFound m = 2 /\ loading m = false
      /\ pending = 0%nat /\ rest = []
  | None => False
  end.
Proof. vm_compute. repeat split; reflexivity. Qed.

Lemma scan_paths_unique_witness :
  (RootHandle scenarioOpts = Some scenarioTree
   /\ uniqueNames scenarioTree /\ plainTree scenarioTree = true)
  /\ NoDup (map RelPath
              (rowsOf (runScanStream neverCancelled neverDue scenarioOpts
                         1 0))).
Proof.
  split; [split; [reflexivity|];
          split; [exact Scenarios.scenario_uniqueNames | reflexivity]|].
  exact (ScanCounters.scan_paths_unique neverCancelled neverDue
           scenarioOpts 1 scenarioTree eq_refl 0
           Scenarios.scenario_uniqueNames eq_refl).
Defined.

Lemma result_hits_its_row_witness :
  (NoDup (map RelPath (rows markedModel))
   /\ rows markedModel !! 1%nat
      = Some (mkRow "proj/target" "target" "rust" 2048 true false ""))
  /\ findRow markedModel "proj/target" = Some 1%nat
  /\ rows (recordDeleteResult (mkDeleteResult "proj/target" None)
             markedModel)
     = <[1%nat := setDeletedRow
                    (mkRow "proj/target" "target" "rust" 2048 true false
                       "")]> (rows markedModel)
  /\ (forall e,
        rows (recordDeleteResult (mkDeleteResult "proj/target" (Some e))
                markedModel)
        = <[1%nat := setDeleteErr (errorText e)
                       (mkRow "proj/target" "target" "rust" 2048 true false
                          "")]> (rows markedModel))
  /\ (forall size,
        rows (applyRecalcResult "proj/target" size None markedModel)
        = <[1%nat := setSizeBytes size
                       (mkRow "proj/target" "target" "rust" 2048 true false
                          "")]> (rows markedModel)).
Proof.
  assert (Hnd : NoDup (map RelPath (rows markedModel)))
    by (apply (bool_decide_unpack _); vm_compute; exact I).
  assert (Hi : rows markedModel !! 1%nat
               = Some (mkRow "proj/target" "target" "rust" 2048 true false
                         ""))
    by (vm_compute; reflexivity).
  split; [split; [exact Hnd | exact Hi]|].
  exact (Table.result_hits_its_row markedModel 1%nat _ Hnd Hi).
Defined.

Lemma recalc_after_scan_witness :
  (RootHandle scenarioOpts = Some scenarioTree
   /\ uniqueNames scenarioTree /\ plainTree scenarioTree = true
   /\ In (mkRow "proj/target" "target" "rust" 2048 false false "")
        (rowsOf (runScanStream neverCancelled neverDue scenarioOpts 1 0))
   /\ (forall k, neverCancelled k = false))
  /\ exists t',
       recalcSizeCmd neverCancelled (RootHandle scenarioOpts)
         (RelPath (mkRow "proj/target" "target" "rust" 2048 false false ""))
         0
       = (RecalcSizeMsg
            (RelPath (mkRow "proj/target" "target" "rust" 2048 false false
                        ""))
            (SizeBytes (mkRow "proj/target" "target" "rust" 2048 false false
                          ""))
            None, t').
Proof.
  assert (Hin : In (mkRow "proj/target" "target" "rust" 2048 false false "")
                  (rowsOf (runScanStream neverCancelled neverDue
                             scenarioOpts 1 0)))
    by (vm_compute; right; left; reflexivity).
  split; [split; [reflexivity|];
          split; [exact Scenarios.scenario_uniqueNames|];
          split; [reflexivity|]; split; [exact Hin | reflexivity]|].
  exact (proj1 (Recalc.recalc_after_scan neverCancelled neverDue
                  scenarioOpts 1 scenarioTree eq_refl 0 _ neverCancelled
                  0%nat Scenarios.scenario_uniqueNames eq_refl Hin
                  (fun k => eq_refl))).
Defined.

Lemma deleted_row_is_inert_witness :
  (active (confirm deletedModel) = false
   /\ (cursorIndex deletedModel = None
       \/ exists idx r,
            cursorIndex deletedModel = Some idx
            /\ rows deletedModel !! idx = Some r /\ Deleted r = true)
   /\ keyIn "space" ["space"; "enter"; "d"; "u"] = true)
  /\ Update asciiToLower lineKeys deletedModel (KeyMsg "space")
     = Some (tableUpdate lineKeys (KeyMsg "space") deletedModel, [CmdTable]).
Proof.
  assert (H1 : active (confirm deletedModel) = false)
    by (vm_compute; reflexivity).
  assert (H2 : cursorIndex deletedModel = None
               \/ exists idx r,
                    cursorIndex deletedModel = Some idx
                    /\ rows deletedModel !! idx = Some r
                    /\ Deleted r = true).
  { right. exists 0%nat.
    exists (mkRow "proj/node_modules" "node_modules" "node" 1024 false true
              "").
    split; [vm_compute; reflexivity|].
    split; [vm_compute; reflexivity | reflexivity]. }
  split; [split; [exact H1 | split; [exact H2 | reflexivity]]|].
  exact (Keys.deleted_row_is_inert asciiToLower lineKeys deletedModel
           "space" H1 H2 eq_refl).
Defined.

Lemma bulk_delete_queue_witness :
  (active (confirm markedModel) = false /\ deleting markedModel = false
   /\ markedPaths (rows markedModel) = ["proj/node_modules"; "proj/target"])
  /\ exists m1 m2 cmds,
       Update asciiToLower lineKeys markedModel (KeyMsg "D") = Some (m1, [])
       /\ rows m1 = rows markedModel /\ deleting m1 = false
       /\ paths (confirm m1) = ["proj/node_modules"; "proj/target"]
       /\ Update asciiToLower lineKeys m1 (KeyMsg "y") = Some (m2, cmds)
       /\ cmds = [CmdProgress;
                  CmdDelete (rootOkOf (scanOpts markedModel))
                    "proj/node_modules";
                  CmdTable]
       /\ deleting m2 = true
       /\ deleteQueue m2 = ["proj/node_modules"; "proj/target"]
       /\ deleteTotal m2 = len ["proj/node_modules"; "proj/target"]
       /\ deleteDone m2 = 0
       /\ rows m2 = rows markedModel /\ active (confirm m2) = false.
Proof.
  assert (H1 : active (confirm markedModel) = false)
    by (vm_compute; reflexivity).
  assert (H2 : deleting markedModel = false) by (vm_compute; reflexivity).
  assert (H3 : markedPaths (rows markedModel)
               = ["proj/node_modules"; "proj/target"])
    by (vm_compute; reflexivity).
  assert (H4 : confirmDeletes markedModel = true)
    by (vm_compute; reflexivity).
  split; [split; [exact H1 | split; [exact H2 | exact H3]]|].
  pose proof (Keys.bulk_delete_queue asciiToLower lineKeys markedModel
                "proj/node_modules" ["proj/target"] H1 H2 H3) as H.
  cbv zeta in H. rewrite H4 in H. exact H.
Defined.

End Examples.
